(** * Path resolution and access control (src/utils/path.ts)

    A shallow embedding of the path utilities of the plugin: environment
    and home expansion, MSYS translation, the symlink-aware realpath that
    tolerates missing targets, and the access classifier with its narrow
    predicates.

    Strings are [string] values whose characters stand for code units
    below 256; the Node [path] module is an interface ([PathModule]) with
    the POSIX instance written out from Node's lib/path.js; the process
    (platform, environment, home, working directory) and the file system
    ([realpathSync], [existsSync]) form the [Host] the code runs on. *)

From Stdlib Require Import String Ascii List Bool Arith ZArith Lia.
Import ListNotations.
Open Scope string_scope.
Open Scope bool_scope.

(* ================================================================== *)
(** * JavaScript string primitives *)
(* ================================================================== *)

Module JS.

(** [!value] on a string: the empty string is the only falsy one. *)
Definition isEmpty (s : string) : bool :=
  match s with EmptyString => true | String _ _ => false end.

(** [s.charCodeAt(i)], [None] standing for NaN (index out of range). *)
Definition charCodeAt (s : string) (i : Z) : option ascii :=
  if (i <? 0)%Z then None else String.get (Z.to_nat i) s.

(** [s.startsWith(p)]. *)
Definition startsWith (s p : string) : bool := String.prefix p s.

(** [s.slice(n)] for [0 <= n]. *)
Definition sliceFrom (s : string) (n : nat) : string :=
  substring n (String.length s - n) s.

(** [s.slice(a, b)] for [0 <= a] and [0 <= b]. *)
Definition slice (s : string) (a b : nat) : string :=
  substring a (b - a) s.

(** [s.includes(c)] for a one-character needle. *)
Fixpoint includes (s : string) (c : ascii) : bool :=
  match s with
  | EmptyString => false
  | String d s' => Ascii.eqb d c || includes s' c
  end.

(** [s.lastIndexOf(c)] for a one-character needle; -1 when absent. *)
Fixpoint lastIndexOfFrom (s : string) (c : ascii) (i : Z) (acc : Z) : Z :=
  match s with
  | EmptyString => acc
  | String d s' =>
      lastIndexOfFrom s' c (i + 1)%Z (if Ascii.eqb d c then i else acc)
  end.

Definition lastIndexOf (s : string) (c : ascii) : Z :=
  lastIndexOfFrom s c 0%Z (-1)%Z.

Fixpoint takeWhile (f : ascii -> bool) (s : string) : string :=
  match s with
  | EmptyString => EmptyString
  | String c s' => if f c then String c (takeWhile f s') else EmptyString
  end.

Fixpoint dropWhile (f : ascii -> bool) (s : string) : string :=
  match s with
  | EmptyString => EmptyString
  | String c s' => if f c then dropWhile f s' else s
  end.

Fixpoint rev (s : string) : string :=
  match s with
  | EmptyString => EmptyString
  | String c s' => rev s' ++ String c EmptyString
  end.

Fixpoint mapChars (f : ascii -> ascii) (s : string) : string :=
  match s with
  | EmptyString => EmptyString
  | String c s' => String (f c) (mapChars f s')
  end.

Definition between (lo hi : nat) (c : ascii) : bool :=
  (lo <=? nat_of_ascii c)%nat && (nat_of_ascii c <=? hi)%nat.

(** White space and line terminators of ECMAScript among the code units
    below 256: TAB, LF, VT, FF, CR, SPACE and NBSP. *)
Definition isWhiteSpace (c : ascii) : bool :=
  between 9 13 c || (nat_of_ascii c =? 32)%nat || (nat_of_ascii c =? 160)%nat.

(** [s.trim()]. *)
Definition trimStart (s : string) : string := dropWhile isWhiteSpace s.
Definition trimEnd (s : string) : string := rev (dropWhile isWhiteSpace (rev s)).
Definition trim (s : string) : string := trimEnd (trimStart s).

(** [toLowerCase] / [toUpperCase] on one code unit.  Below 256 the
    letters with a lower-case partner are A-Z, and U+00C0-U+00DE but for
    the multiplication sign U+00D7. *)
Definition lowerChar (c : ascii) : ascii :=
  let n := nat_of_ascii c in
  if between 65 90 c || (between 192 222 c && negb (n =? 215)%nat)
  then ascii_of_nat (n + 32) else c.

(** [toUpperCase] is only ever applied to names matched by the
    identifier patterns and to drive letters, all ASCII. *)
Definition upperChar (c : ascii) : ascii :=
  if between 97 122 c then ascii_of_nat (nat_of_ascii c - 32) else c.

Definition toLowerCase (s : string) : string := mapChars lowerChar s.
Definition toUpperCase (s : string) : string := mapChars upperChar s.

(** [s.replace(/\//g, '\\')]: every forward slash becomes a backslash. *)
Definition slashesToBackslashes (s : string) : string :=
  mapChars (fun c => if Ascii.eqb c "/" then "\"%char else c) s.

End JS.

(* ================================================================== *)
(** * The Node [path] module *)
(* ================================================================== *)

(** The operations of [path] the utilities call.  [resolve] reads the
    working directory of the process, passed here as its first argument. *)
Record PathModule : Type := mkPathModule {
  sep : string;
  isAbsolute : string -> bool;
  resolve : string -> list string -> string;
  normalize : string -> string;
  join : list string -> string;
  dirname : string -> string;
  basename : string -> string
}.

(** [path.posix], after Node's lib/path.js. *)
Module Posix.

Definition isPosixPathSeparator (c : ascii) : bool := Ascii.eqb c "/".

Definition lenZ (s : string) : Z := Z.of_nat (String.length s).

Definition isDotAt (s : string) (i : Z) : bool :=
  match JS.charCodeAt s i with
  | Some c => Ascii.eqb c "."
  | None => false
  end.

Definition isSlashAt (s : string) (i : nat) : bool :=
  match String.get i s with
  | Some c => Ascii.eqb c "/"
  | None => false
  end.

(** The loop variables of [normalizeString]. *)
Record NState : Type := mkNState {
  res : string;
  lastSegmentLength : Z;
  lastSlash : Z;
  dots : Z;
  code : ascii
}.

(** The [dots === 2] branch when nothing can be popped. *)
Definition aboveRoot (allowAboveRoot : bool) (st : NState) : string * Z :=
  if allowAboveRoot
  then ((if (0 <? lenZ (res st))%Z then res st ++ "/.." else ".."), 2%Z)
  else (res st, lastSegmentLength st).

(** What a separator (or the end of the input) does to [res] and
    [lastSegmentLength]; every path through it then sets
    [lastSlash = i] and [dots = 0]. *)
Definition onSeparator (path : string) (allowAboveRoot : bool) (i : Z)
    (st : NState) : string * Z :=
  if (lastSlash st =? i - 1)%Z || (dots st =? 1)%Z then
    (res st, lastSegmentLength st)
  else if (dots st =? 2)%Z then
    if (lenZ (res st) <? 2)%Z || negb (lastSegmentLength st =? 2)%Z
       || negb (isDotAt (res st) (lenZ (res st) - 1))
       || negb (isDotAt (res st) (lenZ (res st) - 2))
    then
      if (2 <? lenZ (res st))%Z then
        let lastSlashIndex := JS.lastIndexOf (res st) "/" in
        if (lastSlashIndex =? -1)%Z then (EmptyString, 0%Z)
        else
          let r := JS.slice (res st) 0 (Z.to_nat lastSlashIndex) in
          (r, (lenZ r - 1 - JS.lastIndexOf r "/")%Z)
      else if negb (lenZ (res st) =? 0)%Z then (EmptyString, 0%Z)
      else aboveRoot allowAboveRoot st
    else aboveRoot allowAboveRoot st
  else
    let segment := JS.slice path (Z.to_nat (lastSlash st + 1)) (Z.to_nat i) in
    ((if (0 <? lenZ (res st))%Z then res st ++ "/" ++ segment else segment),
     (i - lastSlash st - 1)%Z).

(** One iteration of the loop at index [i]; [None] is [break]. *)
Definition normalizeStep (path : string) (allowAboveRoot : bool) (i : Z)
    (st : NState) : option NState :=
  let fetched :=
    if (i <? lenZ path)%Z then JS.charCodeAt path i
    else if isPosixPathSeparator (code st) then None
    else Some "/"%char in
  match fetched with
  | None => None
  | Some c =>
      if isPosixPathSeparator c then
        let '(r, l) := onSeparator path allowAboveRoot i st in
        Some (mkNState r l i 0%Z c)
      else if Ascii.eqb c "." && negb (dots st =? -1)%Z then
        Some (mkNState (res st) (lastSegmentLength st) (lastSlash st)
                       (dots st + 1)%Z c)
      else
        Some (mkNState (res st) (lastSegmentLength st) (lastSlash st)
                       (-1)%Z c)
  end.

(** [for (let i = 0; i <= path.length; ++i)], [n] iterations left. *)
Fixpoint normalizeLoop (path : string) (allowAboveRoot : bool) (n : nat)
    (i : Z) (st : NState) : NState :=
  match n with
  | O => st
  | S n' =>
      match normalizeStep path allowAboveRoot i st with
      | None => st
      | Some st' => normalizeLoop path allowAboveRoot n' (i + 1)%Z st'
      end
  end.

Definition normalizeString (path : string) (allowAboveRoot : bool) : string :=
  res (normalizeLoop path allowAboveRoot (S (String.length path)) 0%Z
         (mkNState EmptyString 0%Z (-1)%Z 0%Z zero)).

Definition isAbsolute (path : string) : bool :=
  match path with
  | String c _ => Ascii.eqb c "/"
  | EmptyString => false
  end.

(** The loop of [resolve], from the last argument down to the working
    directory (index -1), until an absolute piece is met. *)
Fixpoint resolveLoop (cwd : string) (revArgs : list string)
    (resolvedPath : string) : string * bool :=
  match revArgs with
  | [] =>
      if JS.isEmpty cwd then (resolvedPath, false)
      else (cwd ++ "/" ++ resolvedPath, isAbsolute cwd)
  | p :: rest =>
      if JS.isEmpty p then resolveLoop cwd rest resolvedPath
      else if isAbsolute p then (p ++ "/" ++ resolvedPath, true)
      else resolveLoop cwd rest (p ++ "/" ++ resolvedPath)
  end.

Definition resolve (cwd : string) (args : list string) : string :=
  let '(resolvedPath, resolvedAbsolute) :=
    resolveLoop cwd (List.rev args) EmptyString in
  let normalized := normalizeString resolvedPath (negb resolvedAbsolute) in
  if resolvedAbsolute then "/" ++ normalized
  else if (0 <? String.length normalized)%nat then normalized else ".".

Definition normalize (path : string) : string :=
  if JS.isEmpty path then "."
  else
    let isAbs := isAbsolute path in
    let trailingSeparator := isSlashAt path (String.length path - 1) in
    let p := normalizeString path (negb isAbs) in
    if JS.isEmpty p then
      if isAbs then "/" else if trailingSeparator then "./" else "."
    else
      let p' := if trailingSeparator then p ++ "/" else p in
      if isAbs then "/" ++ p' else p'.

(** [joined] is [undefined] until the first non-empty argument. *)
Fixpoint joinLoop (args : list string) (joined : option string)
    : option string :=
  match args with
  | [] => joined
  | arg :: rest =>
      if (0 <? String.length arg)%nat then
        joinLoop rest
          (Some match joined with
                | None => arg
                | Some j => j ++ "/" ++ arg
                end)
      else joinLoop rest joined
  end.

Definition join (args : list string) : string :=
  match joinLoop args None with
  | None => "."
  | Some joined => normalize joined
  end.

(** [for (let i = path.length - 1; i >= 1; --i)] of [dirname], entered
    at index [i]; the result is [end]. *)
Fixpoint dirnameScan (path : string) (i : nat) (matchedSlash : bool) : Z :=
  match i with
  | O => (-1)%Z
  | S i' =>
      if isSlashAt path i then
        if negb matchedSlash then Z.of_nat i
        else dirnameScan path i' matchedSlash
      else dirnameScan path i' false
  end.

Definition dirname (path : string) : string :=
  if JS.isEmpty path then "."
  else
    let hasRoot := isAbsolute path in
    let end_ := dirnameScan path (String.length path - 1) true in
    if (end_ =? -1)%Z then (if hasRoot then "/" else ".")
    else if hasRoot && (end_ =? 1)%Z then "//"
    else JS.slice path 0 (Z.to_nat end_).

(** [for (i = path.length - 1; i >= 0; --i)] of [basename] called with
    no extension, about to visit index [n - 1]; the result is
    [(start, end)]. *)
Fixpoint basenameScan (path : string) (n : nat) (start : nat) (end_ : Z)
    (matchedSlash : bool) : nat * Z :=
  match n with
  | O => (start, end_)
  | S i =>
      if isSlashAt path i then
        if negb matchedSlash then (i + 1, end_)
        else basenameScan path i start end_ matchedSlash
      else if (end_ =? -1)%Z then
        basenameScan path i start (Z.of_nat (i + 1)) false
      else basenameScan path i start end_ matchedSlash
  end.

Definition basename (path : string) : string :=
  let '(start, end_) :=
    basenameScan path (String.length path) 0 (-1)%Z true in
  if (end_ =? -1)%Z then EmptyString
  else JS.slice path start (Z.to_nat end_).

Definition module : PathModule :=
  mkPathModule "/" isAbsolute resolve normalize join dirname basename.

End Posix.


(* ================================================================== *)
(** * The host: process, operating system and file system *)
(* ================================================================== *)

(** [process.platform === 'win32'], [process.env] in enumeration order,
    [os.homedir()], [process.cwd()], and the two file-system calls:
    [realpathFn] is [fs.realpathSync.native] with [None] for a thrown
    error, [existsSync] never throws. *)
Record Host : Type := mkHost {
  win32 : bool;
  env : list (string * string);
  homedir : string;
  cwd : string;
  realpathFn : string -> option string;
  existsSync : string -> bool
}.

(* ================================================================== *)
(** * Regular expressions of [expandEnvironmentVariables] *)
(* ================================================================== *)

Module Regex.

(** A match anchored at the start of the text: its length and capture
    groups ([None] for a group that did not take part). *)
Record Match : Type := mkMatch {
  matchLength : nat;
  groups : list (option string)
}.

Definition Pattern : Type := string -> option Match.

(** [s.replace(re, replacer)] for a global pattern that never matches
    the empty string: scan left to right, and after a match resume
    behind it ([skip] counts the matched characters still to pass). *)
Fixpoint replaceFrom (re : Pattern)
    (replacer : string -> list (option string) -> string)
    (s : string) (skip : nat) : string :=
  match s with
  | EmptyString => EmptyString
  | String c s' =>
      match skip with
      | S k => replaceFrom re replacer s' k
      | O =>
          match re s with
          | Some m =>
              replacer (substring 0 (matchLength m) s) (groups m)
              ++ replaceFrom re replacer s' (matchLength m - 1)
          | None => String c (replaceFrom re replacer s' 0)
          end
      end
  end.

Definition replace (re : Pattern)
    (replacer : string -> list (option string) -> string) (s : string)
    : string :=
  replaceFrom re replacer s 0.

(** Letters and underscore: the first character of a name. *)
Definition isNameStart (c : ascii) : bool :=
  JS.between 65 90 c || JS.between 97 122 c || Ascii.eqb c "_".

(** Letters, digits and underscore. *)
Definition isNameChar (c : ascii) : bool :=
  isNameStart c || JS.between 48 57 c.

(** Letters, digits, underscore and both parentheses. *)
Definition isPercentChar (c : ascii) : bool :=
  isNameChar c || Ascii.eqb c "(" || Ascii.eqb c ")".

(** The Windows form: a percent sign, a group made of a name start, any
    number of [isPercentChar] characters and one optional character
    among letters, digits, underscore and closing parenthesis, then a
    percent sign.  The optional class is contained in the repeated one
    and neither holds the percent sign, so the pattern matches exactly
    when the longest run of repeated characters is followed by a percent
    sign, whichever way the run is split between the repetition and the
    optional character; the group is the whole name (see
    [percentVar_regex]). *)
Definition percentVar : Pattern := fun s =>
  match s with
  | String "%" (String c0 rest) =>
      if isNameStart c0 then
        let body := JS.takeWhile isPercentChar rest in
        match JS.dropWhile isPercentChar rest with
        | String "%" _ =>
            Some (mkMatch (String.length body + 3) [Some (String c0 body)])
        | _ => None
        end
      else None
  | _ => None
  end.

(** The delayed-expansion form: an exclamation mark, a group made of a
    name start and the longest run of name characters, an exclamation
    mark. *)
Definition bangVar : Pattern := fun s =>
  match s with
  | String "!" (String c0 rest) =>
      if isNameStart c0 then
        let body := JS.takeWhile isNameChar rest in
        match JS.dropWhile isNameChar rest with
        | String "!" _ =>
            Some (mkMatch (String.length body + 3) [Some (String c0 body)])
        | _ => None
        end
      else None
  | _ => None
  end.

(** The PowerShell form, case-insensitive: a dollar sign, the letters
    e, n, v in either case, a colon, then a group made of a name start
    and the longest run of name characters. *)
Definition powershellVar : Pattern := fun s =>
  match s with
  | String "$" (String e (String n (String v (String ":" (String c0 rest))))) =>
      if Ascii.eqb (JS.lowerChar e) "e" && Ascii.eqb (JS.lowerChar n) "n"
         && Ascii.eqb (JS.lowerChar v) "v" && isNameStart c0 then
        let body := JS.takeWhile isNameChar rest in
        Some (mkMatch (String.length body + 6) [Some (String c0 body)])
      else None
  | _ => None
  end.

(** The POSIX forms, an alternation of two branches with one group
    each: a dollar sign and a name; or a dollar sign and a name in
    braces.  The bare branch is tried first. *)
Definition posixVar : Pattern := fun s =>
  match s with
  | String "$" (String c0 rest) =>
      if isNameStart c0 then
        let body := JS.takeWhile isNameChar rest in
        Some (mkMatch (String.length body + 2) [Some (String c0 body); None])
      else if Ascii.eqb c0 "{" then
        match rest with
        | String c1 rest' =>
            if isNameStart c1 then
              let body := JS.takeWhile isNameChar rest' in
              match JS.dropWhile isNameChar rest' with
              | String "}" _ =>
                  Some (mkMatch (String.length body + 4)
                          [None; Some (String c1 body)])
              | _ => None
              end
            else None
        | EmptyString => None
        end
      else None
  | _ => None
  end.

(** ASCII letters. *)
Definition isLetter (c : ascii) : bool :=
  JS.between 65 90 c || JS.between 97 122 c.

Definition isLineTerminator (c : ascii) : bool :=
  (nat_of_ascii c =? 10)%nat || (nat_of_ascii c =? 13)%nat.

Fixpoint noLineTerminator (s : string) : bool :=
  match s with
  | EmptyString => true
  | String c s' => negb (isLineTerminator c) && noLineTerminator s'
  end.

(** The pattern of [translateMsysPath], anchored at both ends: a slash,
    a group of one letter, and an optional group made of a slash and
    any characters but line terminators (LF or CR below 256). *)
Definition msysPath (s : string) : option Match :=
  match s with
  | String "/" (String d rest) =>
      if isLetter d then
        match rest with
        | EmptyString =>
            Some (mkMatch 2 [Some (String d EmptyString); None])
        | String "/" tail =>
            if noLineTerminator tail then
              Some (mkMatch (String.length s)
                      [Some (String d EmptyString); Some rest])
            else None
        | _ => None
        end
      else None
  | _ => None
  end.

End Regex.

(* ================================================================== *)
(** * src/utils/path.ts *)
(* ================================================================== *)

(** [PathAccessType] *)
Module Access.
Inductive t : Type := vault | readwrite | context | export | none.
End Access.

(** The value type of the [roots] map of [getPathAccessType]. *)
Record RootFlags : Type := mkRootFlags { context : bool; export : bool }.

Inductive RootKind : Type := KindContext | KindExport.

(** A JavaScript [Map] with string keys: entries in insertion order,
    [set] on a present key replaces the value in place. *)
Module StrMap.
Section WithValue.
Context {V : Type}.

Fixpoint get (m : list (string * V)) (k : string) : option V :=
  match m with
  | [] => None
  | (k', v) :: rest => if String.eqb k' k then Some v else get rest k
  end.

Fixpoint set (m : list (string * V)) (k : string) (v : V)
    : list (string * V) :=
  match m with
  | [] => [(k, v)]
  | (k', v') :: rest =>
      if String.eqb k' k then (k, v) :: rest else (k', v') :: set rest k v
  end.

End WithValue.
End StrMap.

Section PathUtilities.

Variable P : PathModule.
Variable h : Host.

(** ** Home path expansion *)

Definition startsWithHomePath (p : string) : bool :=
  JS.startsWith p "~/" || JS.startsWith p "~\" || String.eqb p "~".

(** [process.env[name]] guarded by [hasOwnProperty]. *)
Definition envLookup (name : string) : option string :=
  StrMap.get (env h) name.

Definition getEnvValue (key : string) : option string :=
  match envLookup key with
  | Some v => Some v
  | None =>
      if negb (win32 h) then None
      else
        match envLookup (JS.toUpperCase key) with
        | Some v => Some v
        | None =>
            match envLookup (JS.toLowerCase key) with
            | Some v => Some v
            | None =>
                match
                  List.find
                    (fun name =>
                       String.eqb (JS.toLowerCase name) (JS.toLowerCase key))
                    (List.map fst (env h))
                with
                | Some matchKey =>
                    if JS.isEmpty matchKey then None else envLookup matchKey
                | None => None
                end
            end
        end
  end.

(** The replacer shared by the one-group patterns: the value of the
    variable, or the matched text when it has none. *)
Definition substituteVar (matched : string) (groups : list (option string))
    : string :=
  match groups with
  | Some name :: _ =>
      match getEnvValue name with
      | Some envValue => envValue
      | None => matched
      end
  | _ => matched
  end.

(** The replacer of the POSIX pattern: [key = name1 ?? name2]. *)
Definition substitutePosixVar (matched : string)
    (groups : list (option string)) : string :=
  let key :=
    match groups with
    | Some name1 :: _ => Some name1
    | None :: Some name2 :: _ => Some name2
    | _ => None
    end in
  match key with
  | Some k =>
      if JS.isEmpty k then matched
      else
        match getEnvValue k with
        | Some envValue => envValue
        | None => matched
        end
  | None => matched
  end.

Definition expandEnvironmentVariables (value : string) : string :=
  if negb (JS.includes value "%") && negb (JS.includes value "$")
     && negb (JS.includes value "!")
  then value
  else
    let isWindows := win32 h in
    let expanded := Regex.replace Regex.percentVar substituteVar value in
    let expanded :=
      if isWindows then
        let expanded := Regex.replace Regex.bangVar substituteVar expanded in
        Regex.replace Regex.powershellVar substituteVar expanded
      else expanded in
    Regex.replace Regex.posixVar substitutePosixVar expanded.

Definition expandHomePath (p : string) : string :=
  let expanded := expandEnvironmentVariables p in
  if String.eqb expanded "~" then homedir h
  else if JS.startsWith expanded "~/" then
    join P [homedir h; JS.sliceFrom expanded 2]
  else if JS.startsWith expanded "~\" then
    join P [homedir h; JS.sliceFrom expanded 2]
  else expanded.

(** ** Path resolution *)

(** The [while (true)] loop of [resolveRealPath]; [fuel] bounds the
    number of iterations and [None] means it ran out.  An ancestor that
    exists but whose [realpathFn] throws is passed over like a missing
    one (the inner [catch]). *)
Fixpoint walkUp (fuel : nat) (absolute current : string)
    (suffix : list string) : option string :=
  match fuel with
  | O => None
  | S fuel' =>
      match
        (if existsSync h current then realpathFn h current else None)
      with
      | Some resolvedExisting =>
          Some (if (0 <? List.length suffix)%nat
                then join P (resolvedExisting :: List.rev suffix)
                else resolvedExisting)
      | None =>
          let parent := dirname P current in
          if String.eqb parent current then Some absolute
          else walkUp fuel' absolute parent (suffix ++ [basename P current])
      end
  end.

(** Each iteration but the last replaces [current] by a shorter
    [dirname]; two more iterations than [absolute] has characters are
    enough (see [walkUp_terminates]). *)
Definition walkFuel (absolute : string) : nat := String.length absolute + 2.

Definition resolveRealPath (p : string) : string :=
  match realpathFn h p with
  | Some real => real
  | None =>
      let absolute := resolve P (cwd h) [p] in
      match walkUp (walkFuel absolute) absolute absolute [] with
      | Some r => r
      | None => absolute
      end
  end.

Definition translateMsysPath (value : string) : string :=
  if negb (win32 h) then value
  else
    match Regex.msysPath value with
    | Some (Regex.mkMatch _ (Some driveLetter :: restOfPath :: _)) =>
        JS.toUpperCase driveLetter ++ ":"
        ++ JS.slashesToBackslashes
             (match restOfPath with Some r => r | None => EmptyString end)
    | _ => value
    end.

Definition normalizePathBeforeResolution (p : string) : string :=
  let expanded := expandHomePath p in
  translateMsysPath expanded.

Definition normalizeWindowsPathPrefix (value : string) : string :=
  if negb (win32 h) then value
  else
    let normalized := translateMsysPath value in
    if JS.startsWith normalized "\\?\UNC\" then
      "\\" ++ JS.sliceFrom normalized (String.length "\\?\UNC\")
    else if JS.startsWith normalized "\\?\" then
      JS.sliceFrom normalized (String.length "\\?\")
    else normalized.

(** [path.normalize] does not throw on a string, so the [catch] branch
    of the source is dead and left out. *)
Definition normalizePathForComparison (value : string) : string :=
  if JS.isEmpty value then EmptyString
  else
    let normalized := normalizeWindowsPathPrefix (normalize P value) in
    if win32 h then JS.toLowerCase normalized else normalized.

(** ** Path access control *)

(** [a === root || a.startsWith(root + path.sep)] *)
Definition isWithin (candidate root : string) : bool :=
  String.eqb candidate root || JS.startsWith candidate (root ++ sep P).

(** The three steps every entry point applies to the candidate. *)
Definition resolveCandidate (candidatePath vaultPath : string) : string :=
  let normalizedCandidate := normalizePathBeforeResolution candidatePath in
  let absCandidate :=
    if isAbsolute P normalizedCandidate then normalizedCandidate
    else resolve P (cwd h) [vaultPath; normalizedCandidate] in
  normalizePathForComparison (resolveRealPath absCandidate).

Definition isPathWithinVault (candidatePath vaultPath : string) : bool :=
  let vaultReal := normalizePathForComparison (resolveRealPath vaultPath) in
  let resolvedCandidate := resolveCandidate candidatePath vaultPath in
  isWithin resolvedCandidate vaultReal.

(** The [for ... of] loop of the two narrow predicates. *)
Fixpoint anyAllowedPath (resolvedCandidate : string)
    (allowedPaths : list string) : bool :=
  match allowedPaths with
  | [] => false
  | allowedPath :: rest =>
      let normalizedAllowed := normalizePathBeforeResolution allowedPath in
      let resolvedAllowed :=
        normalizePathForComparison (resolveRealPath normalizedAllowed) in
      if isWithin resolvedCandidate resolvedAllowed then true
      else anyAllowedPath resolvedCandidate rest
  end.

Definition isPathInAllowedExportPaths (candidatePath : string)
    (allowedExportPaths : list string) (vaultPath : string) : bool :=
  if (List.length allowedExportPaths =? 0)%nat then false
  else
    let resolvedCandidate := resolveCandidate candidatePath vaultPath in
    anyAllowedPath resolvedCandidate allowedExportPaths.

Definition isPathInAllowedContextPaths (candidatePath : string)
    (allowedContextPaths : list string) (vaultPath : string) : bool :=
  if (List.length allowedContextPaths =? 0)%nat then false
  else
    let resolvedCandidate := resolveCandidate candidatePath vaultPath in
    anyAllowedPath resolvedCandidate allowedContextPaths.

Definition setKind (flags : RootFlags) (kind : RootKind) : RootFlags :=
  match kind with
  | KindContext => mkRootFlags true (export flags)
  | KindExport => mkRootFlags (context flags) true
  end.

(** The canonical key [addRoot] computes for a trimmed entry. *)
Definition resolveRoot (trimmed : string) : string :=
  let normalized := normalizePathBeforeResolution trimmed in
  normalizePathForComparison (resolveRealPath normalized).

Definition addRoot (roots : list (string * RootFlags)) (rawPath : string)
    (kind : RootKind) : list (string * RootFlags) :=
  let trimmed := JS.trim rawPath in
  if JS.isEmpty trimmed then roots
  else
    let resolved := resolveRoot trimmed in
    let existing :=
      match StrMap.get roots resolved with
      | Some flags => flags
      | None => mkRootFlags false false
      end in
    StrMap.set roots resolved (setKind existing kind).

(** [allowedContextPaths ?? []] *)
Definition orEmpty (paths : option (list string)) : list string :=
  match paths with Some l => l | None => [] end.

Definition buildRoots (allowedContextPaths allowedExportPaths
    : option (list string)) : list (string * RootFlags) :=
  let roots :=
    List.fold_left (fun roots contextPath => addRoot roots contextPath KindContext)
      (orEmpty allowedContextPaths) [] in
  List.fold_left (fun roots exportPath => addRoot roots exportPath KindExport)
    (orEmpty allowedExportPaths) roots.

(** [bestRoot] and [bestFlags] are assigned together; [!bestRoot] holds
    for [null] and for the empty string. *)
Definition noBest (best : option (string * RootFlags)) : bool :=
  match best with
  | None => true
  | Some (bestRoot, _) => JS.isEmpty bestRoot
  end.

Definition selectStep (resolvedCandidate : string)
    (best : option (string * RootFlags)) (entry : string * RootFlags)
    : option (string * RootFlags) :=
  let '(root, flags) := entry in
  if isWithin resolvedCandidate root then
    if noBest best
       || (match best with
           | Some (bestRoot, _) =>
               (String.length bestRoot <? String.length root)%nat
           | None => false
           end)
    then Some (root, flags)
    else best
  else best.

Definition selectBest (resolvedCandidate : string)
    (roots : list (string * RootFlags)) : option (string * RootFlags) :=
  List.fold_left (selectStep resolvedCandidate) roots None.

Definition accessOfFlags (bestFlags : RootFlags) : Access.t :=
  if context bestFlags && export bestFlags then Access.readwrite
  else if context bestFlags then Access.context
  else if export bestFlags then Access.export
  else Access.none.

Definition getPathAccessType (candidatePath : string)
    (allowedContextPaths allowedExportPaths : option (list string))
    (vaultPath : string) : Access.t :=
  if JS.isEmpty candidatePath then Access.none
  else
    let vaultReal := normalizePathForComparison (resolveRealPath vaultPath) in
    let resolvedCandidate := resolveCandidate candidatePath vaultPath in
    if isWithin resolvedCandidate vaultReal then Access.vault
    else
      let roots := buildRoots allowedContextPaths allowedExportPaths in
      let best := selectBest resolvedCandidate roots in
      if noBest best then Access.none
      else
        match best with
        | Some (_, bestFlags) => accessOfFlags bestFlags
        | None => Access.none
        end.

End PathUtilities.

(* ================================================================== *)
(** * Vocabulary of the properties *)
(* ================================================================== *)

(** The outcome of one probe of [walkUp]: the canonical form of
    [current] when it exists and [realpathFn] succeeds on it. *)
Definition probe (h : Host) (current : string) : option string :=
  if existsSync h current then realpathFn h current else None.

(** The [n]-th ancestor [walkUp] visits, and the segments it has pushed
    on [suffix] when it gets there (deepest segment first). *)
Definition ancestor (P : PathModule) (n : nat) (absolute : string) : string :=
  Nat.iter n (dirname P) absolute.

Definition strippedSegments (P : PathModule) (n : nat) (absolute : string)
    : list string :=
  List.map (fun i => basename P (ancestor P i absolute)) (List.seq 0 n).

(** What makes [walkUp] stop: [dirname] is the identity on its
    argument, or shortens it, or lands on a path it is the identity on
    (as ["a"] goes to ["."]). *)
Class PathLaws (P : PathModule) : Prop := {
  dirname_descends : forall s,
    dirname P s = s
    \/ String.length (dirname P s) < String.length s
    \/ dirname P (dirname P s) = dirname P s
}.

(** [roots.get(resolved) ?? { context: false, export: false }] *)
Definition flagsOr (o : option RootFlags) : RootFlags :=
  match o with Some flags => flags | None => mkRootFlags false false end.

(** One of the two [for ... of] loops of [getPathAccessType] over a
    configured list. *)
Definition addAll (P : PathModule) (h : Host) (kind : RootKind)
    (entries : list string) (roots : list (string * RootFlags))
    : list (string * RootFlags) :=
  List.fold_left (fun roots e => addRoot P h roots e kind) entries roots.

(** While the selection loop has not met [root], [best] is unset or a
    matching root that is not [root] and not longer. *)
Definition beforeRoot (P : PathModule) (resolvedCandidate root : string)
    (best : option (string * RootFlags)) : Prop :=
  match best with
  | None => True
  | Some (b, _) =>
      isWithin P resolvedCandidate b = true /\ b <> root
      /\ String.length b <= String.length root
  end.

(** Whether a list entry survives the [trim] and the emptiness test of
    [addRoot]. *)
Definition isBlank (entry : string) : bool := JS.isEmpty (JS.trim entry).

(** Whether some entry of [entries] is turned by [addRoot] into the
    key [root]. *)
Definition mentions (P : PathModule) (h : Host) (entries : list string)
    (root : string) : bool :=
  List.existsb
    (fun e => negb (isBlank e) && String.eqb (resolveRoot P h (JS.trim e)) root)
    entries.

(** The entries of a list as [addRoot] reads them. *)
Definition cleanEntries (entries : list string) : list string :=
  List.map JS.trim (List.filter (fun e => negb (isBlank e)) entries).

(** Whether some key of the merged map matches the candidate: the
    matching rule of the classifier on its own. *)
Definition anyRootMatches (P : PathModule) (resolvedCandidate : string)
    (roots : list (string * RootFlags)) : bool :=
  List.existsb (fun entry => isWithin P resolvedCandidate (fst entry)) roots.

(** A valid variable name for the one-group patterns. *)
Definition isName (name : string) : bool :=
  match name with
  | String c0 rest =>
      Regex.isNameStart c0 && JS.isEmpty (JS.dropWhile Regex.isNameChar rest)
  | EmptyString => false
  end.

(** A valid variable name between percent signs. *)
Definition isPercentName (name : string) : bool :=
  match name with
  | String c0 rest =>
      Regex.isNameStart c0 && JS.isEmpty (JS.dropWhile Regex.isPercentChar rest)
  | EmptyString => false
  end.

(** Letters, digits, underscore and the closing parenthesis: the class
    of the optional last character of a name between percent signs. *)
Definition isPercentTail (c : ascii) : bool :=
  Regex.isNameChar c || Ascii.eqb c ")".

(** The percent pattern read as a regular expression: some way of
    splitting the text into the percent sign, the first character, the
    repeated characters, the optional character, the percent sign and
    what follows. *)
Definition percentRegexMatch (s name : string) (len : nat) : Prop :=
  exists (c0 : ascii) (body tail rest : string),
    s = "%" ++ String c0 (body ++ tail) ++ "%" ++ rest
    /\ Regex.isNameStart c0 = true
    /\ JS.isEmpty (JS.dropWhile Regex.isPercentChar body) = true
    /\ (tail = EmptyString
        \/ exists t, tail = String t EmptyString /\ isPercentTail t = true)
    /\ name = String c0 (body ++ tail)
    /\ len = String.length name + 2.

(** No character of [s] starts or ends a variable reference. *)
Definition noMeta (s : string) : bool :=
  negb (JS.includes s "%") && negb (JS.includes s "$")
  && negb (JS.includes s "!").

(** Every character of [res] is a slash, a dot or a character of
    [path]: what [normalizeString] keeps of its input. *)
Definition charsFrom (path res : string) : Prop :=
  forall x, JS.includes res x = true ->
    x = "/"%char \/ x = "."%char \/ JS.includes path x = true.

(** A value the passes after a substitution leave alone. *)
Definition inert (s : string) : bool :=
  negb (JS.includes s "$") && negb (JS.includes s "!").

(** What the selection loop holds after any number of entries: nothing
    when no entry matched, else a matching entry that no matching entry
    seen so far exceeds in length. *)
Definition bestSoFar (P : PathModule) (resolvedCandidate : string)
    (seen : list (string * RootFlags))
    (best : option (string * RootFlags)) : Prop :=
  match best with
  | None =>
      forall r f, In (r, f) seen -> isWithin P resolvedCandidate r = false
  | Some (b, fb) =>
      In (b, fb) seen /\ isWithin P resolvedCandidate b = true
      /\ forall r f, In (r, f) seen -> isWithin P resolvedCandidate r = true ->
                     String.length r <= String.length b
  end.

(** The name under which [getEnvValue] may find the value of [key]:
    the same name, or on Windows the same name up to case. *)
Definition envNameMatches (h : Host) (name key : string) : Prop :=
  if win32 h then JS.toLowerCase name = JS.toLowerCase key else name = key.

(** [s.endsWith(suffix)] *)
Definition endsWith (s suffix : string) : bool :=
  (String.length suffix <=? String.length s)%nat
  && String.eqb (JS.sliceFrom s (String.length s - String.length suffix)) suffix.

(** The separator-bounded strict descendant of the specification: [p]
    is [root] followed by further text, and [root] ends where a segment
    of [p] ends, that is the further text begins with the separator or
    [root] itself ends in the separator, as the root of a file system
    does. *)
Definition strictDescendant (separator root p : string) : Prop :=
  exists rest,
    rest <> EmptyString /\ p = root ++ rest
    /\ (JS.startsWith rest separator = true
        \/ endsWith root separator = true).

(** The four [replace] calls of [expandEnvironmentVariables], in the
    order of the source. *)
Definition percentPass (h : Host) (s : string) : string :=
  Regex.replace Regex.percentVar (substituteVar h) s.
Definition bangPass (h : Host) (s : string) : string :=
  Regex.replace Regex.bangVar (substituteVar h) s.
Definition powershellPass (h : Host) (s : string) : string :=
  Regex.replace Regex.powershellVar (substituteVar h) s.
Definition posixPass (h : Host) (s : string) : string :=
  Regex.replace Regex.posixVar (substitutePosixVar h) s.

(** What stands in place of a reference once it is read: the value of
    the variable, or the reference as written when it has none. *)
Definition valueOr (h : Host) (name reference : string) : string :=
  match getEnvValue h name with Some v => v | None => reference end.

(** A text as the specification reads it: plain text and references in
    the five notations. *)
Inductive Piece : Type :=
  | Plain (text : string)
  | Percent (name : string)
  | Bang (name : string)
  | Powershell (name : string)
  | Bare (name : string)
  | Braced (name : string).

Definition written (p : Piece) : string :=
  match p with
  | Plain text => text
  | Percent name => "%" ++ name ++ "%"
  | Bang name => "!" ++ name ++ "!"
  | Powershell name => "$env:" ++ name
  | Bare name => "$" ++ name
  | Braced name => "${" ++ name ++ "}"
  end.

Definition writtenAll (pieces : list Piece) : string :=
  List.fold_right (fun p rest => written p ++ rest) EmptyString pieces.

(** What the specification expects in place of a piece: a reference
    gives the value of its variable or stays as written.  The two
    Windows notations are read on Windows only; a PowerShell reference
    that is not substituted is the POSIX reference to [env] followed by
    a colon and the name. *)
Definition substituted (h : Host) (p : Piece) : string :=
  match p with
  | Plain text => text
  | Percent name => valueOr h name (written p)
  | Bang name => if win32 h then valueOr h name (written p) else written p
  | Powershell name =>
      match (if win32 h then getEnvValue h name else None) with
      | Some v => v
      | None => valueOr h "env" "$env" ++ ":" ++ name
      end
  | Bare name => valueOr h name (written p)
  | Braced name => valueOr h name (written p)
  end.

Definition substitutedAll (h : Host) (pieces : list Piece) : string :=
  List.fold_right (fun p rest => substituted h p ++ rest) EmptyString pieces.

(** A name written without a closing delimiter ends where the text
    goes on with a character that is not part of a name. *)
Definition nameEndsAt (rest : string) : bool :=
  match rest with
  | EmptyString => true
  | String c _ => negb (Regex.isNameChar c)
  end.

Definition nameEnds (rest : list Piece) : bool :=
  match rest with
  | [] => true
  | Plain (String c _) :: _ => negb (Regex.isNameChar c)
  | _ => false
  end.

(** Text that no pass of the platform reads anything in: no percent
    sign, no dollar sign and, on Windows, no exclamation mark. *)
Definition plainText (h : Host) (t : string) : bool :=
  negb (JS.includes t "%") && negb (JS.includes t "$")
  && (negb (win32 h) || negb (JS.includes t "!")).

(** A value put in by a pass is not read again by the passes after it
    when it holds none of the characters they look for. *)
Definition settledValue (h : Host) (name : string) (triggers : list ascii)
    : bool :=
  match getEnvValue h name with
  | Some v => List.forallb (fun c => negb (JS.includes v c)) triggers
  | None => true
  end.

(** The texts on which reading reference by reference and the passes of
    the source agree: valid names, plain text without the three
    characters the passes look for, a name without closing delimiter followed by the end of
    the text or by plain text that ends it, values that the later passes
    leave alone, and, on Windows, no bare reference to a variable called
    [env], which a colon would turn into the PowerShell notation. *)
Definition pieceOk (h : Host) (p : Piece) (rest : list Piece) : bool :=
  match p with
  | Plain text => plainText h text
  | Percent name =>
      isPercentName name
      && settledValue h name (if win32 h then ["!"; "$"]%char else ["$"]%char)
  | Bang name =>
      isName name && (negb (win32 h) || settledValue h name ["$"]%char)
  | Powershell name =>
      isName name && nameEnds rest
      && (negb (win32 h) || settledValue h name ["$"]%char)
  | Bare name =>
      isName name && nameEnds rest
      && (negb (win32 h) || negb (String.eqb (JS.toLowerCase name) "env"))
  | Braced name => isName name
  end.

Fixpoint wellFormed (h : Host) (pieces : list Piece) : bool :=
  match pieces with
  | [] => true
  | p :: rest => pieceOk h p rest && wellFormed h rest
  end.

(** The text of a piece after the first [stage] passes, counted as on
    Windows: percent, exclamation mark, PowerShell, POSIX. *)
Definition pieceAfter (stage : nat) (h : Host) (p : Piece) : string :=
  match p with
  | Plain text => text
  | Percent name =>
      if (1 <=? stage)%nat then valueOr h name (written p) else written p
  | Bang name =>
      if (2 <=? stage)%nat && win32 h then valueOr h name (written p)
      else written p
  | Powershell name =>
      match (if (3 <=? stage)%nat && win32 h then getEnvValue h name
             else None) with
      | Some v => v
      | None =>
          if (4 <=? stage)%nat then valueOr h "env" "$env" ++ ":" ++ name
          else written p
      end
  | Bare name | Braced name =>
      if (4 <=? stage)%nat then valueOr h name (written p) else written p
  end.

Definition textAfter (stage : nat) (h : Host) (pieces : list Piece) : string :=
  List.fold_right (fun p rest => pieceAfter stage h p ++ rest) EmptyString
    pieces.

(** ** Vocabulary of idempotence *)

(** Every reference that the pattern [re] finds somewhere in [s] names
    a variable without value. *)
Definition unresolvedIn (h : Host) (re : Regex.Pattern) (s : string) : Prop :=
  forall (i : nat) (m : Regex.Match) (name : string),
    re (JS.sliceFrom s i) = Some m ->
    In (Some name) (Regex.groups m) ->
    getEnvValue h name = None.

(** Nothing in [s] is left to expand: whatever the passes of the
    platform can read in it as a reference does not resolve. *)
Definition nothingToExpand (h : Host) (s : string) : Prop :=
  unresolvedIn h Regex.percentVar s
  /\ unresolvedIn h Regex.posixVar s
  /\ (win32 h = true ->
      unresolvedIn h Regex.bangVar s /\ unresolvedIn h Regex.powershellVar s).

(** The value of a variable, when it has one, is plain text. *)
Definition plainValue (h : Host) (name : string) : bool :=
  match getEnvValue h name with
  | Some v => plainText h v
  | None => true
  end.

(** The values that the references of a text are replaced by are plain
    text (for a PowerShell reference also the value of [env], which
    stands in when the reference is read as a POSIX one). *)
Definition valuesPlain (h : Host) (p : Piece) : bool :=
  match p with
  | Plain _ => true
  | Bang name => negb (win32 h) || plainValue h name
  | Powershell name =>
      (negb (win32 h) || plainValue h name) && plainValue h "env"
  | Percent name | Bare name | Braced name => plainValue h name
  end.

(** A piece once expanded: the value as plain text, or the reference
    that stayed as written. *)
Definition settle (h : Host) (p : Piece) : Piece :=
  match p with
  | Plain text => Plain text
  | Percent name | Bare name | Braced name =>
      match getEnvValue h name with Some v => Plain v | None => p end
  | Bang name =>
      match (if win32 h then getEnvValue h name else None) with
      | Some v => Plain v
      | None => p
      end
  | Powershell name =>
      match (if win32 h then getEnvValue h name else None) with
      | Some v => Plain v
      | None =>
          match getEnvValue h "env" with
          | Some e => Plain (e ++ ":" ++ name)
          | None => p
          end
      end
  end.

(** What makes the home expansion stable: neither the home directory
    nor a path joined to it is itself in home notation. *)
Definition homeStable (P : PathModule) (h : Host) : Prop :=
  startsWithHomePath (homedir h) = false
  /\ forall rest, startsWithHomePath (join P [homedir h; rest]) = false.

(* ================================================================== *)
(** * Hosts used in the examples *)
(* ================================================================== *)

Module Examples.

(** A file system given by the table of its existing paths and their
    canonical forms; everything else is missing. *)
Definition tableHost (isWindows : bool) (environment : list (string * string))
    (home workingDirectory : string) (table : list (string * string)) : Host :=
  mkHost isWindows environment home workingDirectory
    (fun p => StrMap.get table p)
    (fun p => match StrMap.get table p with Some _ => true | None => false end).

(** Plain directories, no symbolic link. *)
Definition plainHost : Host :=
  tableHost false [("HOME", "/home/user")] "/home/user" "/work"
    [("/", "/"); ("/vault", "/vault"); ("/work", "/work");
     ("/a", "/a"); ("/a/b", "/a/b"); ("/docs", "/docs"); ("/out", "/out")].

(** [/ctx] is a symbolic link to [/real]. *)
Definition symlinkHost : Host :=
  tableHost false [("HOME", "/home/user")] "/home/user" "/work"
    [("/", "/"); ("/real", "/real"); ("/ctx", "/real")].

(** Nothing exists, not even the root directory. *)
Definition emptyHost : Host :=
  tableHost false [] "/home/user" "/work" [].

(** A variable whose value is itself a reference. *)
Definition chainedHost : Host :=
  tableHost false [("A", "$B"); ("B", "c")] "/home/user" "/work" [("/", "/")].

(** One variable, on either platform. *)
Definition posixEnvHost : Host :=
  tableHost false [("NAME", "value")] "/home/user" "/work" [("/", "/")].

Definition windowsEnvHost : Host :=
  tableHost true [("NAME", "value"); ("ProgramFiles(x86)", "C:\PF")]
    "C:\Users\user" "C:\work" [].

(** The process runs in the root directory. *)
Definition rootCwdHost : Host :=
  tableHost false [("HOME", "/home/user")] "/home/user" "/"
    [("/", "/"); ("/vault", "/vault")].

(** A Windows environment with a variable called [env]. *)
Definition envNamedHost : Host :=
  tableHost true [("env", "E")] "C:\Users\user" "C:\work" [].

End Examples.

(* ================================================================== *)
(** * The rest of src/utils/path.ts and its callers *)
(* ================================================================== *)

(** The part of the vault adapter [getVaultPath] reads: [basePath] when
    the adapter has that property. *)
Record Adapter : Type := mkAdapter { basePath : option string }.

Definition getVaultPath (adapter : Adapter) : option string :=
  basePath adapter.

Section CliDetection.

Variable P : PathModule.
Variable h : Host.

(** [process.env.NAME || fallback]: a missing or empty value gives the
    fallback. *)
Definition envOr (name fallback : string) : string :=
  match envLookup h name with
  | Some v => if JS.isEmpty v then fallback else v
  | None => fallback
  end.

Definition commonPaths : list string :=
  let homeDir := homedir h in
  if win32 h then
    [ join P [homeDir; ".claude"; "local"; "claude.exe"];
      join P [homeDir; "AppData"; "Local"; "Claude"; "claude.exe"];
      join P [homeDir; "AppData"; "Roaming"; "npm"; "claude.cmd"];
      join P [envOr "ProgramFiles" "C:\Program Files"; "Claude"; "claude.exe"];
      join P [envOr "ProgramFiles(x86)" "C:\Program Files (x86)";
              "Claude"; "claude.exe"];
      join P [homeDir; ".local"; "bin"; "claude.exe"] ]
  else
    [ join P [homeDir; ".claude"; "local"; "claude"];
      join P [homeDir; ".local"; "bin"; "claude"];
      "/usr/local/bin/claude";
      "/opt/homebrew/bin/claude";
      join P [homeDir; "bin"; "claude"] ].

(** [for (const p of commonPaths) if (fs.existsSync(p)) return p;] *)
Fixpoint firstExisting (paths : list string) : option string :=
  match paths with
  | [] => None
  | p :: rest => if existsSync h p then Some p else firstExisting rest
  end.

Definition findClaudeCLIPath : option string := firstExisting commonPaths.

End CliDetection.

(** src/images/imageCache.ts, the validation of cache-relative paths. *)
Module ImageCache.

Definition IMAGE_CACHE_DIR : string := ".claudian-cache/images".

(** [relPath.replace(/\\/g, '/')]: every backslash becomes a slash. *)
Definition backslashesToSlashes (s : string) : string :=
  JS.mapChars (fun c => if Ascii.eqb c "\" then "/"%char else c) s.

Section WithHost.

Variable P : PathModule.
Variable h : Host.

Definition normalizeCacheRelPath (relPath : string) : option string :=
  if JS.isEmpty relPath then None
  else
    let normalized := backslashesToSlashes relPath in
    if isAbsolute P normalized then None
    else if negb (JS.startsWith normalized IMAGE_CACHE_DIR) then None
    else Some normalized.

(** [vaultPath] is the result of [getVaultPath(app)]. *)
Definition getCacheAbsolutePath (vaultPath : option string)
    (relPath : string) : option string :=
  match vaultPath with
  | None => None
  | Some vault =>
      if JS.isEmpty vault then None
      else
        match normalizeCacheRelPath relPath with
        | None => None
        | Some normalizedRel =>
            if JS.isEmpty normalizedRel then None
            else
              let absPath := resolve P (cwd h) [vault; normalizedRel] in
              let cacheRoot := resolve P (cwd h) [vault; IMAGE_CACHE_DIR] in
              if negb (JS.startsWith absPath cacheRoot) then None
              else Some absPath
        end
  end.

End WithHost.

End ImageCache.

(** Hosts for the examples of these functions. *)
Module MoreExamples.

(** Only the Homebrew binary is installed. *)
Definition homebrewHost : Host :=
  Examples.tableHost false [("HOME", "/home/user")] "/home/user" "/work"
    [("/", "/"); ("/opt/homebrew/bin/claude", "/opt/homebrew/bin/claude")].

(** A Windows environment whose variable names differ in case from the
    references to them. *)
Definition windowsCaseHost : Host :=
  Examples.tableHost true [("Path", "C:\bin"); ("TEMP", "C:\tmp")]
    "C:\Users\user" "C:\work" [].

End MoreExamples.

(* ================================================================== *)
(** * [path.posix] on examples *)
(* ================================================================== *)

(** The cases of Node's own tests of [path.posix] that the utilities
    can meet. *)
Example posix_normalize_examples :
  List.map Posix.normalize
    ["/a/./b//../c/"; "./fixtures///b/../b/c.js"; "/foo/../../../bar";
     "a//b//../b"; "a//b//./c"; "a//b//."; "/a/b/c/../../../x/y/z";
     "///..//./foo/.//bar"; "bar/foo../../"; "bar/foo../..";
     "../foo../../../bar"; "../.../.././.../../../bar";
     "../../../foo/../../../bar/../../"; ""; "/"; "a/"]
  = ["/a/c/"; "fixtures/b/c.js"; "/bar";
     "a/b"; "a/b/c"; "a/b"; "/x/y/z";
     "/foo/bar"; "bar/"; "bar";
     "../../bar"; "../../bar";
     "../../../../../../"; "."; "/"; "a/"].
Proof. reflexivity. Qed.

Example posix_resolve_examples :
  List.map (Posix.resolve "/work")
    [["/var/lib"; "../"; "file/"]; ["/var/lib"; "/../"; "file/"];
     ["a/b/c/"; "../../.."]; ["."]; ["/some/dir"; "."; "/absolute/"];
     ["/foo/tmp.3/"; "../tmp.3/cycles/root.js"]; ["x/y"; "../z"];
     ["/vault"; ""]; [""]]
  = ["/var/file"; "/file"; "/work"; "/work"; "/absolute";
     "/foo/tmp.3/cycles/root.js"; "/work/x/z"; "/vault"; "/work"].
Proof. reflexivity. Qed.

Example posix_join_examples :
  List.map Posix.join
    [["."; "x/b"; ".."; "/b/c.js"]; ["/."; "x/b"; ".."; "/b/c.js"];
     ["/foo"; "../../../bar"]; ["foo"; "../../../bar"]; [" "; "foo"];
     ["/"; ""; "/foo"]; [""; "/"; "/foo"]; []; [""];
     ["/real"; "a"; "b.txt"]]
  = ["x/b/c.js"; "/x/b/c.js"; "/bar"; "../../bar"; " /foo";
     "/foo"; "/foo"; "."; "."; "/real/a/b.txt"].
Proof. reflexivity. Qed.

Example posix_dirname_examples :
  List.map Posix.dirname
    ["/a/b/c"; "/a/b/"; "/a"; "/"; "////"; "//a"; "a"; "foo/bar"; ""]
  = ["/a/b"; "/a"; "/"; "/"; "/"; "//"; "."; "foo"; "."].
Proof. reflexivity. Qed.

Example posix_basename_examples :
  List.map Posix.basename
    ["/dir/basename.ext"; "/basename.ext"; "basename.ext/";
     "basename.ext//"; "/aaa/"; "///"; "/"; "a"; ""]
  = ["basename.ext"; "basename.ext"; "basename.ext";
     "basename.ext"; "aaa"; ""; ""; "a"; ""].
Proof. reflexivity. Qed.

(* ================================================================== *)
(** * Strings *)
(* ================================================================== *)

Section StringFacts.

Lemma isEmpty_true (s : string) : JS.isEmpty s = true <-> s = EmptyString.
Proof. destruct s; simpl; split; congruence. Qed.

Lemma isEmpty_false (s : string) : JS.isEmpty s = false <-> s <> EmptyString.
Proof. destruct s; simpl; split; congruence. Qed.

Lemma length_append (a b : string) :
  String.length (a ++ b) = String.length a + String.length b.
Proof. induction a as [|c a IH]; simpl; [reflexivity | now rewrite IH]. Qed.

Lemma append_empty_r (a : string) : a ++ EmptyString = a.
Proof. induction a as [|c a IH]; simpl; [reflexivity | now rewrite IH]. Qed.

Lemma append_assoc (a b c : string) : (a ++ b) ++ c = a ++ (b ++ c).
Proof. induction a as [|x a IH]; simpl; [reflexivity | now rewrite IH]. Qed.

Lemma prefix_cons (c d : ascii) (a s : string) :
  String.prefix (String c a) (String d s) = true <->
  c = d /\ String.prefix a s = true.
Proof.
  simpl. destruct (ascii_dec c d) as [->|Hne]; split; intros H.
  - now split.
  - apply H.
  - discriminate.
  - destruct H as [H _]. contradiction.
Qed.

Lemma prefix_refl (s : string) : String.prefix s s = true.
Proof.
  induction s as [|c s IH]; [reflexivity|].
  apply prefix_cons. now split.
Qed.

Lemma prefix_append_l (a b s : string) :
  String.prefix (a ++ b) s = true -> String.prefix a s = true.
Proof.
  revert s. induction a as [|c a IH]; intros s H.
  - destruct s; reflexivity.
  - destruct s as [|d s]; [discriminate|].
    simpl append in H. apply prefix_cons in H. destruct H as [-> H].
    apply prefix_cons. split; [reflexivity | now apply IH].
Qed.

Lemma prefix_append (a b : string) : String.prefix a (a ++ b) = true.
Proof.
  induction a as [|c a IH]; simpl append.
  - destruct b; reflexivity.
  - apply prefix_cons. now split.
Qed.

(** Two prefixes of one string that are equally long are equal. *)
Lemma prefix_same_length (a b s : string) :
  String.prefix a s = true -> String.prefix b s = true ->
  String.length a = String.length b -> a = b.
Proof.
  revert b s. induction a as [|c a IH]; intros b s Ha Hb Hlen.
  - destruct b; [reflexivity | discriminate].
  - destruct b as [|d b]; [discriminate|].
    destruct s as [|e s]; [discriminate|].
    apply prefix_cons in Ha. apply prefix_cons in Hb.
    destruct Ha as [-> Ha]. destruct Hb as [-> Hb].
    f_equal. apply (IH b s); auto.
Qed.

Lemma prefix_length (a s : string) :
  String.prefix a s = true -> String.length a <= String.length s.
Proof.
  revert s. induction a as [|c a IH]; intros s H; simpl; [lia|].
  destruct s as [|d s]; [discriminate|].
  apply prefix_cons in H. destruct H as [_ H]. apply IH in H. simpl. lia.
Qed.

Lemma startsWith_true_prefix (s p : string) :
  JS.startsWith s p = true -> exists rest, s = p ++ rest.
Proof.
  unfold JS.startsWith. revert s. induction p as [|c p IH]; intros s H.
  - now exists s.
  - destruct s as [|d s]; [discriminate|].
    apply prefix_cons in H. destruct H as [-> H].
    destruct (IH s H) as [rest ->]. now exists rest.
Qed.

End StringFacts.

(* ================================================================== *)
(** * The matching rule *)
(* ================================================================== *)

Section Matching.

Variable P : PathModule.

Lemma isWithin_spec (candidate root : string) :
  isWithin P candidate root = true <->
  candidate = root \/ JS.startsWith candidate (root ++ sep P) = true.
Proof.
  unfold isWithin. rewrite orb_true_iff, String.eqb_eq. reflexivity.
Qed.

(** A root the candidate is within is a prefix of the candidate. *)
Lemma isWithin_prefix (candidate root : string) :
  isWithin P candidate root = true -> String.prefix root candidate = true.
Proof.
  rewrite isWithin_spec. intros [->|H].
  - apply prefix_refl.
  - unfold JS.startsWith in H. now apply prefix_append_l in H.
Qed.

(** So two matching roots of the same length are the same root: the
    longest matching root is unique. *)
Lemma isWithin_same_length (candidate r1 r2 : string) :
  isWithin P candidate r1 = true -> isWithin P candidate r2 = true ->
  String.length r1 = String.length r2 -> r1 = r2.
Proof.
  intros H1 H2 Hlen.
  apply (prefix_same_length r1 r2 candidate); auto using isWithin_prefix.
Qed.

Lemma isWithin_refl (a : string) : isWithin P a a = true.
Proof. unfold isWithin. now rewrite String.eqb_refl. Qed.

End Matching.

(* ================================================================== *)
(** * Descendants *)
(* ================================================================== *)

(** The matching rule of the source and the descendants of the
    specification: what matches a root is the root or a descendant of
    it, and under a root that does not end in the separator every
    descendant matches. *)
Section Descendants.

Variable P : PathModule.

Lemma isWithin_descends (candidate root : string) :
  isWithin P candidate root = true ->
  candidate = root \/ strictDescendant (sep P) root candidate.
Proof.
  rewrite isWithin_spec. intros [->|H]; [now left|].
  apply startsWith_true_prefix in H. destruct H as [tail ->].
  rewrite append_assoc.
  destruct (sep P ++ tail) as [|c rest] eqn:Hrest.
  - left. now rewrite append_empty_r.
  - right. exists (String c rest). repeat split; [discriminate|].
    left. rewrite <- Hrest. apply prefix_append.
Qed.

Lemma descendant_isWithin (candidate root : string) :
  endsWith root (sep P) = false ->
  strictDescendant (sep P) root candidate ->
  isWithin P candidate root = true.
Proof.
  intros Hend [rest [_ [-> [Hsep|Hroot]]]]; [|congruence].
  apply isWithin_spec. right.
  apply startsWith_true_prefix in Hsep. destruct Hsep as [tail ->].
  rewrite <- append_assoc. apply prefix_append.
Qed.

Lemma isWithin_descendant (candidate root : string) :
  endsWith root (sep P) = false ->
  isWithin P candidate root = true <->
  candidate = root \/ strictDescendant (sep P) root candidate.
Proof.
  intros Hend. split; [apply isWithin_descends|].
  intros [->|H]; [apply isWithin_refl | now apply descendant_isWithin].
Qed.

End Descendants.

(* ================================================================== *)
(** * The roots map *)
(* ================================================================== *)

Section MapFacts.

Context {V : Type}.
Implicit Types (m : list (string * V)) (k : string) (v : V).

Lemma get_set_same m k v : StrMap.get (StrMap.set m k v) k = Some v.
Proof.
  induction m as [|[k' v'] m IH]; simpl.
  - now rewrite String.eqb_refl.
  - destruct (String.eqb k' k) eqn:E; simpl.
    + now rewrite String.eqb_refl.
    + now rewrite E.
Qed.

Lemma get_set_other m k k' v :
  k' <> k -> StrMap.get (StrMap.set m k v) k' = StrMap.get m k'.
Proof.
  intros Hne. induction m as [|[k0 v0] m IH]; simpl.
  - apply String.eqb_neq in Hne. rewrite String.eqb_sym in Hne.
    now rewrite Hne.
  - destruct (String.eqb k0 k) eqn:E; simpl.
    + apply String.eqb_eq in E. subst k0.
      assert (String.eqb k k' = false) as ->
        by (apply String.eqb_neq; congruence).
      reflexivity.
    + destruct (String.eqb k0 k'); [reflexivity | exact IH].
Qed.

Lemma get_In m k v : StrMap.get m k = Some v -> In (k, v) m.
Proof.
  induction m as [|[k' v'] m IH]; simpl; [discriminate|].
  destruct (String.eqb k' k) eqn:E.
  - apply String.eqb_eq in E. intros [= ->]. left. now subst.
  - intros H. right. now apply IH.
Qed.

Lemma In_get m k v :
  NoDup (List.map fst m) -> In (k, v) m -> StrMap.get m k = Some v.
Proof.
  induction m as [|[k' v'] m IH]; simpl; [contradiction|].
  intros Hnd [Heq|Hin].
  - injection Heq as -> ->. now rewrite String.eqb_refl.
  - inversion Hnd as [|? ? Hnotin Hnd']. subst.
    destruct (String.eqb k' k) eqn:E.
    + apply String.eqb_eq in E. subst k'. exfalso. apply Hnotin.
      change k with (fst (k, v)). now apply in_map.
    + now apply IH.
Qed.

Lemma set_keys m k v k' :
  In k' (List.map fst (StrMap.set m k v)) <->
  k' = k \/ In k' (List.map fst m).
Proof.
  induction m as [|[k0 v0] m IH]; simpl.
  - intuition.
  - destruct (String.eqb k0 k) eqn:E; simpl.
    + apply String.eqb_eq in E. subst. intuition.
    + rewrite IH. intuition.
Qed.

Lemma set_NoDup m k v :
  NoDup (List.map fst m) -> NoDup (List.map fst (StrMap.set m k v)).
Proof.
  induction m as [|[k0 v0] m IH]; simpl; intros Hnd.
  - constructor; [intros [] | constructor].
  - inversion Hnd as [|? ? Hnotin Hnd']. subst.
    destruct (String.eqb k0 k) eqn:E; simpl.
    + apply String.eqb_eq in E. subst. now constructor.
    + constructor; [|now apply IH].
      rewrite set_keys. intros [->|Hin]; [|contradiction].
      now rewrite String.eqb_refl in E.
Qed.

End MapFacts.

Section RootsFacts.

Variable P : PathModule.
Variable h : Host.

Lemma setKind_twice (flags : RootFlags) (kind : RootKind) :
  setKind (setKind flags kind) kind = setKind flags kind.
Proof. destruct kind; reflexivity. Qed.

Lemma addRoot_blank roots e kind :
  isBlank e = true -> addRoot P h roots e kind = roots.
Proof. unfold addRoot, isBlank. now intros ->. Qed.

Lemma addRoot_get roots e kind r :
  isBlank e = false ->
  StrMap.get (addRoot P h roots e kind) r =
  if String.eqb (resolveRoot P h (JS.trim e)) r
  then Some (setKind (flagsOr (StrMap.get roots r)) kind)
  else StrMap.get roots r.
Proof.
  unfold addRoot, isBlank. intros ->.
  destruct (String.eqb (resolveRoot P h (JS.trim e)) r) eqn:E.
  - apply String.eqb_eq in E. subst r. now rewrite get_set_same.
  - apply String.eqb_neq in E. rewrite get_set_other by congruence.
    reflexivity.
Qed.

Lemma addRoot_NoDup roots e kind :
  NoDup (List.map fst roots) ->
  NoDup (List.map fst (addRoot P h roots e kind)).
Proof.
  intros Hnd. unfold addRoot.
  destruct (JS.isEmpty (JS.trim e)); [exact Hnd | now apply set_NoDup].
Qed.

Lemma addAll_NoDup kind entries roots :
  NoDup (List.map fst roots) ->
  NoDup (List.map fst (addAll P h kind entries roots)).
Proof.
  revert roots. induction entries as [|e entries IH]; intros roots Hnd.
  - exact Hnd.
  - apply IH. now apply addRoot_NoDup.
Qed.

Lemma addAll_get kind entries roots r :
  StrMap.get (addAll P h kind entries roots) r =
  if mentions P h entries r
  then Some (setKind (flagsOr (StrMap.get roots r)) kind)
  else StrMap.get roots r.
Proof.
  revert roots. induction entries as [|e entries IH]; intros roots.
  - reflexivity.
  - change (addAll P h kind (e :: entries) roots)
      with (addAll P h kind entries (addRoot P h roots e kind)).
    rewrite IH. simpl mentions.
    destruct (isBlank e) eqn:Hb.
    + rewrite addRoot_blank by assumption. reflexivity.
    + rewrite addRoot_get by assumption. simpl.
      destruct (String.eqb (resolveRoot P h (JS.trim e)) r); simpl.
      * rewrite setKind_twice. now destruct (mentions P h entries r).
      * reflexivity.
Qed.

Lemma buildRoots_unfold ctx exp :
  buildRoots P h ctx exp =
  addAll P h KindExport (orEmpty exp) (addAll P h KindContext (orEmpty ctx) []).
Proof. reflexivity. Qed.

(** The merged map has one entry per canonical root, ... *)
Lemma buildRoots_NoDup ctx exp :
  NoDup (List.map fst (buildRoots P h ctx exp)).
Proof.
  rewrite buildRoots_unfold. do 2 apply addAll_NoDup. constructor.
Qed.

(** ... and the entry of a root says which of the two lists mention it. *)
Lemma buildRoots_get ctx exp r :
  StrMap.get (buildRoots P h ctx exp) r =
  if mentions P h (orEmpty ctx) r || mentions P h (orEmpty exp) r
  then Some (mkRootFlags (mentions P h (orEmpty ctx) r)
                         (mentions P h (orEmpty exp) r))
  else None.
Proof.
  rewrite buildRoots_unfold, !addAll_get. simpl StrMap.get.
  destruct (mentions P h (orEmpty ctx) r), (mentions P h (orEmpty exp) r);
    reflexivity.
Qed.

Lemma mentions_intro entries e :
  In e entries -> isBlank e = false ->
  mentions P h entries (resolveRoot P h (JS.trim e)) = true.
Proof.
  intros Hin Hb. unfold mentions. apply existsb_exists.
  exists e. split; [exact Hin|]. now rewrite Hb, String.eqb_refl.
Qed.

Lemma mentions_elim entries r :
  mentions P h entries r = true ->
  exists e, In e entries /\ isBlank e = false
            /\ resolveRoot P h (JS.trim e) = r.
Proof.
  unfold mentions. rewrite existsb_exists. intros [e [Hin He]].
  apply andb_true_iff in He. destruct He as [Hb Heq].
  exists e. repeat split; auto.
  - now apply negb_true_iff.
  - now apply String.eqb_eq.
Qed.

(** ** Selection of the best root *)

Variable resolvedCandidate : string.
Variable root : string.
Variable flags : RootFlags.
Hypothesis root_matches : isWithin P resolvedCandidate root = true.
Hypothesis root_not_empty : root <> EmptyString.

Lemma selectStep_keeps_root entry :
  (isWithin P resolvedCandidate (fst entry) = true ->
   String.length (fst entry) <= String.length root) ->
  selectStep P resolvedCandidate (Some (root, flags)) entry
  = Some (root, flags).
Proof.
  destruct entry as [r f]. simpl. intros Hle.
  destruct (isWithin P resolvedCandidate r) eqn:Hw; [|reflexivity].
  specialize (Hle eq_refl).
  assert (JS.isEmpty root = false) as -> by now apply isEmpty_false.
  simpl. destruct (Nat.ltb_spec (String.length root) (String.length r));
    [lia | reflexivity].
Qed.

Lemma fold_keeps_root roots :
  (forall r f, In (r, f) roots -> isWithin P resolvedCandidate r = true ->
               String.length r <= String.length root) ->
  List.fold_left (selectStep P resolvedCandidate) roots (Some (root, flags))
  = Some (root, flags).
Proof.
  induction roots as [|[r f] roots IH]; intros Hle; [reflexivity|].
  cbn [fold_left]. rewrite selectStep_keeps_root.
  - apply IH. intros r' f' Hin. apply (Hle r' f'). now right.
  - simpl. apply (Hle r f). now left.
Qed.

Lemma selectStep_takes_root best :
  beforeRoot P resolvedCandidate root best ->
  selectStep P resolvedCandidate best (root, flags) = Some (root, flags).
Proof.
  intros Hb. unfold selectStep. rewrite root_matches.
  destruct best as [[b fb]|]; [|reflexivity].
  destruct Hb as [Hw [Hne Hle]]. simpl noBest.
  destruct (JS.isEmpty b); [reflexivity|]. simpl.
  destruct (Nat.ltb_spec (String.length b) (String.length root)) as [|Hge];
    [reflexivity|].
  exfalso. apply Hne.
  apply (isWithin_same_length P resolvedCandidate); auto. lia.
Qed.

Lemma selectStep_beforeRoot best r f :
  beforeRoot P resolvedCandidate root best -> r <> root ->
  (isWithin P resolvedCandidate r = true ->
   String.length r <= String.length root) ->
  beforeRoot P resolvedCandidate root (selectStep P resolvedCandidate best (r, f)).
Proof.
  intros Hb Hne Hle. unfold selectStep.
  destruct (isWithin P resolvedCandidate r) eqn:Hw; [|exact Hb].
  match goal with |- beforeRoot _ _ _ (if ?c then _ else _) => destruct c end;
    [|exact Hb].
  simpl. auto.
Qed.

Lemma fold_finds_root roots best :
  NoDup (List.map fst roots) ->
  In (root, flags) roots ->
  (forall r f, In (r, f) roots -> isWithin P resolvedCandidate r = true ->
               String.length r <= String.length root) ->
  beforeRoot P resolvedCandidate root best ->
  List.fold_left (selectStep P resolvedCandidate) roots best
  = Some (root, flags).
Proof.
  revert best. induction roots as [|[r f] roots IH]; intros best Hnd Hin Hle Hb.
  - contradiction.
  - inversion Hnd as [|? ? Hnotin Hnd']. subst. cbn [fold_left].
    destruct (string_dec r root) as [->|Hne].
    + assert (f = flags) as ->.
      { destruct Hin as [Heq|Hin]; [congruence|].
        exfalso. apply Hnotin. change root with (fst (root, flags)).
        now apply in_map. }
      rewrite selectStep_takes_root by assumption.
      apply fold_keeps_root. intros r' f' Hin'. apply (Hle r' f'). now right.
    + apply IH; auto.
      * destruct Hin as [Heq|Hin]; [congruence | exact Hin].
      * intros r' f' Hin'. apply (Hle r' f'). now right.
      * apply selectStep_beforeRoot; auto. apply (Hle r f). now left.
Qed.

(** The loop ends on the longest matching root. *)
Lemma selectBest_longest roots :
  NoDup (List.map fst roots) ->
  In (root, flags) roots ->
  (forall r f, In (r, f) roots -> isWithin P resolvedCandidate r = true ->
               String.length r <= String.length root) ->
  selectBest P resolvedCandidate roots = Some (root, flags).
Proof.
  intros. unfold selectBest. apply fold_finds_root; simpl; auto.
Qed.

End RootsFacts.

(* ================================================================== *)
(** * The access classifier *)
(* ================================================================== *)

Lemma accessOfFlags_not_vault (flags : RootFlags) :
  accessOfFlags flags <> Access.vault.
Proof. destruct flags as [[] []]; discriminate. Qed.

Lemma getPathAccessType_empty (P : PathModule) (h : Host)
    (ctx exp : option (list string)) (vaultPath : string) :
  getPathAccessType P h EmptyString ctx exp vaultPath = Access.none.
Proof. reflexivity. Qed.

(** Outside the vault the class is read off the selected root. *)
Lemma getPathAccessType_outside_vault (P : PathModule) (h : Host)
    (candidatePath : string) (ctx exp : option (list string))
    (vaultPath : string) :
  candidatePath <> EmptyString ->
  isWithin P (resolveCandidate P h candidatePath vaultPath)
    (normalizePathForComparison P h (resolveRealPath P h vaultPath)) = false ->
  getPathAccessType P h candidatePath ctx exp vaultPath =
  match selectBest P (resolveCandidate P h candidatePath vaultPath)
          (buildRoots P h ctx exp) with
  | Some (bestRoot, bestFlags) =>
      if JS.isEmpty bestRoot then Access.none else accessOfFlags bestFlags
  | None => Access.none
  end.
Proof.
  intros Hne Hout. unfold getPathAccessType.
  apply isEmpty_false in Hne. rewrite Hne, Hout.
  destruct (selectBest _ _ _) as [[b f]|]; simpl; [|reflexivity].
  now destruct (JS.isEmpty b).
Qed.

Lemma getPathAccessType_longest (P : PathModule) (h : Host)
    (candidatePath : string) (ctx exp : option (list string))
    (vaultPath root : string) (flags : RootFlags) :
  candidatePath <> EmptyString ->
  isWithin P (resolveCandidate P h candidatePath vaultPath)
    (normalizePathForComparison P h (resolveRealPath P h vaultPath)) = false ->
  In (root, flags) (buildRoots P h ctx exp) ->
  root <> EmptyString ->
  isWithin P (resolveCandidate P h candidatePath vaultPath) root = true ->
  (forall root' flags',
     In (root', flags') (buildRoots P h ctx exp) ->
     isWithin P (resolveCandidate P h candidatePath vaultPath) root' = true ->
     String.length root' <= String.length root) ->
  getPathAccessType P h candidatePath ctx exp vaultPath = accessOfFlags flags.
Proof.
  intros Hne Hout Hin Hroot Hw Hlongest.
  rewrite getPathAccessType_outside_vault by assumption.
  rewrite (selectBest_longest P _ root flags Hw Hroot)
    by auto using buildRoots_NoDup.
  apply isEmpty_false in Hroot. now rewrite Hroot.
Qed.

(** The scenario of the specification: vault [/vault], context root
    [/docs], export root [/out]. *)
Example classify_scenario :
  List.map
    (fun candidate =>
       getPathAccessType Posix.module Examples.plainHost candidate
         (Some ["/docs"]) (Some ["/out"]) "/vault")
    ["notes/a.md"; "/docs/readme.md"; "/out/report.pdf"; "/etc/passwd"]
  = [Access.vault; Access.context; Access.export; Access.none].
Proof. reflexivity. Qed.

(** C1, as amended.  [getPathAccessType] answers [vault] only if the
    resolved candidate is the resolved vault root or a separator-bounded
    strict descendant of it.  For a non-empty candidate it does answer
    [vault] when the two are equal, and, under a vault root that does
    not itself end in the separator, exactly when the candidate is the
    root or such a descendant.  The condition does not mention the
    context and export lists, so they have no part in the answer.  The
    empty candidate is classified [none] before anything is resolved.
    On a POSIX host with vault [/vault], the candidate [/vault2/file] is
    not in the vault. *)
Theorem vault_iff_within_vault_root :
  (forall (P : PathModule) (h : Host) (candidatePath : string)
          (ctx exp : option (list string)) (vaultPath : string),
      candidatePath <> EmptyString ->
      let vaultReal :=
        normalizePathForComparison P h (resolveRealPath P h vaultPath) in
      let resolvedCandidate := resolveCandidate P h candidatePath vaultPath in
      (getPathAccessType P h candidatePath ctx exp vaultPath = Access.vault ->
       resolvedCandidate = vaultReal
       \/ strictDescendant (sep P) vaultReal resolvedCandidate)
      /\ (resolvedCandidate = vaultReal ->
          getPathAccessType P h candidatePath ctx exp vaultPath = Access.vault)
      /\ (endsWith vaultReal (sep P) = false ->
          (getPathAccessType P h candidatePath ctx exp vaultPath = Access.vault
           <-> (resolvedCandidate = vaultReal
                \/ strictDescendant (sep P) vaultReal resolvedCandidate))))
  /\ (forall (P : PathModule) (h : Host) (ctx exp : option (list string))
             (vaultPath : string),
        getPathAccessType P h EmptyString ctx exp vaultPath = Access.none)
  /\ getPathAccessType Posix.module Examples.plainHost "/vault2/file"
       (Some []) (Some []) "/vault" <> Access.vault.
Proof.
  split; [|split].
  - intros P h candidatePath ctx exp vaultPath Hne vaultReal resolvedCandidate.
    assert (getPathAccessType P h candidatePath ctx exp vaultPath = Access.vault
            <-> isWithin P resolvedCandidate vaultReal = true) as Hclass.
    { destruct (isWithin P resolvedCandidate vaultReal) eqn:Hw.
      - split; [reflexivity|]. intros _. unfold getPathAccessType.
        apply isEmpty_false in Hne. rewrite Hne.
        fold vaultReal resolvedCandidate. now rewrite Hw.
      - split; [|discriminate]. intros Hv. exfalso.
        rewrite getPathAccessType_outside_vault in Hv by assumption.
        destruct (selectBest _ _ _) as [[b f]|]; [|discriminate].
        destruct (JS.isEmpty b); [discriminate|].
        now apply accessOfFlags_not_vault in Hv. }
    split; [|split].
    + intros Hv. now apply isWithin_descends, Hclass.
    + intros Heq. apply Hclass. rewrite Heq. apply isWithin_refl.
    + intros Hend. rewrite Hclass. now apply isWithin_descendant.
  - intros. reflexivity.
  - vm_compute. discriminate.
Qed.

Lemma vault_iff_within_vault_root_witness :
  "notes/a.md" <> EmptyString
  /\ endsWith
       (normalizePathForComparison Posix.module Examples.plainHost
          (resolveRealPath Posix.module Examples.plainHost "/vault"))
       (sep Posix.module) = false
  /\ (getPathAccessType Posix.module Examples.plainHost "notes/a.md"
        (Some ["/docs"]) (Some ["/out"]) "/vault" = Access.vault
      <-> (resolveCandidate Posix.module Examples.plainHost
             "notes/a.md" "/vault"
           = normalizePathForComparison Posix.module Examples.plainHost
               (resolveRealPath Posix.module Examples.plainHost "/vault")
           \/ strictDescendant (sep Posix.module)
                (normalizePathForComparison Posix.module Examples.plainHost
                   (resolveRealPath Posix.module Examples.plainHost "/vault"))
                (resolveCandidate Posix.module Examples.plainHost
                   "notes/a.md" "/vault"))).
Proof.
  split; [discriminate|]. split; [reflexivity|].
  apply (proj1 vault_iff_within_vault_root Posix.module Examples.plainHost
           "notes/a.md" (Some ["/docs"]) (Some ["/out"]) "/vault").
  - discriminate.
  - reflexivity.
Defined.

(** C1 as stated fails on the empty candidate: resolved against the
    vault root it is the vault root itself, yet the class is not
    [vault]. *)
Lemma vault_iff_fails_on_empty_candidate :
  ~ (getPathAccessType Posix.module Examples.plainHost EmptyString
       (Some []) (Some []) "/vault" = Access.vault
     <-> (resolveCandidate Posix.module Examples.plainHost EmptyString "/vault"
          = normalizePathForComparison Posix.module Examples.plainHost
              (resolveRealPath Posix.module Examples.plainHost "/vault")
          \/ strictDescendant (sep Posix.module)
               (normalizePathForComparison Posix.module Examples.plainHost
                  (resolveRealPath Posix.module Examples.plainHost "/vault"))
               (resolveCandidate Posix.module Examples.plainHost
                  EmptyString "/vault"))).
Proof.
  intros [_ H].
  assert (getPathAccessType Posix.module Examples.plainHost EmptyString
            (Some []) (Some []) "/vault" = Access.vault) as Hv.
  { apply H. left. vm_compute. reflexivity. }
  vm_compute in Hv. discriminate.
Qed.

(** Under a vault root that ends in the separator the comparison of the
    source looks for a doubled separator: with the root directory as
    vault, a file below it is a descendant and yet not in the vault. *)
Example vault_root_ending_in_separator :
  normalizePathForComparison Posix.module Examples.plainHost
    (resolveRealPath Posix.module Examples.plainHost "/") = "/"
  /\ resolveCandidate Posix.module Examples.plainHost "/etc/passwd" "/"
     = "/etc/passwd"
  /\ strictDescendant "/" "/" "/etc/passwd"
  /\ getPathAccessType Posix.module Examples.plainHost "/etc/passwd"
       (Some []) (Some []) "/" = Access.none.
Proof.
  repeat split.
  exists "etc/passwd". repeat split; [discriminate|]. now right.
Qed.

(** The flags of a merged root say which lists configure it. *)
Lemma buildRoots_flags (P : PathModule) (h : Host)
    (ctx exp : option (list string)) (root : string) (flags : RootFlags) :
  In (root, flags) (buildRoots P h ctx exp) ->
  flags = mkRootFlags (mentions P h (orEmpty ctx) root)
                      (mentions P h (orEmpty exp) root)
  /\ (mentions P h (orEmpty ctx) root = true
      \/ mentions P h (orEmpty exp) root = true).
Proof.
  intros Hin.
  apply (In_get _ _ _ (buildRoots_NoDup P h ctx exp)) in Hin.
  rewrite buildRoots_get in Hin.
  destruct (mentions P h (orEmpty ctx) root),
           (mentions P h (orEmpty exp) root);
    simpl in Hin; try discriminate; injection Hin as <-; auto.
Qed.

(** C2.  Among the merged roots that match the resolved candidate, the
    selection loop ends on the one whose path is longest: a matching
    root that is at least as long as every other matching root is the
    selected one (two matching roots of one length are the same root).
    Its flags say which of the two lists configure it, and when the
    loop is reached, that is for a non-empty candidate outside the
    vault, the class returned is the class of that root: [readwrite]
    for a root of both lists, [context] for a root of the context list
    only, [export] for a root of the export list only.  (Canonical
    paths are not empty; the unset [bestRoot] and the empty string are
    the same to the loop.)  With context root [/a] and export root
    [/a/b], [/a/b/c] is classified [export]. *)
Theorem most_specific_root_wins :
  (forall (P : PathModule) (h : Host) (candidatePath : string)
          (ctx exp : option (list string)) (vaultPath root : string)
          (flags : RootFlags),
      let vaultReal :=
        normalizePathForComparison P h (resolveRealPath P h vaultPath) in
      let resolvedCandidate := resolveCandidate P h candidatePath vaultPath in
      let roots := buildRoots P h ctx exp in
      let inContext := mentions P h (orEmpty ctx) root in
      let inExport := mentions P h (orEmpty exp) root in
      In (root, flags) roots ->
      root <> EmptyString ->
      isWithin P resolvedCandidate root = true ->
      (forall root' flags',
         In (root', flags') roots ->
         isWithin P resolvedCandidate root' = true ->
         String.length root' <= String.length root) ->
      selectBest P resolvedCandidate roots = Some (root, flags)
      /\ flags = mkRootFlags inContext inExport
      /\ (inContext = true \/ inExport = true)
      /\ (candidatePath <> EmptyString ->
          isWithin P resolvedCandidate vaultReal = false ->
          (inContext = true -> inExport = true ->
           getPathAccessType P h candidatePath ctx exp vaultPath
           = Access.readwrite)
          /\ (inContext = true -> inExport = false ->
              getPathAccessType P h candidatePath ctx exp vaultPath
              = Access.context)
          /\ (inContext = false -> inExport = true ->
              getPathAccessType P h candidatePath ctx exp vaultPath
              = Access.export)))
  /\ getPathAccessType Posix.module Examples.plainHost "/a/b/c"
       (Some ["/a"]) (Some ["/a/b"]) "/vault" = Access.export.
Proof.
  split.
  - intros P h candidatePath ctx exp vaultPath root flags vaultReal
           resolvedCandidate roots inContext inExport Hin Hroot Hw Hlongest.
    destruct (buildRoots_flags P h ctx exp root flags Hin) as [Hflags Hsome].
    split; [|split; [exact Hflags | split; [exact Hsome|]]].
    + exact (selectBest_longest P resolvedCandidate root flags Hw Hroot roots
               (buildRoots_NoDup P h ctx exp) Hin Hlongest).
    + intros Hne Hout.
      rewrite (getPathAccessType_longest P h candidatePath ctx exp
                 vaultPath root flags) by assumption.
      rewrite Hflags. fold inContext inExport.
      repeat split; intros -> ->; reflexivity.
  - reflexivity.
Qed.

Lemma most_specific_root_wins_witness :
  selectBest Posix.module
    (resolveCandidate Posix.module Examples.plainHost "/a/b/c" "/vault")
    (buildRoots Posix.module Examples.plainHost (Some ["/a"]) (Some ["/a/b"]))
  = Some ("/a/b", mkRootFlags false true)
  /\ mentions Posix.module Examples.plainHost ["/a"] "/a/b" = false
  /\ mentions Posix.module Examples.plainHost ["/a/b"] "/a/b" = true
  /\ getPathAccessType Posix.module Examples.plainHost "/a/b/c"
       (Some ["/a"]) (Some ["/a/b"]) "/vault" = Access.export.
Proof.
  destruct (proj1 most_specific_root_wins Posix.module Examples.plainHost
              "/a/b/c" (Some ["/a"]) (Some ["/a/b"]) "/vault" "/a/b"
              (mkRootFlags false true)) as [Hsel [_ [_ Hclass]]].
  - vm_compute. right. left. reflexivity.
  - discriminate.
  - reflexivity.
  - vm_compute. intros root' flags' [H|[H|[]]] _; inversion H; lia.
  - split; [exact Hsel|]. split; [reflexivity|]. split; [reflexivity|].
    destruct Hclass as [_ [_ Hexport]]; [discriminate | reflexivity |].
    apply Hexport; reflexivity.
Defined.




(* ================================================================== *)
(** * Trimming of list entries *)
(* ================================================================== *)

Section TrimFacts.

Variable f : ascii -> bool.

Lemma dropWhile_idempotent (s : string) :
  JS.dropWhile f (JS.dropWhile f s) = JS.dropWhile f s.
Proof.
  induction s as [|c s IH]; [reflexivity|]. simpl.
  destruct (f c) eqn:E; [exact IH|]. simpl. now rewrite E.
Qed.

Lemma dropWhile_snoc (s : string) (c : ascii) :
  f c = false ->
  JS.dropWhile f (s ++ String c EmptyString)
  = JS.dropWhile f s ++ String c EmptyString.
Proof.
  intros Hc. induction s as [|d s IH]; simpl.
  - now rewrite Hc.
  - destruct (f d); [exact IH | reflexivity].
Qed.

Lemma rev_snoc (s : string) (c : ascii) :
  JS.rev (s ++ String c EmptyString) = String c (JS.rev s).
Proof.
  induction s as [|d s IH]; [reflexivity|].
  simpl. now rewrite IH.
Qed.

Lemma rev_involutive (s : string) : JS.rev (JS.rev s) = s.
Proof.
  induction s as [|c s IH]; [reflexivity|].
  simpl. now rewrite rev_snoc, IH.
Qed.

(** A string that [dropWhile] leaves alone is empty or starts with a
    character outside the class. *)
Lemma dropWhile_fixed (s : string) :
  JS.dropWhile f s = s ->
  s = EmptyString \/ exists c s', s = String c s' /\ f c = false.
Proof.
  destruct s as [|c s]; [now left|]. simpl. intros H. right.
  exists c, s. split; [reflexivity|].
  destruct (f c); [|reflexivity].
  exfalso.
  assert (String.length (JS.dropWhile f s) <= String.length s) as Hlen.
  { clear H. induction s as [|d s IH]; simpl; [lia|].
    destruct (f d); simpl; lia. }
  rewrite H in Hlen. simpl in Hlen. lia.
Qed.

End TrimFacts.

Lemma trimEnd_cons (c : ascii) (s : string) :
  JS.isWhiteSpace c = false ->
  JS.trimEnd (String c s) = String c (JS.trimEnd s).
Proof.
  intros Hc. unfold JS.trimEnd. simpl JS.rev.
  now rewrite dropWhile_snoc, rev_snoc.
Qed.

Lemma trimEnd_idempotent (s : string) :
  JS.trimEnd (JS.trimEnd s) = JS.trimEnd s.
Proof.
  unfold JS.trimEnd. now rewrite rev_involutive, dropWhile_idempotent.
Qed.

(** [trim] is idempotent: an entry already trimmed is read as it is. *)
Lemma trim_idempotent (s : string) : JS.trim (JS.trim s) = JS.trim s.
Proof.
  unfold JS.trim, JS.trimStart.
  set (u := JS.dropWhile JS.isWhiteSpace s).
  assert (JS.dropWhile JS.isWhiteSpace (JS.trimEnd u) = JS.trimEnd u) as ->.
  { destruct (dropWhile_fixed JS.isWhiteSpace u) as [->|[c [u' [-> Hc]]]].
    - apply dropWhile_idempotent.
    - reflexivity.
    - rewrite trimEnd_cons by assumption. simpl. now rewrite Hc. }
  apply trimEnd_idempotent.
Qed.

Lemma isBlank_trim (e : string) : isBlank (JS.trim e) = isBlank e.
Proof. unfold isBlank. now rewrite trim_idempotent. Qed.

Section SkippedEntries.

Variable P : PathModule.
Variable h : Host.

Lemma addRoot_trim roots e kind :
  addRoot P h roots (JS.trim e) kind = addRoot P h roots e kind.
Proof. unfold addRoot. now rewrite trim_idempotent. Qed.

Lemma addAll_cleanEntries kind entries roots :
  addAll P h kind (cleanEntries entries) roots = addAll P h kind entries roots.
Proof.
  revert roots. induction entries as [|e entries IH]; intros roots.
  - reflexivity.
  - unfold cleanEntries. simpl List.filter.
    destruct (isBlank e) eqn:Hb; simpl negb; cbv iota.
    + change (addAll P h kind (e :: entries) roots)
        with (addAll P h kind entries (addRoot P h roots e kind)).
      rewrite addRoot_blank by assumption. apply IH.
    + simpl List.map.
      change (addAll P h kind (e :: entries) roots)
        with (addAll P h kind entries (addRoot P h roots e kind)).
      rewrite <- IH, <- addRoot_trim. reflexivity.
Qed.

Lemma buildRoots_cleanEntries ctx exp :
  buildRoots P h (Some (cleanEntries (orEmpty ctx)))
    (Some (cleanEntries (orEmpty exp)))
  = buildRoots P h ctx exp.
Proof.
  rewrite !buildRoots_unfold. simpl orEmpty.
  now rewrite !addAll_cleanEntries.
Qed.

(** Every key of the merged map comes from an entry that is not blank. *)
Lemma buildRoots_origin ctx exp root flags :
  In (root, flags) (buildRoots P h ctx exp) ->
  exists e, In e (orEmpty ctx ++ orEmpty exp) /\ isBlank e = false
            /\ root = resolveRoot P h (JS.trim e).
Proof.
  intros Hin. apply In_get in Hin; [|apply buildRoots_NoDup].
  rewrite buildRoots_get in Hin.
  destruct (mentions P h (orEmpty ctx) root) eqn:Hc.
  - apply mentions_elim in Hc. destruct Hc as [e [Hin' [Hb Heq]]].
    exists e. rewrite in_app_iff. auto.
  - destruct (mentions P h (orEmpty exp) root) eqn:He; [|discriminate].
    apply mentions_elim in He. destruct He as [e [Hin' [Hb Heq]]].
    exists e. rewrite in_app_iff. auto.
Qed.

End SkippedEntries.

(** C9.  [getPathAccessType] reads every context and export entry
    through [trim] and drops the entries that are empty afterwards: the
    merged map and the class are the ones of the trimmed lists without
    their blank entries, and every root of the merged map comes from an
    entry that is not blank. *)
Theorem blank_entries_are_skipped :
  forall (P : PathModule) (h : Host) (candidatePath : string)
         (ctx exp : option (list string)) (vaultPath : string),
    buildRoots P h ctx exp
    = buildRoots P h (Some (cleanEntries (orEmpty ctx)))
        (Some (cleanEntries (orEmpty exp)))
    /\ getPathAccessType P h candidatePath ctx exp vaultPath
       = getPathAccessType P h candidatePath
           (Some (cleanEntries (orEmpty ctx)))
           (Some (cleanEntries (orEmpty exp))) vaultPath
    /\ (forall root flags,
          In (root, flags) (buildRoots P h ctx exp) ->
          exists e, In e (orEmpty ctx ++ orEmpty exp) /\ isBlank e = false
                    /\ root = resolveRoot P h (JS.trim e)).
Proof.
  intros P h candidatePath ctx exp vaultPath. split; [|split].
  - symmetry. apply buildRoots_cleanEntries.
  - unfold getPathAccessType. now rewrite buildRoots_cleanEntries.
  - apply buildRoots_origin.
Qed.

(* ================================================================== *)
(** * The narrow predicates *)
(* ================================================================== *)

Section NarrowPredicates.

Variable P : PathModule.
Variable h : Host.

Lemma normalizePathBeforeResolution_empty :
  normalizePathBeforeResolution P h EmptyString = EmptyString.
Proof.
  unfold normalizePathBeforeResolution, translateMsysPath.
  now destruct (win32 h).
Qed.

(** The loop of the predicates is a plain search: entries are neither
    trimmed nor skipped. *)
Lemma anyAllowedPath_existsb resolvedCandidate allowed :
  anyAllowedPath P h resolvedCandidate allowed
  = List.existsb (fun e => isWithin P resolvedCandidate (resolveRoot P h e))
      allowed.
Proof.
  induction allowed as [|e allowed IH]; [reflexivity|].
  simpl. fold (resolveRoot P h e). rewrite IH.
  now destruct (isWithin P resolvedCandidate (resolveRoot P h e)).
Qed.

Lemma predicates_existsb candidatePath allowed vaultPath :
  isPathInAllowedExportPaths P h candidatePath allowed vaultPath
  = List.existsb
      (fun e => isWithin P (resolveCandidate P h candidatePath vaultPath)
                  (resolveRoot P h e)) allowed
  /\ isPathInAllowedContextPaths P h candidatePath allowed vaultPath
     = List.existsb
         (fun e => isWithin P (resolveCandidate P h candidatePath vaultPath)
                     (resolveRoot P h e)) allowed.
Proof.
  unfold isPathInAllowedExportPaths, isPathInAllowedContextPaths.
  destruct allowed as [|e allowed]; [now split|].
  simpl Nat.eqb. cbv iota. now rewrite anyAllowedPath_existsb.
Qed.

(** What the classifier's rule says of a single list. *)
Lemma anyRootMatches_spec resolvedCandidate ctx exp :
  anyRootMatches P resolvedCandidate (buildRoots P h ctx exp) = true <->
  exists e, In e (orEmpty ctx ++ orEmpty exp) /\ isBlank e = false
            /\ isWithin P resolvedCandidate (resolveRoot P h (JS.trim e))
               = true.
Proof.
  unfold anyRootMatches. rewrite existsb_exists. split.
  - intros [[root flags] [Hin Hw]]. simpl in Hw.
    apply buildRoots_origin in Hin. destruct Hin as [e [Hin [Hb ->]]].
    now exists e.
  - intros [e [Hin [Hb Hw]]].
    assert (mentions P h (orEmpty ctx) (resolveRoot P h (JS.trim e))
            || mentions P h (orEmpty exp) (resolveRoot P h (JS.trim e))
            = true) as Hm.
    { apply in_app_iff in Hin. apply orb_true_iff.
      destruct Hin; [left | right]; now apply mentions_intro. }
    pose proof (buildRoots_get P h ctx exp (resolveRoot P h (JS.trim e)))
      as Hget.
    rewrite Hm in Hget. apply get_In in Hget.
    eexists. split; [exact Hget | exact Hw].
Qed.

(** On lists whose entries are trimmed and not empty the predicates and
    the classifier's matching rule agree. *)
Lemma narrow_predicates_agree_on_clean_lists candidatePath allowed vaultPath :
  (forall e, In e allowed -> JS.trim e = e /\ e <> EmptyString) ->
  isPathInAllowedContextPaths P h candidatePath allowed vaultPath
  = anyRootMatches P (resolveCandidate P h candidatePath vaultPath)
      (buildRoots P h (Some allowed) None)
  /\ isPathInAllowedExportPaths P h candidatePath allowed vaultPath
     = anyRootMatches P (resolveCandidate P h candidatePath vaultPath)
         (buildRoots P h None (Some allowed)).
Proof.
  intros Hclean.
  destruct (predicates_existsb candidatePath allowed vaultPath) as [-> ->].
  assert (forall ctx exp, (orEmpty ctx ++ orEmpty exp)%list = allowed ->
            List.existsb
              (fun e => isWithin P (resolveCandidate P h candidatePath vaultPath)
                          (resolveRoot P h e)) allowed
            = anyRootMatches P (resolveCandidate P h candidatePath vaultPath)
                (buildRoots P h ctx exp)) as Hboth.
  { intros ctx exp Hall. apply eq_true_iff_eq.
    rewrite anyRootMatches_spec, existsb_exists, Hall. split.
    - intros [e [Hin Hw]]. destruct (Hclean e Hin) as [Ht Hne].
      exists e. unfold isBlank. rewrite Ht. split; [exact Hin|].
      split; [now apply isEmpty_false | exact Hw].
    - intros [e [Hin [_ Hw]]]. destruct (Hclean e Hin) as [Ht _].
      rewrite Ht in Hw. now exists e. }
  split; apply Hboth; simpl; auto using app_nil_r.
Qed.

(** An empty entry is resolved to the canonical working directory. *)
Lemma resolveRealPath_empty (canonicalCwd : string) :
  (realpathFn h EmptyString = None
   \/ realpathFn h EmptyString = Some canonicalCwd) ->
  existsSync h (resolve P (cwd h) [EmptyString]) = true ->
  realpathFn h (resolve P (cwd h) [EmptyString]) = Some canonicalCwd ->
  resolveRealPath P h EmptyString = canonicalCwd.
Proof.
  intros [Hnone|Hsome] Hex Hreal; unfold resolveRealPath.
  - rewrite Hnone. unfold walkFuel. rewrite Nat.add_comm. simpl.
    now rewrite Hex, Hreal.
  - now rewrite Hsome.
Qed.

End NarrowPredicates.

(** C10, as amended.  The predicates do not skip an empty entry.  The
    native [realpath] fails on the empty string (or, in its JavaScript
    version, resolves it as the working directory), so when the working
    directory exists the entry is resolved by [resolveRealPath] to its
    canonical form.  With such an entry in the list every candidate
    that resolves to the working directory is reported as allowed, and
    so is every candidate that resolves to a separator-bounded strict
    descendant of it when its canonical form does not itself end in the
    separator; [addRoot] drops the same entry. *)
Theorem empty_entry_allows_working_directory :
  forall (P : PathModule) (h : Host) (canonicalCwd : string),
    (realpathFn h EmptyString = None
     \/ realpathFn h EmptyString = Some canonicalCwd) ->
    existsSync h (resolve P (cwd h) [EmptyString]) = true ->
    realpathFn h (resolve P (cwd h) [EmptyString]) = Some canonicalCwd ->
    resolveRealPath P h (normalizePathBeforeResolution P h EmptyString)
    = canonicalCwd
    /\ (forall candidatePath allowed vaultPath,
          In EmptyString allowed ->
          let resolvedCandidate :=
            resolveCandidate P h candidatePath vaultPath in
          let cwdReal := normalizePathForComparison P h canonicalCwd in
          resolvedCandidate = cwdReal
          \/ (endsWith cwdReal (sep P) = false
              /\ strictDescendant (sep P) cwdReal resolvedCandidate) ->
          isPathInAllowedExportPaths P h candidatePath allowed vaultPath = true
          /\ isPathInAllowedContextPaths P h candidatePath allowed vaultPath
             = true)
    /\ (forall roots kind, addRoot P h roots EmptyString kind = roots).
Proof.
  intros P h canonicalCwd Hempty Hex Hreal.
  assert (resolveRoot P h EmptyString
          = normalizePathForComparison P h canonicalCwd) as Hroot.
  { unfold resolveRoot. rewrite normalizePathBeforeResolution_empty.
    now rewrite (resolveRealPath_empty P h canonicalCwd). }
  split; [|split].
  - rewrite normalizePathBeforeResolution_empty.
    now apply resolveRealPath_empty.
  - intros candidatePath allowed vaultPath Hin resolvedCandidate cwdReal Hw.
    assert (isWithin P resolvedCandidate cwdReal = true) as Hwithin.
    { destruct Hw as [->|[Hend Hdesc]];
        [apply isWithin_refl | now apply descendant_isWithin]. }
    destruct (predicates_existsb P h candidatePath allowed vaultPath)
      as [-> ->].
    assert (List.existsb
              (fun e => isWithin P (resolveCandidate P h candidatePath vaultPath)
                          (resolveRoot P h e)) allowed = true) as Hany.
    { apply existsb_exists. exists EmptyString. split; [exact Hin|].
      now rewrite Hroot. }
    now rewrite Hany.
  - reflexivity.
Qed.

Lemma empty_entry_allows_working_directory_witness :
  resolveRealPath Posix.module Examples.plainHost
    (normalizePathBeforeResolution Posix.module Examples.plainHost EmptyString)
  = "/work"
  /\ strictDescendant "/" "/work"
       (resolveCandidate Posix.module Examples.plainHost
          "/work/secret.txt" "/vault")
  /\ isPathInAllowedExportPaths Posix.module Examples.plainHost
       "/work/secret.txt" ["/out"; ""] "/vault" = true
  /\ isPathInAllowedContextPaths Posix.module Examples.plainHost
       "/work/secret.txt" ["/out"; ""] "/vault" = true.
Proof.
  assert (strictDescendant "/" "/work"
            (resolveCandidate Posix.module Examples.plainHost
               "/work/secret.txt" "/vault")) as Hdesc.
  { exists "/secret.txt". repeat split; [discriminate|]. now left. }
  destruct (empty_entry_allows_working_directory Posix.module
              Examples.plainHost "/work") as [Hcwd [Hallowed _]].
  - left. reflexivity.
  - reflexivity.
  - reflexivity.
  - split; [exact Hcwd|]. split; [exact Hdesc|].
    apply (Hallowed "/work/secret.txt" ["/out"; ""] "/vault").
    + right. left. reflexivity.
    + right. split; [reflexivity | exact Hdesc].
Defined.

(** C10 as stated fails when the process runs in the root directory:
    the empty entry resolves to [/], a file below it is a descendant of
    the working directory, and both predicates reject it. *)
Lemma empty_entry_fails_in_root_directory :
  resolveRealPath Posix.module Examples.rootCwdHost
    (normalizePathBeforeResolution Posix.module Examples.rootCwdHost EmptyString)
  = "/"
  /\ resolveCandidate Posix.module Examples.rootCwdHost "/etc/passwd" "/vault"
     = "/etc/passwd"
  /\ strictDescendant "/" "/" "/etc/passwd"
  /\ isPathInAllowedExportPaths Posix.module Examples.rootCwdHost
       "/etc/passwd" [""] "/vault" = false
  /\ isPathInAllowedContextPaths Posix.module Examples.rootCwdHost
       "/etc/passwd" [""] "/vault" = false.
Proof.
  repeat split.
  exists "etc/passwd". repeat split; [discriminate|]. now right.
Qed.

(** C5 fails on the code: the predicates neither trim nor skip the
    entries of their list, the classifier does both.  With the single
    entry [""] the export predicate allows a file of the working
    directory that no root of the classifier matches, and with an entry
    that ends in a space the context predicate rejects a file the
    classifier puts under that context root. *)
Theorem narrow_predicates_diverge_from_classifier :
  isPathInAllowedExportPaths Posix.module Examples.plainHost
    "/work/secret.txt" [""] "/vault" = true
  /\ anyRootMatches Posix.module
       (resolveCandidate Posix.module Examples.plainHost
          "/work/secret.txt" "/vault")
       (buildRoots Posix.module Examples.plainHost None (Some [""])) = false
  /\ getPathAccessType Posix.module Examples.plainHost
       "/work/secret.txt" None (Some [""]) "/vault" = Access.none
  /\ isPathInAllowedContextPaths Posix.module Examples.plainHost
       "/docs/readme.md" ["/docs "] "/vault" = false
  /\ anyRootMatches Posix.module
       (resolveCandidate Posix.module Examples.plainHost
          "/docs/readme.md" "/vault")
       (buildRoots Posix.module Examples.plainHost (Some ["/docs "]) None)
     = true
  /\ getPathAccessType Posix.module Examples.plainHost
       "/docs/readme.md" (Some ["/docs "]) None "/vault" = Access.context.
Proof. repeat split; reflexivity. Qed.

(** C6 fails on the code for the three predicates: only the classifier
    tests for the empty candidate.  The predicates resolve the empty
    string against the vault root, so it counts as the vault root
    itself. *)
Theorem empty_candidate_is_not_rejected_by_predicates :
  (forall (P : PathModule) (h : Host) (ctx exp : option (list string))
          (vaultPath : string),
      getPathAccessType P h EmptyString ctx exp vaultPath = Access.none)
  /\ isPathWithinVault Posix.module Examples.plainHost EmptyString "/vault"
     = true
  /\ isPathInAllowedContextPaths Posix.module Examples.plainHost
       EmptyString ["/vault"] "/vault" = true
  /\ isPathInAllowedExportPaths Posix.module Examples.plainHost
       EmptyString ["/vault"] "/vault" = true.
Proof. repeat split; reflexivity. Qed.

(** The same on every host: the empty candidate is within the vault for
    [isPathWithinVault] as soon as [path.resolve] leaves the vault path
    as it is. *)
Lemma isPathWithinVault_empty_candidate (P : PathModule) (h : Host)
    (vaultPath : string) :
  isAbsolute P EmptyString = false ->
  resolve P (cwd h) [vaultPath; EmptyString] = vaultPath ->
  isPathWithinVault P h EmptyString vaultPath = true.
Proof.
  intros Habs Hres. unfold isPathWithinVault, resolveCandidate.
  rewrite normalizePathBeforeResolution_empty, Habs, Hres.
  unfold isWithin. now rewrite String.eqb_refl.
Qed.

(* ================================================================== *)
(** * [path.posix.dirname] walks towards the root *)
(* ================================================================== *)

Lemma substring_length_le (n : nat) (s : string) :
  String.length (substring 0 n s) <= n.
Proof.
  revert s. induction n as [|n IH]; intros [|c s]; simpl; try lia.
  specialize (IH s). lia.
Qed.

(** [end] is -1 or the index of a slash below the starting index. *)
Lemma dirnameScan_bound (path : string) (i : nat) (matchedSlash : bool) :
  Posix.dirnameScan path i matchedSlash = (-1)%Z
  \/ (1 <= Posix.dirnameScan path i matchedSlash <= Z.of_nat i
      /\ (matchedSlash = true ->
          Posix.dirnameScan path i matchedSlash < Z.of_nat i))%Z.
Proof.
  revert matchedSlash. induction i as [|i IH]; intros matchedSlash.
  - now left.
  - cbn [Posix.dirnameScan].
    destruct (Posix.isSlashAt path (S i)).
    + destruct matchedSlash; cbn [negb].
      * destruct (IH true) as [H|[H1 H2]]; [now left | right]. lia.
      * right. split; [lia | discriminate].
    + destruct (IH false) as [H|[H1 H2]]; [now left | right]. lia.
Qed.

Lemma posix_dirname_cases (s : string) :
  Posix.dirname s = "." \/ Posix.dirname s = "/"
  \/ String.length (Posix.dirname s) < String.length s.
Proof.
  unfold Posix.dirname.
  destruct s as [|c s]; [now left|].
  cbn [JS.isEmpty].
  set (path := String c s).
  destruct (dirnameScan_bound path (String.length path - 1) true)
    as [Hend|[Hrange Hlt]].
  - rewrite Hend. cbn [Z.eqb Pos.eqb].
    destruct (Posix.isAbsolute path); auto.
  - specialize (Hlt eq_refl).
    set (e := Posix.dirnameScan path (String.length path - 1) true) in *.
    assert ((e =? -1)%Z = false) as -> by (apply Z.eqb_neq; lia).
    right. right.
    destruct (Posix.isAbsolute path && (e =? 1)%Z) eqn:Hroot.
    + apply andb_true_iff in Hroot. destruct Hroot as [_ He].
      apply Z.eqb_eq in He. simpl String.length in *. lia.
    + unfold JS.slice. rewrite Nat.sub_0_r.
      pose proof (substring_length_le (Z.to_nat e) path). lia.
Qed.

Lemma posix_dirname_descends (s : string) :
  Posix.dirname s = s
  \/ String.length (Posix.dirname s) < String.length s
  \/ Posix.dirname (Posix.dirname s) = Posix.dirname s.
Proof.
  destruct (posix_dirname_cases s) as [H|[H|H]].
  - right. right. now rewrite H.
  - right. right. now rewrite H.
  - right. now left.
Qed.

#[export] Instance posix_laws : PathLaws Posix.module.
Proof. constructor. exact posix_dirname_descends. Qed.

(* ================================================================== *)
(** * [resolveRealPath] *)
(* ================================================================== *)

Section WalkUp.

Variable P : PathModule.
Variable h : Host.

Lemma walkUp_unfold fuel absolute current suffix :
  walkUp P h (S fuel) absolute current suffix =
  match probe h current with
  | Some resolvedExisting =>
      Some (if (0 <? List.length suffix)%nat
            then join P (resolvedExisting :: List.rev suffix)
            else resolvedExisting)
  | None =>
      if String.eqb (dirname P current) current then Some absolute
      else walkUp P h fuel absolute (dirname P current)
             (suffix ++ [basename P current])
  end.
Proof. reflexivity. Qed.

Lemma strippedSegments_succ n absolute :
  strippedSegments P (S n) absolute
  = (strippedSegments P n absolute ++ [basename P (ancestor P n absolute)])%list.
Proof.
  unfold strippedSegments. rewrite seq_S, map_app. reflexivity.
Qed.

Lemma strippedSegments_length n absolute :
  List.length (strippedSegments P n absolute) = n.
Proof. unfold strippedSegments. now rewrite length_map, length_seq. Qed.

(** The loop started at the [j]-th ancestor finds the first ancestor
    that can be canonicalized, [k] steps further up. *)
Lemma walkUp_finds absolute r k :
  forall j fuel,
    k < fuel ->
    (forall i, j <= i < j + k ->
       probe h (ancestor P i absolute) = None
       /\ dirname P (ancestor P i absolute) <> ancestor P i absolute) ->
    probe h (ancestor P (j + k) absolute) = Some r ->
    walkUp P h fuel absolute (ancestor P j absolute)
      (strippedSegments P j absolute)
    = Some (if (0 <? j + k)%nat
            then join P (r :: List.rev (strippedSegments P (j + k) absolute))
            else r).
Proof.
  induction k as [|k IH]; intros j fuel Hfuel Hskip Hfound.
  - destruct fuel as [|fuel]; [lia|].
    rewrite walkUp_unfold. rewrite Nat.add_0_r in *. rewrite Hfound.
    now rewrite strippedSegments_length.
  - destruct fuel as [|fuel]; [lia|].
    rewrite walkUp_unfold.
    destruct (Hskip j) as [Hnone Hmoves]; [lia|].
    rewrite Hnone.
    apply String.eqb_neq in Hmoves. rewrite Hmoves.
    rewrite <- strippedSegments_succ.
    change (dirname P (ancestor P j absolute))
      with (ancestor P (S j) absolute).
    replace (j + S k) with (S j + k) in * by lia.
    apply IH; [lia | | exact Hfound].
    intros i Hi. apply Hskip. lia.
Qed.

Context {laws : PathLaws P}.

(** The loop always ends: the [None] of [resolveRealPath] is dead. *)
Lemma walkUp_terminates absolute :
  forall fuel current suffix,
    String.length current + 2 <= fuel ->
    exists r, walkUp P h fuel absolute current suffix = Some r.
Proof.
  induction fuel as [|fuel IH]; intros current suffix Hfuel; [lia|].
  rewrite walkUp_unfold.
  destruct (probe h current) as [r|]; [eauto|].
  destruct (String.eqb (dirname P current) current) eqn:Hfix; [eauto|].
  destruct (dirname_descends current) as [Hsame|[Hshort|Hparent]].
  - rewrite Hsame, String.eqb_refl in Hfix. discriminate.
  - apply IH. lia.
  - destruct fuel as [|fuel]; [lia|].
    rewrite walkUp_unfold.
    destruct (probe h (dirname P current)) as [r|]; [eauto|].
    rewrite Hparent, String.eqb_refl. eauto.
Qed.

(** The ancestors that still move are fewer than the fuel. *)
Lemma moving_ancestors_bound absolute k :
  (forall i, i < k ->
     dirname P (ancestor P i absolute) <> ancestor P i absolute) ->
  forall i, i < k ->
    String.length (ancestor P i absolute) + i <= String.length absolute.
Proof.
  intros Hmoves. induction i as [|i IH]; intros Hi.
  - simpl. lia.
  - specialize (IH ltac:(lia)).
    change (ancestor P (S i) absolute)
      with (dirname P (ancestor P i absolute)).
    destruct (dirname_descends (ancestor P i absolute))
      as [Hsame|[Hshort|Hparent]].
    + exfalso. apply (Hmoves i); [lia | exact Hsame].
    + lia.
    + exfalso. apply (Hmoves (S i)); [lia | exact Hparent].
Qed.

Lemma walkUp_nothing_found absolute :
  (forall n, probe h (ancestor P n absolute) = None) ->
  forall fuel j,
    String.length (ancestor P j absolute) + 2 <= fuel ->
    walkUp P h fuel absolute (ancestor P j absolute)
      (strippedSegments P j absolute) = Some absolute.
Proof.
  intros Hnone. induction fuel as [|fuel IH]; intros j Hfuel; [lia|].
  rewrite walkUp_unfold, Hnone.
  destruct (String.eqb (dirname P (ancestor P j absolute))
              (ancestor P j absolute)) eqn:Hfix; [reflexivity|].
  rewrite <- strippedSegments_succ.
  change (dirname P (ancestor P j absolute))
    with (ancestor P (S j) absolute) in *.
  destruct (dirname_descends (ancestor P j absolute))
    as [Hsame|[Hshort|Hparent]].
  - change (dirname P (ancestor P j absolute))
      with (ancestor P (S j) absolute) in Hsame.
    rewrite Hsame, String.eqb_refl in Hfix. discriminate.
  - apply IH.
    change (dirname P (ancestor P j absolute))
      with (ancestor P (S j) absolute) in Hshort. lia.
  - destruct fuel as [|fuel]; [lia|].
    rewrite walkUp_unfold, Hnone.
    change (dirname P (ancestor P j absolute))
      with (ancestor P (S j) absolute) in Hparent.
    now rewrite Hparent, String.eqb_refl.
Qed.

Lemma resolveRealPath_found p k r :
  realpathFn h p = None ->
  (forall i, i < k ->
     probe h (ancestor P i (resolve P (cwd h) [p])) = None
     /\ dirname P (ancestor P i (resolve P (cwd h) [p]))
        <> ancestor P i (resolve P (cwd h) [p])) ->
  probe h (ancestor P k (resolve P (cwd h) [p])) = Some r ->
  resolveRealPath P h p
  = if (k =? 0)%nat then r
    else join P (r :: List.rev (strippedSegments P k (resolve P (cwd h) [p]))).
Proof.
  intros Hreal Hskip Hfound. unfold resolveRealPath. rewrite Hreal.
  set (absolute := resolve P (cwd h) [p]) in *.
  assert (k < walkFuel absolute) as Hfuel.
  { unfold walkFuel. destruct k as [|k]; [lia|].
    pose proof (moving_ancestors_bound absolute (S k)
                  (fun i Hi => proj2 (Hskip i Hi)) k ltac:(lia)).
    lia. }
  pose proof (walkUp_finds absolute r k 0 (walkFuel absolute) Hfuel) as Hwalk.
  change (ancestor P 0 absolute) with absolute in Hwalk.
  change (strippedSegments P 0 absolute) with (@nil string) in Hwalk.
  change (0 + k) with k in Hwalk. rewrite Hwalk.
  - destruct k; reflexivity.
  - intros i Hi. apply Hskip. lia.
  - exact Hfound.
Qed.

Lemma resolveRealPath_not_found p :
  realpathFn h p = None ->
  (forall n, probe h (ancestor P n (resolve P (cwd h) [p])) = None) ->
  resolveRealPath P h p = resolve P (cwd h) [p].
Proof.
  intros Hreal Hnone. unfold resolveRealPath. rewrite Hreal.
  pose proof (walkUp_nothing_found (resolve P (cwd h) [p]) Hnone
                (walkFuel (resolve P (cwd h) [p])) 0) as Hwalk.
  change (ancestor P 0 (resolve P (cwd h) [p]))
    with (resolve P (cwd h) [p]) in Hwalk.
  change (strippedSegments P 0 (resolve P (cwd h) [p]))
    with (@nil string) in Hwalk.
  rewrite Hwalk; [reflexivity|].
  unfold walkFuel. lia.
Qed.

End WalkUp.

(** On POSIX the join of [walkUp] is the text of the canonical ancestor
    and of the segments, put together with slashes in that order and
    then normalized. *)
Lemma posix_joinLoop_concat (args : list string) (joined : string) :
  (forall a, In a args -> a <> EmptyString) ->
  Posix.joinLoop args (Some joined)
  = Some (String.concat "/" (joined :: args)).
Proof.
  revert joined. induction args as [|a args IH]; intros joined Hne.
  - reflexivity.
  - cbn [Posix.joinLoop].
    assert (a <> EmptyString) as Ha by (apply Hne; now left).
    destruct a as [|c a]; [contradiction|].
    cbn [String.length Nat.ltb Nat.leb].
    rewrite IH by (intros a' Hin; apply Hne; now right).
    cbn [String.concat]. destruct args; now rewrite ?append_assoc.
Qed.

Lemma posix_join_concat (resolvedExisting : string) (segments : list string) :
  resolvedExisting <> EmptyString ->
  (forall a, In a segments -> a <> EmptyString) ->
  Posix.join (resolvedExisting :: segments)
  = Posix.normalize (String.concat "/" (resolvedExisting :: segments)).
Proof.
  intros Hr Hsegs. unfold Posix.join.
  destruct resolvedExisting as [|c r]; [contradiction|].
  cbn [Posix.joinLoop String.length Nat.ltb Nat.leb].
  now rewrite posix_joinLoop_concat.
Qed.



(* ================================================================== *)
(** * Environment references *)
(* ================================================================== *)

Section Runs.

Variable f : ascii -> bool.

Lemma takeWhile_run (s t : string) (x : ascii) :
  JS.isEmpty (JS.dropWhile f s) = true -> f x = false ->
  JS.takeWhile f (s ++ String x t) = s
  /\ JS.dropWhile f (s ++ String x t) = String x t.
Proof.
  intros Hs Hx. induction s as [|c s IH]; simpl in *.
  - now rewrite Hx.
  - destruct (f c); [|discriminate].
    destruct (IH Hs) as [-> ->]. now split.
Qed.

Lemma takeWhile_all (s : string) :
  JS.isEmpty (JS.dropWhile f s) = true -> JS.takeWhile f s = s.
Proof.
  induction s as [|c s IH]; simpl; [reflexivity|].
  destruct (f c); [|discriminate]. intros H. now rewrite IH.
Qed.

Lemma run_excludes (s : string) (x : ascii) :
  JS.isEmpty (JS.dropWhile f s) = true -> f x = false ->
  JS.includes s x = false.
Proof.
  intros Hs Hx. induction s as [|c s IH]; simpl in *; [reflexivity|].
  destruct (f c) eqn:Hc; [|discriminate].
  rewrite IH by assumption.
  destruct (Ascii.eqb_spec c x) as [->|]; [congruence | reflexivity].
Qed.

End Runs.

Lemma includes_append (a b : string) (x : ascii) :
  JS.includes (a ++ b) x = JS.includes a x || JS.includes b x.
Proof.
  induction a as [|c a IH]; simpl; [reflexivity|].
  now rewrite IH, orb_assoc.
Qed.

Lemma substring_whole (s : string) : substring 0 (String.length s) s = s.
Proof. induction s as [|c s IH]; simpl; [reflexivity | now rewrite IH]. Qed.

Lemma substring_append (a b : string) :
  substring 0 (String.length a) (a ++ b) = a.
Proof. induction a as [|c a IH]; simpl; [now destruct b | now rewrite IH]. Qed.

Section Replace.

Variable re : Regex.Pattern.
Variable replacer : string -> list (option string) -> string.

Lemma replaceFrom_skip_all (s : string) (k : nat) :
  String.length s <= k -> Regex.replaceFrom re replacer s k = EmptyString.
Proof.
  revert k. induction s as [|c s IH]; intros k Hk; [reflexivity|].
  simpl in *. destruct k as [|k]; [lia|]. apply IH. lia.
Qed.

Lemma replaceFrom_skip_prefix (a b : string) :
  Regex.replaceFrom re replacer (a ++ b) (String.length a)
  = Regex.replaceFrom re replacer b 0.
Proof. induction a as [|c a IH]; simpl; [reflexivity | exact IH]. Qed.

(** A pattern whose matches all begin with [x] leaves a text without
    [x] as it is. *)
Lemma replace_untriggered (x : ascii) (s : string) :
  (forall c t, c <> x -> re (String c t) = None) ->
  JS.includes s x = false ->
  Regex.replace re replacer s = s.
Proof.
  intros Htrigger. unfold Regex.replace.
  induction s as [|c s IH]; simpl; [reflexivity|].
  intros Hinc. apply orb_false_iff in Hinc. destruct Hinc as [Hc Hs].
  rewrite Htrigger.
  - now rewrite IH.
  - intros ->. now rewrite Ascii.eqb_refl in Hc.
Qed.

(** A match that covers the whole text is replaced once. *)
Lemma replace_whole (s : string) (m : Regex.Match) :
  re s = Some m -> Regex.matchLength m = String.length s ->
  0 < String.length s ->
  Regex.replace re replacer s = replacer s (Regex.groups m).
Proof.
  intros Hm Hlen Hpos. unfold Regex.replace.
  destruct s as [|c s]; [simpl in Hpos; lia|].
  cbn [Regex.replaceFrom]. rewrite Hm, Hlen.
  rewrite replaceFrom_skip_all by (simpl; lia).
  rewrite substring_whole, append_empty_r. reflexivity.
Qed.

End Replace.

Ltac by_bits c :=
  destruct c as [[] [] [] [] [] [] [] []]; try reflexivity; try discriminate.

Lemma percentVar_trigger (c : ascii) (t : string) :
  c <> "%"%char -> Regex.percentVar (String c t) = None.
Proof. intros H. by_bits c. now contradiction H. Qed.

Lemma bangVar_trigger (c : ascii) (t : string) :
  c <> "!"%char -> Regex.bangVar (String c t) = None.
Proof. intros H. by_bits c. now contradiction H. Qed.

Lemma powershellVar_trigger (c : ascii) (t : string) :
  c <> "$"%char -> Regex.powershellVar (String c t) = None.
Proof. intros H. by_bits c. now contradiction H. Qed.

Lemma posixVar_trigger (c : ascii) (t : string) :
  c <> "$"%char -> Regex.posixVar (String c t) = None.
Proof. intros H. by_bits c. now contradiction H. Qed.

Lemma percentVar_form (name : string) :
  isPercentName name = true ->
  Regex.percentVar ("%" ++ name ++ "%")
  = Some (Regex.mkMatch (String.length ("%" ++ name ++ "%")) [Some name]).
Proof.
  destruct name as [|c0 rest]; [discriminate|]. simpl isPercentName.
  intros H. apply andb_true_iff in H. destruct H as [Hstart Hrest].
  cbn [append Regex.percentVar]. rewrite Hstart.
  destruct (takeWhile_run Regex.isPercentChar rest "" "%" Hrest eq_refl)
    as [-> ->].
  do 2 f_equal. cbn [String.length]. rewrite length_append. simpl. lia.
Qed.

Lemma bangVar_form (name : string) :
  isName name = true ->
  Regex.bangVar ("!" ++ name ++ "!")
  = Some (Regex.mkMatch (String.length ("!" ++ name ++ "!")) [Some name]).
Proof.
  destruct name as [|c0 rest]; [discriminate|]. simpl isName.
  intros H. apply andb_true_iff in H. destruct H as [Hstart Hrest].
  cbn [append Regex.bangVar]. rewrite Hstart.
  destruct (takeWhile_run Regex.isNameChar rest "" "!" Hrest eq_refl)
    as [-> ->].
  do 2 f_equal. cbn [String.length]. rewrite length_append. simpl. lia.
Qed.

Lemma powershellVar_form (name : string) :
  isName name = true ->
  Regex.powershellVar ("$env:" ++ name)
  = Some (Regex.mkMatch (String.length ("$env:" ++ name)) [Some name]).
Proof.
  destruct name as [|c0 rest]; [discriminate|]. simpl isName.
  intros H. apply andb_true_iff in H. destruct H as [Hstart Hrest].
  cbn [append Regex.powershellVar]. rewrite Hstart.
  rewrite (takeWhile_all _ _ Hrest).
  change (JS.lowerChar "e") with "e"%char.
  change (JS.lowerChar "n") with "n"%char.
  change (JS.lowerChar "v") with "v"%char.
  cbn. do 2 f_equal. lia.
Qed.

Lemma posixVar_bare_form (name : string) :
  isName name = true ->
  Regex.posixVar ("$" ++ name)
  = Some (Regex.mkMatch (String.length ("$" ++ name)) [Some name; None]).
Proof.
  destruct name as [|c0 rest]; [discriminate|]. simpl isName.
  intros H. apply andb_true_iff in H. destruct H as [Hstart Hrest].
  cbn [append Regex.posixVar]. rewrite Hstart.
  rewrite (takeWhile_all _ _ Hrest).
  cbn. do 2 f_equal. lia.
Qed.

Lemma posixVar_braced_form (name : string) :
  isName name = true ->
  Regex.posixVar ("${" ++ name ++ "}")
  = Some (Regex.mkMatch (String.length ("${" ++ name ++ "}"))
            [None; Some name]).
Proof.
  destruct name as [|c0 rest]; [discriminate|]. simpl isName.
  intros H. apply andb_true_iff in H. destruct H as [Hstart Hrest].
  cbn [append Regex.posixVar]. 
  change (Regex.isNameStart "{") with false. cbn [Ascii.eqb Bool.eqb].
  cbv iota. rewrite Hstart.
  destruct (takeWhile_run Regex.isNameChar rest "" "}" Hrest eq_refl)
    as [-> ->].
  do 2 f_equal. cbn [String.length]. rewrite length_append. simpl. lia.
Qed.

Lemma run_append (f : ascii -> bool) (a b : string) :
  JS.isEmpty (JS.dropWhile f a) = true ->
  JS.isEmpty (JS.dropWhile f b) = true ->
  JS.isEmpty (JS.dropWhile f (a ++ b)) = true.
Proof.
  intros Ha Hb. induction a as [|c a IH]; simpl in *; [exact Hb|].
  destruct (f c); [auto | discriminate].
Qed.

Lemma takeWhile_dropWhile (f : ascii -> bool) (s : string) :
  JS.takeWhile f s ++ JS.dropWhile f s = s.
Proof.
  induction s as [|c s IH]; simpl; [reflexivity|].
  destruct (f c); simpl; [now rewrite IH | reflexivity].
Qed.

Lemma takeWhile_is_run (f : ascii -> bool) (s : string) :
  JS.isEmpty (JS.dropWhile f (JS.takeWhile f s)) = true.
Proof.
  induction s as [|c s IH]; simpl; [reflexivity|].
  destruct (f c) eqn:E; simpl; [now rewrite E | reflexivity].
Qed.

(** X19.  The scanner [percentVar] finds a match exactly when the
    regular expression has one, and every way of matching gives the
    same name and the same length: the optional last class of the
    pattern changes nothing. *)
Lemma percentVar_regex (s name : string) (len : nat) :
  Regex.percentVar s = Some (Regex.mkMatch len [Some name])
  <-> percentRegexMatch s name len.
Proof.
  split.
  - intros H. unfold Regex.percentVar in H.
    destruct s as [|p [|c0 rest]]; try discriminate;
      [destruct p as [[] [] [] [] [] [] [] []]; discriminate|].
    destruct p as [[] [] [] [] [] [] [] []]; try discriminate.
    destruct (Regex.isNameStart c0) eqn:Hstart; [|discriminate].
    destruct (JS.dropWhile Regex.isPercentChar rest) as [|q after] eqn:Hdrop;
      [discriminate|].
    destruct q as [[] [] [] [] [] [] [] []]; try discriminate.
    injection H as <- <-.
    exists c0, (JS.takeWhile Regex.isPercentChar rest), EmptyString, after.
    rewrite append_empty_r. repeat split; auto using takeWhile_is_run.
    + cbn [append]. do 2 f_equal.
      change (String "%" after) with ("%" ++ after).
      cbn [append]. rewrite <- Hdrop. symmetry. apply takeWhile_dropWhile.
    + cbn [String.length]. lia.
  - intros [c0 [body [tail [rest [-> [Hstart [Hbody [Htail [-> ->]]]]]]]]].
    assert (JS.isEmpty (JS.dropWhile Regex.isPercentChar (body ++ tail))
            = true) as Hrun.
    { apply run_append; [exact Hbody|].
      destruct Htail as [->|[t [-> Ht]]]; [reflexivity|].
      simpl. unfold isPercentTail in Ht. unfold Regex.isPercentChar.
      apply orb_true_iff in Ht. destruct Ht as [->| ->]; [reflexivity|].
      now rewrite !orb_true_r. }
    cbn [append Regex.percentVar]. rewrite Hstart.
    destruct (takeWhile_run Regex.isPercentChar (body ++ tail) rest "%"
                Hrun eq_refl) as [-> ->].
    do 2 f_equal. cbn [String.length]. lia.
Qed.

Lemma run_cons (f : ascii -> bool) (c : ascii) (s : string) :
  JS.isEmpty (JS.dropWhile f (String c s)) = true ->
  f c = true /\ JS.isEmpty (JS.dropWhile f s) = true.
Proof. simpl. destruct (f c); [auto | discriminate]. Qed.

Lemma isNameStart_isNameChar (c : ascii) :
  Regex.isNameStart c = true -> Regex.isNameChar c = true.
Proof. unfold Regex.isNameChar. now intros ->. Qed.

Lemma isNameChar_isPercentChar (c : ascii) :
  Regex.isNameChar c = true -> Regex.isPercentChar c = true.
Proof. unfold Regex.isPercentChar. now intros ->. Qed.

Lemma isName_run (name : string) :
  isName name = true ->
  JS.isEmpty name = false
  /\ JS.isEmpty (JS.dropWhile Regex.isNameChar name) = true.
Proof.
  destruct name as [|c0 rest]; [discriminate|]. simpl.
  intros H. apply andb_true_iff in H. destruct H as [Hstart Hrest].
  now rewrite (isNameStart_isNameChar _ Hstart).
Qed.

Lemma isPercentName_run (name : string) :
  isPercentName name = true ->
  JS.isEmpty name = false
  /\ JS.isEmpty (JS.dropWhile Regex.isPercentChar name) = true.
Proof.
  destruct name as [|c0 rest]; [discriminate|]. simpl.
  intros H. apply andb_true_iff in H. destruct H as [Hstart Hrest].
  now rewrite (isNameChar_isPercentChar _ (isNameStart_isNameChar _ Hstart)).
Qed.

Lemma isName_excludes (name : string) (x : ascii) :
  isName name = true -> Regex.isNameChar x = false ->
  JS.includes name x = false.
Proof.
  intros H Hx. apply (run_excludes Regex.isNameChar); auto.
  now apply isName_run.
Qed.

Lemma isPercentName_excludes (name : string) (x : ascii) :
  isPercentName name = true -> Regex.isPercentChar x = false ->
  JS.includes name x = false.
Proof.
  intros H Hx. apply (run_excludes Regex.isPercentChar); auto.
  now apply isPercentName_run.
Qed.

(** The PowerShell pattern does not match a bare or braced POSIX
    reference: a name holds no colon. *)
Lemma powershellVar_needs_colon (e n v colon : ascii) (t : string) :
  colon <> ":"%char ->
  Regex.powershellVar (String "$" (String e (String n (String v (String colon t)))))
  = None.
Proof.
  intros H.
  destruct colon as [[] [] [] [] [] [] [] []]; try reflexivity.
  now contradiction H.
Qed.

Lemma powershellVar_on_name (name : string) :
  isName name = true -> Regex.powershellVar (String "$" name) = None.
Proof.
  intros H. apply isName_run in H. destruct H as [_ H].
  destruct name as [|e [|n [|v [|colon t]]]]; try reflexivity.
  apply powershellVar_needs_colon. intros ->.
  apply run_cons in H. destruct H as [_ H].
  apply run_cons in H. destruct H as [_ H].
  apply run_cons in H. destruct H as [_ H].
  apply run_cons in H. destruct H as [Hcolon _].
  vm_compute in Hcolon. discriminate.
Qed.

Lemma powershellVar_on_brace (s : string) :
  Regex.powershellVar (String "$" (String "{" s)) = None.
Proof.
  destruct s as [|n [|v [|colon t]]]; try reflexivity.
  destruct t; destruct colon as [[] [] [] [] [] [] [] []]; reflexivity.
Qed.

Lemma substring_split (n : nat) (s : string) :
  substring 0 n s ++ JS.sliceFrom s n = s.
Proof.
  unfold JS.sliceFrom. revert s.
  induction n as [|n IH]; intros [|c s]; simpl; try reflexivity.
  - now rewrite substring_whole.
  - now rewrite IH.
Qed.

Section Verbatim.

Variable re : Regex.Pattern.
Variable replacer : string -> list (option string) -> string.
Hypothesis re_positive :
  forall s m, re s = Some m -> 1 <= Regex.matchLength m.
Hypothesis replacer_verbatim :
  forall matched groups, replacer matched groups = matched.

Lemma sliceFrom_0 (s : string) : JS.sliceFrom s 0 = s.
Proof. unfold JS.sliceFrom. rewrite Nat.sub_0_r. apply substring_whole. Qed.

Lemma replaceFrom_verbatim (s : string) (k : nat) :
  Regex.replaceFrom re replacer s k = JS.sliceFrom s k.
Proof.
  revert k. induction s as [|c s IH]; intros k.
  - now destruct k.
  - cbn [Regex.replaceFrom]. destruct k as [|k].
    + rewrite sliceFrom_0.
      destruct (re (String c s)) as [m|] eqn:Hm.
      * rewrite replacer_verbatim, IH.
        pose proof (re_positive _ _ Hm) as Hpos.
        destruct (Regex.matchLength m) as [|l]; [lia|].
        replace (S l - 1) with l by lia.
        change (substring 0 (S l) (String c s))
          with (String c (substring 0 l s)).
        cbn [append]. f_equal. apply substring_split.
      * now rewrite IH, sliceFrom_0.
    + rewrite IH. reflexivity.
Qed.

Lemma replace_verbatim (s : string) : Regex.replace re replacer s = s.
Proof.
  unfold Regex.replace. now rewrite replaceFrom_verbatim, sliceFrom_0.
Qed.

End Verbatim.

Ltac positive_length H :=
  repeat match type of H with
         | context [match ?x with _ => _ end] => destruct x; try discriminate
         | context [if ?x then _ else _] => destruct x; try discriminate
         end;
  injection H as <-; simpl; lia.

Lemma percentVar_positive s m :
  Regex.percentVar s = Some m -> 1 <= Regex.matchLength m.
Proof. unfold Regex.percentVar. intros H. positive_length H. Qed.

Lemma bangVar_positive s m :
  Regex.bangVar s = Some m -> 1 <= Regex.matchLength m.
Proof. unfold Regex.bangVar. intros H. positive_length H. Qed.

Lemma powershellVar_positive s m :
  Regex.powershellVar s = Some m -> 1 <= Regex.matchLength m.
Proof. unfold Regex.powershellVar. intros H. positive_length H. Qed.

Lemma posixVar_positive s m :
  Regex.posixVar s = Some m -> 1 <= Regex.matchLength m.
Proof. unfold Regex.posixVar. intros H. positive_length H. Qed.

Section ReplaceSteps.

Variable re : Regex.Pattern.
Variable replacer : string -> list (option string) -> string.

Lemma replace_match (a b : string) (m : Regex.Match) :
  re (a ++ b) = Some m -> Regex.matchLength m = String.length a ->
  0 < String.length a ->
  Regex.replace re replacer (a ++ b)
  = replacer a (Regex.groups m) ++ Regex.replace re replacer b.
Proof.
  intros Hm Hlen Hpos. unfold Regex.replace.
  destruct a as [|c a]; [simpl in Hpos; lia|].
  change (String c a ++ b) with (String c (a ++ b)) in *.
  cbn [Regex.replaceFrom]. rewrite Hm, Hlen.
  change (String c (a ++ b)) with (String c a ++ b).
  rewrite substring_append. f_equal.
  simpl String.length. rewrite Nat.sub_succ, Nat.sub_0_r.
  apply replaceFrom_skip_prefix.
Qed.

Lemma replace_nomatch (c : ascii) (s : string) :
  re (String c s) = None ->
  Regex.replace re replacer (String c s)
  = String c (Regex.replace re replacer s).
Proof. unfold Regex.replace. cbn [Regex.replaceFrom]. now intros ->. Qed.

End ReplaceSteps.

Section Expansion.

Variable h : Host.

Lemma expand_noMeta (s : string) :
  noMeta s = true -> expandEnvironmentVariables h s = s.
Proof. unfold expandEnvironmentVariables, noMeta. now intros ->. Qed.

Lemma expand_unfold (s : string) :
  noMeta s = false ->
  expandEnvironmentVariables h s
  = Regex.replace Regex.posixVar (substitutePosixVar h)
      (if win32 h then
         Regex.replace Regex.powershellVar (substituteVar h)
           (Regex.replace Regex.bangVar (substituteVar h)
              (Regex.replace Regex.percentVar (substituteVar h) s))
       else Regex.replace Regex.percentVar (substituteVar h) s).
Proof.
  unfold expandEnvironmentVariables, noMeta. intros ->.
  now destruct (win32 h).
Qed.

Lemma percent_pass_untriggered f s :
  JS.includes s "%" = false -> Regex.replace Regex.percentVar f s = s.
Proof. apply replace_untriggered, percentVar_trigger. Qed.

Lemma bang_pass_untriggered f s :
  JS.includes s "!" = false -> Regex.replace Regex.bangVar f s = s.
Proof. apply replace_untriggered, bangVar_trigger. Qed.

Lemma powershell_pass_untriggered f s :
  JS.includes s "$" = false -> Regex.replace Regex.powershellVar f s = s.
Proof. apply replace_untriggered, powershellVar_trigger. Qed.

Lemma posix_pass_untriggered f s :
  JS.includes s "$" = false -> Regex.replace Regex.posixVar f s = s.
Proof. apply replace_untriggered, posixVar_trigger. Qed.

Lemma inert_spec (v : string) :
  inert v = true -> JS.includes v "$" = false /\ JS.includes v "!" = false.
Proof.
  unfold inert. intros H. apply andb_true_iff in H.
  destruct H as [H1 H2]. now rewrite negb_true_iff in H1, H2.
Qed.

(** The passes that follow a substitution leave an inert value alone. *)
Lemma later_passes_inert (v : string) :
  inert v = true ->
  Regex.replace Regex.posixVar (substitutePosixVar h)
    (if win32 h then
       Regex.replace Regex.powershellVar (substituteVar h)
         (Regex.replace Regex.bangVar (substituteVar h) v)
     else v) = v.
Proof.
  intros H. apply inert_spec in H. destruct H as [Hd Hb].
  destruct (win32 h).
  - now rewrite bang_pass_untriggered, powershell_pass_untriggered,
      posix_pass_untriggered.
  - now apply posix_pass_untriggered.
Qed.

Lemma powershell_pass_on_bare f name :
  isName name = true ->
  Regex.replace Regex.powershellVar f ("$" ++ name) = "$" ++ name.
Proof.
  intros H. change ("$" ++ name) with (String "$" name).
  rewrite replace_nomatch by (now apply powershellVar_on_name). f_equal.
  apply powershell_pass_untriggered.
  now apply isName_excludes.
Qed.

Lemma powershell_pass_on_braced f name :
  isName name = true ->
  Regex.replace Regex.powershellVar f ("${" ++ name ++ "}")
  = "${" ++ name ++ "}".
Proof.
  intros H.
  change ("${" ++ name ++ "}") with (String "$" (String "{" (name ++ "}"))).
  rewrite replace_nomatch by apply powershellVar_on_brace. f_equal.
  apply (powershell_pass_untriggered f (String "{" (name ++ "}"))).
  cbn [JS.includes]. rewrite includes_append.
  now rewrite (isName_excludes name "$").
Qed.

(** The POSIX pass reads a PowerShell reference as the variable [env]
    followed by a colon and plain text. *)
Lemma posix_pass_on_powershell name :
  isName name = true ->
  Regex.replace Regex.posixVar (substitutePosixVar h) ("$env:" ++ name)
  = substitutePosixVar h "$env" [Some "env"; None] ++ ":" ++ name.
Proof.
  intros H.
  change ("$env:" ++ name) with ("$env" ++ String ":" name).
  rewrite (replace_match _ _ "$env" (String ":" name)
             (Regex.mkMatch 4 [Some "env"; None]))
    by (reflexivity || (simpl; lia)).
  cbn [Regex.groups]. f_equal.
  rewrite replace_nomatch by reflexivity.
  change (":" ++ name) with (String ":" name). f_equal.
  apply posix_pass_untriggered. now apply isName_excludes.
Qed.

Lemma substituteVar_resolved matched name value rest :
  getEnvValue h name = Some value ->
  substituteVar h matched (Some name :: rest) = value.
Proof. unfold substituteVar. now intros ->. Qed.

Lemma substituteVar_unresolved matched name rest :
  getEnvValue h name = None ->
  substituteVar h matched (Some name :: rest) = matched.
Proof. unfold substituteVar. now intros ->. Qed.

Lemma substitutePosixVar_bare matched name rest :
  JS.isEmpty name = false ->
  substitutePosixVar h matched (Some name :: rest)
  = match getEnvValue h name with Some v => v | None => matched end.
Proof. unfold substitutePosixVar. now intros ->. Qed.

Lemma substitutePosixVar_braced matched name rest :
  JS.isEmpty name = false ->
  substitutePosixVar h matched (None :: Some name :: rest)
  = match getEnvValue h name with Some v => v | None => matched end.
Proof. unfold substitutePosixVar. now intros ->. Qed.

Lemma noMeta_false (s : string) (x : ascii) :
  x = "%"%char \/ x = "$"%char \/ x = "!"%char ->
  JS.includes s x = true -> noMeta s = false.
Proof.
  unfold noMeta. intros [->|[->| ->]] ->; simpl;
    auto using andb_false_r.
  now rewrite andb_false_r.
Qed.

Lemma length_pos_cons (c : ascii) (s : string) : 0 < String.length (String c s).
Proof. simpl. lia. Qed.

(** *** The forms, one by one *)

Lemma expand_bare name :
  isName name = true ->
  expandEnvironmentVariables h ("$" ++ name)
  = match getEnvValue h name with Some v => v | None => "$" ++ name end.
Proof.
  intros H.
  rewrite expand_unfold by (apply (noMeta_false _ "$"); auto).
  assert (Regex.replace Regex.percentVar (substituteVar h) ("$" ++ name)
          = "$" ++ name) as ->.
  { apply percent_pass_untriggered. cbn [append JS.includes].
    now rewrite (isName_excludes name "%"). }
  assert ((if win32 h then
             Regex.replace Regex.powershellVar (substituteVar h)
               (Regex.replace Regex.bangVar (substituteVar h) ("$" ++ name))
           else "$" ++ name) = "$" ++ name) as ->.
  { destruct (win32 h); [|reflexivity].
    rewrite bang_pass_untriggered.
    - now apply powershell_pass_on_bare.
    - cbn [append JS.includes]. now rewrite (isName_excludes name "!"). }
  rewrite (replace_whole _ _ _ _ (posixVar_bare_form name H) eq_refl)
    by apply length_pos_cons.
  apply substitutePosixVar_bare. now apply isName_run.
Qed.

Lemma expand_braced name :
  isName name = true ->
  expandEnvironmentVariables h ("${" ++ name ++ "}")
  = match getEnvValue h name with
    | Some v => v
    | None => "${" ++ name ++ "}"
    end.
Proof.
  intros H.
  rewrite expand_unfold by (apply (noMeta_false _ "$"); auto).
  assert (forall x, Regex.isNameChar x = false ->
            (Ascii.eqb "$" x || Ascii.eqb "{" x || Ascii.eqb "}" x) = false ->
            JS.includes ("${" ++ name ++ "}") x = false) as Hexcl.
  { intros x Hx Hne. cbn [append JS.includes]. rewrite includes_append.
    rewrite (isName_excludes name x) by assumption.
    cbn [JS.includes]. 
    destruct (Ascii.eqb "$" x), (Ascii.eqb "{" x), (Ascii.eqb "}" x);
      try discriminate; reflexivity. }
  rewrite percent_pass_untriggered by (now apply Hexcl).
  assert ((if win32 h then
             Regex.replace Regex.powershellVar (substituteVar h)
               (Regex.replace Regex.bangVar (substituteVar h)
                  ("${" ++ name ++ "}"))
           else "${" ++ name ++ "}") = "${" ++ name ++ "}") as ->.
  { destruct (win32 h); [|reflexivity].
    rewrite bang_pass_untriggered by (now apply Hexcl).
    now apply powershell_pass_on_braced. }
  rewrite (replace_whole _ _ _ _ (posixVar_braced_form name H) eq_refl)
    by apply length_pos_cons.
  apply substitutePosixVar_braced. now apply isName_run.
Qed.

Lemma percent_form_excludes name x :
  isPercentName name = true -> Regex.isPercentChar x = false ->
  Ascii.eqb "%" x = false ->
  JS.includes ("%" ++ name ++ "%") x = false.
Proof.
  intros H Hx Hne. cbn [append JS.includes]. rewrite includes_append.
  rewrite (isPercentName_excludes name x) by assumption.
  cbn [JS.includes]. now rewrite Hne.
Qed.

Lemma bang_form_excludes name x :
  isName name = true -> Regex.isNameChar x = false ->
  Ascii.eqb "!" x = false ->
  JS.includes ("!" ++ name ++ "!") x = false.
Proof.
  intros H Hx Hne. cbn [append JS.includes]. rewrite includes_append.
  rewrite (isName_excludes name x) by assumption.
  cbn [JS.includes]. now rewrite Hne.
Qed.

Lemma powershell_form_excludes name x :
  isName name = true -> Regex.isNameChar x = false ->
  Ascii.eqb "$" x = false -> Ascii.eqb ":" x = false ->
  JS.includes ("$env:" ++ name) x = false.
Proof.
  intros H Hx Hd Hc. cbn [append JS.includes].
  rewrite (isName_excludes name x) by assumption.
  rewrite Hd, Hc.
  assert (Regex.isNameChar "e" = true) as He by reflexivity.
  assert (Regex.isNameChar "n" = true) as Hn by reflexivity.
  assert (Regex.isNameChar "v" = true) as Hv by reflexivity.
  destruct (Ascii.eqb_spec "e" x) as [<-|]; [congruence|].
  destruct (Ascii.eqb_spec "n" x) as [<-|]; [congruence|].
  destruct (Ascii.eqb_spec "v" x) as [<-|]; [congruence|].
  reflexivity.
Qed.

Lemma expand_percent name :
  isPercentName name = true ->
  expandEnvironmentVariables h ("%" ++ name ++ "%")
  = match getEnvValue h name with
    | Some v =>
        Regex.replace Regex.posixVar (substitutePosixVar h)
          (if win32 h then
             Regex.replace Regex.powershellVar (substituteVar h)
               (Regex.replace Regex.bangVar (substituteVar h) v)
           else v)
    | None => "%" ++ name ++ "%"
    end.
Proof.
  intros H.
  rewrite expand_unfold by (apply (noMeta_false _ "%"); auto).
  rewrite (replace_whole _ _ _ _ (percentVar_form name H) eq_refl)
    by apply length_pos_cons.
  cbn [Regex.groups]. unfold substituteVar.
  destruct (getEnvValue h name) as [v|]; [reflexivity|].
  apply later_passes_inert. unfold inert.
  now rewrite !percent_form_excludes.
Qed.

Lemma expand_bang name :
  isName name = true ->
  expandEnvironmentVariables h ("!" ++ name ++ "!")
  = if win32 h then
      match getEnvValue h name with
      | Some v =>
          Regex.replace Regex.posixVar (substitutePosixVar h)
            (Regex.replace Regex.powershellVar (substituteVar h) v)
      | None => "!" ++ name ++ "!"
      end
    else "!" ++ name ++ "!".
Proof.
  intros H.
  rewrite expand_unfold by (apply (noMeta_false _ "!"); auto).
  rewrite percent_pass_untriggered by (now apply bang_form_excludes).
  destruct (win32 h).
  - rewrite (replace_whole _ _ _ _ (bangVar_form name H) eq_refl)
      by apply length_pos_cons.
    cbn [Regex.groups]. unfold substituteVar.
    destruct (getEnvValue h name) as [v|]; [reflexivity|].
    rewrite powershell_pass_untriggered, posix_pass_untriggered;
      try reflexivity; now apply bang_form_excludes.
  - apply posix_pass_untriggered. now apply bang_form_excludes.
Qed.

Lemma expand_powershell name :
  isName name = true ->
  expandEnvironmentVariables h ("$env:" ++ name)
  = match (if win32 h then getEnvValue h name else None) with
    | Some v => Regex.replace Regex.posixVar (substitutePosixVar h) v
    | None => substitutePosixVar h "$env" [Some "env"; None] ++ ":" ++ name
    end.
Proof.
  intros H.
  rewrite expand_unfold by (apply (noMeta_false _ "$"); auto).
  rewrite percent_pass_untriggered by (now apply powershell_form_excludes).
  destruct (win32 h).
  - rewrite bang_pass_untriggered by (now apply powershell_form_excludes).
    rewrite (replace_whole _ _ _ _ (powershellVar_form name H) eq_refl)
      by apply length_pos_cons.
    cbn [Regex.groups]. unfold substituteVar at 1.
    destruct (getEnvValue h name) as [v|]; [reflexivity|].
    now apply posix_pass_on_powershell.
  - now apply posix_pass_on_powershell.
Qed.

Lemma expand_nothing_resolves :
  (forall key, getEnvValue h key = None) ->
  forall s, expandEnvironmentVariables h s = s.
Proof.
  intros Hnone s.
  assert (forall matched groups, substituteVar h matched groups = matched)
    as Hvar.
  { intros matched [|[name|] groups]; unfold substituteVar;
      try reflexivity. now rewrite Hnone. }
  assert (forall matched groups, substitutePosixVar h matched groups = matched)
    as Hposix.
  { intros matched groups. unfold substitutePosixVar.
    destruct groups as [|[n1|] [|[n2|] groups]]; try reflexivity;
      rewrite Hnone; now destruct (JS.isEmpty _). }
  destruct (noMeta s) eqn:Hmeta; [now apply expand_noMeta|].
  rewrite expand_unfold by assumption.
  rewrite (replace_verbatim _ _ percentVar_positive Hvar).
  destruct (win32 h).
  - rewrite (replace_verbatim _ _ bangVar_positive Hvar).
    rewrite (replace_verbatim _ _ powershellVar_positive Hvar).
    apply (replace_verbatim _ _ posixVar_positive Hposix).
  - apply (replace_verbatim _ _ posixVar_positive Hposix).
Qed.

End Expansion.

(* ================================================================== *)
(** * Normalization before resolution *)
(* ================================================================== *)

Lemma includes_substring (a n : nat) (s : string) (x : ascii) :
  JS.includes (substring a n s) x = true -> JS.includes s x = true.
Proof.
  revert a n. induction s as [|c s IH]; intros a n H.
  - now destruct a, n.
  - destruct a as [|a].
    + destruct n as [|n]; [discriminate|]. simpl in *.
      apply orb_true_iff in H. apply orb_true_iff.
      destruct H as [H|H]; [now left | right; now apply (IH 0 n)].
    + simpl in *. apply orb_true_iff. right. now apply (IH a n).
Qed.

Lemma charsFrom_empty path : charsFrom path EmptyString.
Proof. intros x H. discriminate. Qed.

Lemma charsFrom_append path a b :
  charsFrom path a -> charsFrom path b -> charsFrom path (a ++ b).
Proof.
  intros Ha Hb x H. rewrite includes_append in H.
  apply orb_true_iff in H. destruct H; auto.
Qed.

Lemma charsFrom_literal path s :
  (forall x, JS.includes s x = true -> x = "/"%char \/ x = "."%char) ->
  charsFrom path s.
Proof. intros Hs x H. destruct (Hs x H); auto. Qed.

Lemma charsFrom_slash_dots path a :
  charsFrom path a -> charsFrom path (a ++ "/..").
Proof.
  intros Ha. apply charsFrom_append; [exact Ha|].
  apply charsFrom_literal. intros x H. cbn [JS.includes] in H.
  rewrite !orb_true_iff, !Ascii.eqb_eq in H.
  destruct H as [H|[H|[H|H]]]; auto; discriminate.
Qed.

Lemma charsFrom_slice path a b : charsFrom path (JS.slice path a b).
Proof.
  intros x H. right. right. unfold JS.slice in H.
  now apply includes_substring in H.
Qed.

Lemma charsFrom_sub path r a b :
  charsFrom path r -> charsFrom path (JS.slice r a b).
Proof.
  intros Hr x H. apply Hr. unfold JS.slice in H.
  now apply includes_substring in H.
Qed.

Lemma onSeparator_chars path allow i st :
  charsFrom path (Posix.res st) ->
  charsFrom path (fst (Posix.onSeparator path allow i st)).
Proof.
  intros Hres. unfold Posix.onSeparator, Posix.aboveRoot.
  repeat match goal with
         | |- context [if ?c then _ else _] => destruct c
         end;
    cbn [fst];
    auto using charsFrom_empty, charsFrom_slash_dots, charsFrom_sub,
      charsFrom_slice.
  - apply charsFrom_literal. intros x H. cbn [JS.includes] in H.
    rewrite !orb_true_iff, !Ascii.eqb_eq in H.
    destruct H as [H|[H|H]]; auto; discriminate.
  - apply charsFrom_literal. intros x H. cbn [JS.includes] in H.
    rewrite !orb_true_iff, !Ascii.eqb_eq in H.
    destruct H as [H|[H|H]]; auto; discriminate.
  - apply charsFrom_append; [exact Hres|].
    change ("/" ++ JS.slice path (Z.to_nat (Posix.lastSlash st + 1))
                     (Z.to_nat i))
      with (String "/" (JS.slice path (Z.to_nat (Posix.lastSlash st + 1))
                          (Z.to_nat i))).
    intros x H. cbn [JS.includes] in H. apply orb_true_iff in H.
    destruct H as [H|H].
    + left. apply Ascii.eqb_eq in H. now symmetry.
    + exact (charsFrom_slice path _ _ x H).
Qed.

Lemma normalizeStep_chars path allow i st st' :
  charsFrom path (Posix.res st) ->
  Posix.normalizeStep path allow i st = Some st' ->
  charsFrom path (Posix.res st').
Proof.
  intros Hres. unfold Posix.normalizeStep.
  destruct (if (i <? Posix.lenZ path)%Z then JS.charCodeAt path i
            else if Posix.isPosixPathSeparator (Posix.code st) then None
                 else Some "/"%char) as [c|]; [|discriminate].
  destruct (Posix.isPosixPathSeparator c).
  - pose proof (onSeparator_chars path allow i st Hres) as Hsep.
    destruct (Posix.onSeparator path allow i st) as [r l].
    intros [= <-]. exact Hsep.
  - destruct (Ascii.eqb c "." && negb (Posix.dots st =? -1)%Z);
      intros [= <-]; exact Hres.
Qed.

Lemma normalizeLoop_chars path allow n :
  forall i st,
    charsFrom path (Posix.res st) ->
    charsFrom path (Posix.res (Posix.normalizeLoop path allow n i st)).
Proof.
  induction n as [|n IH]; intros i st Hres; [exact Hres|].
  cbn [Posix.normalizeLoop].
  destruct (Posix.normalizeStep path allow i st) as [st'|] eqn:Hstep;
    [|exact Hres].
  apply IH. eapply normalizeStep_chars; eauto.
Qed.

Lemma normalizeString_chars path allow :
  charsFrom path (Posix.normalizeString path allow).
Proof. apply normalizeLoop_chars, charsFrom_empty. Qed.

Lemma posix_normalize_chars path : charsFrom path (Posix.normalize path).
Proof.
  unfold Posix.normalize.
  assert (forall s, s = "." \/ s = "/" \/ s = "./" -> charsFrom path s)
    as Hlit.
  { intros s [->|[->| ->]]; apply charsFrom_literal; intros x H;
      cbn [JS.includes] in H; rewrite ?orb_true_iff, ?Ascii.eqb_eq in H;
      intuition (auto; discriminate). }
  assert (charsFrom path "/") as Hslash by auto.
  pose proof (normalizeString_chars path (negb (Posix.isAbsolute path)))
    as Hp.
  repeat match goal with
         | |- context [if ?c then _ else _] => destruct c
         end;
    auto using charsFrom_append.
Qed.

Lemma posix_normalize_absolute path :
  Posix.isAbsolute path = true ->
  Posix.isAbsolute (Posix.normalize path) = true.
Proof.
  intros Habs. unfold Posix.normalize. rewrite Habs.
  destruct path as [|c s]; [discriminate|]. cbn [JS.isEmpty].
  destruct (JS.isEmpty _); [reflexivity|].
  destruct (Posix.isSlashAt _ _); reflexivity.
Qed.


Lemma normalize_fixed (P : PathModule) (h : Host) (y : string) :
  noMeta y = true -> startsWithHomePath y = false ->
  win32 h = false \/ Regex.msysPath y = None ->
  normalizePathBeforeResolution P h y = y.
Proof.
  intros Hmeta Hhome Hmsys.
  unfold normalizePathBeforeResolution, expandHomePath.
  rewrite expand_noMeta by assumption.
  unfold startsWithHomePath in Hhome.
  apply orb_false_iff in Hhome. destruct Hhome as [Hhome Heq].
  apply orb_false_iff in Hhome. destruct Hhome as [Hslash Hback].
  rewrite Heq, Hslash, Hback.
  unfold translateMsysPath.
  destruct Hmsys as [->| ->]; [reflexivity | now destruct (win32 h)].
Qed.

Lemma noMeta_spec (s : string) :
  noMeta s = true <->
  JS.includes s "%" = false /\ JS.includes s "$" = false
  /\ JS.includes s "!" = false.
Proof.
  unfold noMeta. rewrite !andb_true_iff, !negb_true_iff. tauto.
Qed.

Lemma noMeta_chars (path s : string) :
  charsFrom path s -> noMeta path = true -> noMeta s = true.
Proof.
  intros Hchars Hpath. apply noMeta_spec in Hpath.
  destruct Hpath as [Hp [Hd Hb]]. apply noMeta_spec.
  repeat split; apply not_true_is_false; intros H; apply Hchars in H;
    destruct H as [H|[H|H]]; congruence.
Qed.

Lemma absolute_not_home (s : string) :
  Posix.isAbsolute s = true -> startsWithHomePath s = false.
Proof.
  destruct s as [|c s]; [discriminate|]. simpl Posix.isAbsolute.
  intros H. apply Ascii.eqb_eq in H. subst c. reflexivity.
Qed.

Lemma noMeta_append (a b : string) :
  noMeta a = true -> noMeta b = true -> noMeta (a ++ b) = true.
Proof.
  rewrite !noMeta_spec, !includes_append.
  intros [-> [-> ->]] [-> [-> ->]]. auto.
Qed.

Lemma noMeta_sliceFrom (s : string) (n : nat) :
  noMeta s = true -> noMeta (JS.sliceFrom s n) = true.
Proof.
  rewrite !noMeta_spec. unfold JS.sliceFrom. intros [Hp [Hd Hb]].
  repeat split; apply not_true_is_false; intros H;
    apply includes_substring in H; congruence.
Qed.

(** The home directory joined with the rest of a home-relative path. *)
Lemma posix_join_home (home rest : string) :
  Posix.isAbsolute home = true -> noMeta home = true -> noMeta rest = true ->
  Posix.isAbsolute (Posix.join [home; rest]) = true
  /\ noMeta (Posix.join [home; rest]) = true.
Proof.
  intros Habs Hhome Hrest.
  destruct home as [|c home]; [discriminate|].
  unfold Posix.join. cbn [Posix.joinLoop String.length Nat.ltb Nat.leb].
  destruct rest as [|d rest]; cbn [Posix.joinLoop String.length Nat.ltb Nat.leb].
  - split; [now apply posix_normalize_absolute|].
    eapply noMeta_chars; [apply posix_normalize_chars | exact Hhome].
  - split.
    + apply posix_normalize_absolute. exact Habs.
    + eapply noMeta_chars; [apply posix_normalize_chars|].
      apply noMeta_append; [exact Hhome|].
      now apply (noMeta_append "/").
Qed.

Lemma posix_normalize_without_references (h : Host) (x : string) :
  win32 h = false -> noMeta x = true ->
  Posix.isAbsolute (homedir h) = true -> noMeta (homedir h) = true ->
  normalizePathBeforeResolution Posix.module h
    (normalizePathBeforeResolution Posix.module h x)
  = normalizePathBeforeResolution Posix.module h x.
Proof.
  intros Hwin Hx Habs Hhome.
  assert (forall y, Posix.isAbsolute y = true -> noMeta y = true ->
            normalizePathBeforeResolution Posix.module h y = y) as Hfixed.
  { intros y Hy1 Hy2. apply normalize_fixed; auto using absolute_not_home. }
  assert (normalizePathBeforeResolution Posix.module h x
          = if String.eqb x "~" then homedir h
            else if JS.startsWith x "~/" || JS.startsWith x "~\"
                 then Posix.join [homedir h; JS.sliceFrom x 2]
                 else x) as Hnorm.
  { unfold normalizePathBeforeResolution, expandHomePath, translateMsysPath.
    rewrite Hwin, expand_noMeta by assumption. cbn [negb join Posix.module].
    destruct (String.eqb x "~"); [reflexivity|].
    now destruct (JS.startsWith x "~/"), (JS.startsWith x "~\"). }
  destruct (String.eqb x "~") eqn:Heq.
  - rewrite Hnorm. now apply Hfixed.
  - destruct (JS.startsWith x "~/" || JS.startsWith x "~\") eqn:Hform.
    + rewrite Hnorm.
      destruct (posix_join_home (homedir h) (JS.sliceFrom x 2))
        as [Hj1 Hj2]; auto using noMeta_sliceFrom.
    + rewrite Hnorm. exact Hnorm.
Qed.

(* ================================================================== *)
(** * More on the classifier *)
(* ================================================================== *)

Section Selection.

Variable P : PathModule.
Variable resolvedCandidate : string.

Lemma selectStep_bestSoFar seen best entry :
  bestSoFar P resolvedCandidate seen best ->
  bestSoFar P resolvedCandidate (seen ++ [entry]) (selectStep P resolvedCandidate best entry).
Proof.
  destruct entry as [r0 f0]. intros Hinv. unfold selectStep.
  destruct (isWithin P resolvedCandidate r0) eqn:Hw.
  - destruct best as [[b fb]|].
    + destruct Hinv as [Hin [Hb Hmax]]. cbn [noBest].
      destruct (JS.isEmpty b) eqn:Hempty; cbn [orb].
      * apply isEmpty_true in Hempty. subst b. cbn [bestSoFar].
        split; [apply in_or_app; right; now left|]. split; [exact Hw|].
        intros r f Hin' Hr. apply in_app_or in Hin'.
        destruct Hin' as [Hin'|[Heq|[]]].
        -- specialize (Hmax r f Hin' Hr). simpl in Hmax. lia.
        -- injection Heq as <- <-. lia.
      * destruct (Nat.ltb_spec (String.length b) (String.length r0)).
        -- cbn [bestSoFar].
           split; [apply in_or_app; right; now left|]. split; [exact Hw|].
           intros r f Hin' Hr. apply in_app_or in Hin'.
           destruct Hin' as [Hin'|[Heq|[]]].
           ++ specialize (Hmax r f Hin' Hr). lia.
           ++ injection Heq as <- <-. lia.
        -- cbn [bestSoFar].
           split; [apply in_or_app; now left|]. split; [exact Hb|].
           intros r f Hin' Hr. apply in_app_or in Hin'.
           destruct Hin' as [Hin'|[Heq|[]]].
           ++ now apply (Hmax r f).
           ++ injection Heq as <- <-. lia.
    + cbn [noBest orb bestSoFar].
      split; [apply in_or_app; right; now left|]. split; [exact Hw|].
      intros r f Hin' Hr. apply in_app_or in Hin'.
      destruct Hin' as [Hin'|[Heq|[]]].
      * rewrite (Hinv r f Hin') in Hr. discriminate.
      * injection Heq as <- <-. lia.
  - destruct best as [[b fb]|]; cbn [bestSoFar] in *.
    + destruct Hinv as [Hin [Hb Hmax]].
      split; [apply in_or_app; now left|]. split; [exact Hb|].
      intros r f Hin' Hr. apply in_app_or in Hin'.
      destruct Hin' as [Hin'|[Heq|[]]].
      * now apply (Hmax r f).
      * injection Heq as <- <-. congruence.
    + intros r f Hin'. apply in_app_or in Hin'.
      destruct Hin' as [Hin'|[Heq|[]]].
      * now apply (Hinv r f).
      * injection Heq as <- <-. exact Hw.
Qed.

Lemma fold_bestSoFar roots :
  forall seen best,
    bestSoFar P resolvedCandidate seen best ->
    bestSoFar P resolvedCandidate (seen ++ roots)
      (List.fold_left (selectStep P resolvedCandidate) roots best).
Proof.
  induction roots as [|entry roots IH]; intros seen best Hinv.
  - now rewrite app_nil_r.
  - cbn [fold_left].
    replace (seen ++ entry :: roots)%list
      with ((seen ++ [entry]) ++ roots)%list
      by (now rewrite <- app_assoc).
    apply IH. now apply selectStep_bestSoFar.
Qed.

(** The result of the selection loop, whatever the order of the map. *)
Lemma selectBest_spec roots :
  bestSoFar P resolvedCandidate roots (selectBest P resolvedCandidate roots).
Proof.
  unfold selectBest.
  apply (fold_bestSoFar roots [] None). intros r f [].
Qed.

(** Two maps with the same entries select the same root. *)
Lemma selectBest_same_entries roots1 roots2 :
  NoDup (List.map fst roots2) ->
  (forall r f, In (r, f) roots1 <-> In (r, f) roots2) ->
  selectBest P resolvedCandidate roots1
  = selectBest P resolvedCandidate roots2.
Proof.
  intros Hnd Hsame.
  pose proof (selectBest_spec roots1) as H1.
  pose proof (selectBest_spec roots2) as H2.
  destruct (selectBest P resolvedCandidate roots1) as [[b1 f1]|];
    destruct (selectBest P resolvedCandidate roots2) as [[b2 f2]|];
    cbn [bestSoFar] in *.
  - destruct H1 as [Hin1 [Hw1 Hmax1]]. destruct H2 as [Hin2 [Hw2 Hmax2]].
    assert (b1 = b2) as ->.
    { apply (isWithin_same_length P resolvedCandidate); auto.
      apply Nat.le_antisymm.
      - apply (Hmax2 b1 f1); [now apply Hsame | exact Hw1].
      - apply (Hmax1 b2 f2); [now apply Hsame | exact Hw2]. }
    apply Hsame in Hin1.
    apply (In_get _ _ _ Hnd) in Hin1. apply (In_get _ _ _ Hnd) in Hin2.
    congruence.
  - destruct H1 as [Hin1 [Hw1 _]]. apply Hsame in Hin1.
    rewrite (H2 b1 f1 Hin1) in Hw1. discriminate.
  - destruct H2 as [Hin2 [Hw2 _]]. apply Hsame in Hin2.
    rewrite (H1 b2 f2 Hin2) in Hw2. discriminate.
  - reflexivity.
Qed.

End Selection.

Section MergedRoots.

Variable P : PathModule.
Variable h : Host.

Lemma buildRoots_In ctx exp r f :
  In (r, f) (buildRoots P h ctx exp) <->
  mentions P h (orEmpty ctx) r || mentions P h (orEmpty exp) r = true
  /\ f = mkRootFlags (mentions P h (orEmpty ctx) r)
                     (mentions P h (orEmpty exp) r).
Proof.
  split.
  - intros Hin. apply In_get in Hin; [|apply buildRoots_NoDup].
    rewrite buildRoots_get in Hin.
    destruct (mentions P h (orEmpty ctx) r || mentions P h (orEmpty exp) r);
      [|discriminate].
    injection Hin as <-. now split.
  - intros [Hm ->]. apply get_In. rewrite buildRoots_get. now rewrite Hm.
Qed.

Lemma mentions_same_entries l l' r :
  (forall e, In e l <-> In e l') ->
  mentions P h l r = mentions P h l' r.
Proof.
  intros Hsame. apply eq_true_iff_eq. unfold mentions.
  rewrite !existsb_exists. split; intros [e [Hin He]]; exists e;
    (split; [now apply Hsame | exact He]).
Qed.

Lemma buildRoots_same_entries ctx exp ctx' exp' :
  (forall e, In e (orEmpty ctx) <-> In e (orEmpty ctx')) ->
  (forall e, In e (orEmpty exp) <-> In e (orEmpty exp')) ->
  forall r f, In (r, f) (buildRoots P h ctx exp)
              <-> In (r, f) (buildRoots P h ctx' exp').
Proof.
  intros Hc He r f. rewrite !buildRoots_In.
  now rewrite (mentions_same_entries _ _ r Hc),
    (mentions_same_entries _ _ r He).
Qed.

Lemma merged_flags_not_none ctx exp r f :
  In (r, f) (buildRoots P h ctx exp) -> accessOfFlags f <> Access.none.
Proof.
  intros Hin. apply buildRoots_In in Hin. destruct Hin as [Hm ->].
  unfold accessOfFlags. cbn [context export].
  destruct (mentions P h (orEmpty ctx) r), (mentions P h (orEmpty exp) r);
    discriminate.
Qed.

(** What the classifier answers outside the vault: [none], or the class
    of a matching merged root that no other matching root exceeds. *)
Lemma getPathAccessType_selected candidatePath ctx exp vaultPath :
  candidatePath <> EmptyString ->
  isWithin P (resolveCandidate P h candidatePath vaultPath)
    (normalizePathForComparison P h (resolveRealPath P h vaultPath)) = false ->
  (getPathAccessType P h candidatePath ctx exp vaultPath = Access.none
   /\ forall r f, In (r, f) (buildRoots P h ctx exp) ->
        isWithin P (resolveCandidate P h candidatePath vaultPath) r = true ->
        r = EmptyString)
  \/ exists r f,
       In (r, f) (buildRoots P h ctx exp)
       /\ r <> EmptyString
       /\ isWithin P (resolveCandidate P h candidatePath vaultPath) r = true
       /\ getPathAccessType P h candidatePath ctx exp vaultPath
          = accessOfFlags f.
Proof.
  intros Hne Hout. rewrite getPathAccessType_outside_vault by assumption.
  pose proof (selectBest_spec P (resolveCandidate P h candidatePath vaultPath)
                (buildRoots P h ctx exp)) as Hsel.
  destruct (selectBest _ _ _) as [[b fb]|]; cbn [bestSoFar] in Hsel.
  - destruct Hsel as [Hin [Hw Hmax]].
    destruct (JS.isEmpty b) eqn:Hempty.
    + left. split; [reflexivity|]. intros r f Hin' Hr.
      apply isEmpty_true in Hempty. subst b.
      specialize (Hmax r f Hin' Hr). destruct r; [reflexivity|].
      simpl in Hmax. lia.
    + right. exists b, fb. apply isEmpty_false in Hempty. auto.
  - left. split; [reflexivity|]. intros r f Hin' Hr.
    rewrite (Hsel r f Hin') in Hr. discriminate.
Qed.

End MergedRoots.

(** X3.  The map [getPathAccessType] builds has one entry per resolved
    root; its entries are exactly the roots some non-blank entry of the
    two lists resolves to, the [context] flag of an entry tells whether
    a context entry resolves to it and the [export] flag whether an
    export entry does; so no entry has both flags unset and the last
    [return 'none'] of the function is never reached with a selected
    root. *)
Theorem merged_roots_invariant :
  forall (P : PathModule) (h : Host) (ctx exp : option (list string)),
    NoDup (List.map fst (buildRoots P h ctx exp))
    /\ (forall r f,
          In (r, f) (buildRoots P h ctx exp) <->
          (exists e, In e (orEmpty ctx ++ orEmpty exp) /\ isBlank e = false
                     /\ resolveRoot P h (JS.trim e) = r)
          /\ context f = mentions P h (orEmpty ctx) r
          /\ export f = mentions P h (orEmpty exp) r)
    /\ (forall r f,
          In (r, f) (buildRoots P h ctx exp) ->
          accessOfFlags f <> Access.none).
Proof.
  intros P h ctx exp. split; [apply buildRoots_NoDup|]. split.
  - intros r f. rewrite buildRoots_In. split.
    + intros [Hm ->]. cbn [context export]. split; [|now split].
      apply orb_true_iff in Hm.
      destruct Hm as [Hm|Hm]; apply mentions_elim in Hm;
        destruct Hm as [e [Hin [Hb Heq]]]; exists e;
        rewrite in_app_iff; auto.
    + intros [[e [Hin [Hb Heq]]] [Hc He]]. split.
      * apply in_app_iff in Hin. subst r. apply orb_true_iff.
        destruct Hin; [left | right]; now apply mentions_intro.
      * destruct f as [fc fe]. cbn [context export] in *. now subst.
  - apply merged_flags_not_none.
Qed.

(** X4.  The class depends on which entries the two lists hold, not on
    their order or on repetitions. *)
Theorem classification_ignores_order_and_duplicates :
  forall (P : PathModule) (h : Host) (candidatePath : string)
         (ctx exp ctx' exp' : option (list string)) (vaultPath : string),
    (forall e, In e (orEmpty ctx) <-> In e (orEmpty ctx')) ->
    (forall e, In e (orEmpty exp) <-> In e (orEmpty exp')) ->
    getPathAccessType P h candidatePath ctx exp vaultPath
    = getPathAccessType P h candidatePath ctx' exp' vaultPath.
Proof.
  intros P h candidatePath ctx exp ctx' exp' vaultPath Hc He.
  unfold getPathAccessType.
  rewrite (selectBest_same_entries P _ (buildRoots P h ctx exp)
             (buildRoots P h ctx' exp'));
    auto using buildRoots_NoDup, buildRoots_same_entries.
Qed.

Lemma classification_ignores_order_and_duplicates_witness :
  getPathAccessType Posix.module Examples.plainHost "/a/b/c"
    (Some ["/a"; "/a/b"]) (Some ["/a"]) "/vault"
  = getPathAccessType Posix.module Examples.plainHost "/a/b/c"
      (Some ["/a/b"; "/a"; "/a/b"]) (Some ["/a"; "/a"]) "/vault".
Proof.
  apply classification_ignores_order_and_duplicates;
    intros e; simpl; tauto.
Defined.

Ltac wrong_class :=
  intros;
  repeat match goal with
         | H : _ \/ _ |- _ => destruct H
         end;
  try discriminate; try congruence.

(** X5.  A class is never granted without an entry for it: [context]
    and [readwrite] are only returned when some non-blank context entry
    resolves to a root that contains the resolved candidate, [export]
    and [readwrite] only when some export entry does, and then the
    matching narrow predicate accepts the candidate on the list as
    [addRoot] reads it.  Any class but [none] needs a non-empty
    candidate, and any class but [none] and [vault] a candidate outside
    the vault. *)
Theorem class_is_backed_by_an_entry :
  forall (P : PathModule) (h : Host) (candidatePath : string)
         (ctx exp : option (list string)) (vaultPath : string),
    let resolvedCandidate := resolveCandidate P h candidatePath vaultPath in
    let class := getPathAccessType P h candidatePath ctx exp vaultPath in
    (class = Access.context \/ class = Access.readwrite ->
     (exists e, In e (orEmpty ctx) /\ isBlank e = false
                /\ isWithin P resolvedCandidate (resolveRoot P h (JS.trim e))
                   = true)
     /\ isPathInAllowedContextPaths P h candidatePath
          (cleanEntries (orEmpty ctx)) vaultPath = true)
    /\ (class = Access.export \/ class = Access.readwrite ->
        (exists e, In e (orEmpty exp) /\ isBlank e = false
                   /\ isWithin P resolvedCandidate
                        (resolveRoot P h (JS.trim e)) = true)
        /\ isPathInAllowedExportPaths P h candidatePath
             (cleanEntries (orEmpty exp)) vaultPath = true)
    /\ (class <> Access.none -> candidatePath <> EmptyString)
    /\ (class <> Access.none -> class <> Access.vault ->
        isPathWithinVault P h candidatePath vaultPath = false).
Proof.
  intros P h candidatePath ctx exp vaultPath resolvedCandidate class.
  assert (forall entries e,
            In e entries -> isBlank e = false ->
            isWithin P resolvedCandidate (resolveRoot P h (JS.trim e)) = true ->
            List.existsb
              (fun e' => isWithin P resolvedCandidate (resolveRoot P h e'))
              (cleanEntries entries) = true) as Hclean.
  { intros entries e Hin Hb Hw. apply existsb_exists.
    exists (JS.trim e). split; [|exact Hw].
    unfold cleanEntries. apply in_map. apply filter_In.
    split; [exact Hin | now rewrite Hb]. }
  destruct (JS.isEmpty candidatePath) eqn:Hempty.
  { assert (class = Access.none) as Hnone
      by (unfold class, getPathAccessType; now rewrite Hempty).
    rewrite Hnone. repeat split; wrong_class. }
  apply isEmpty_false in Hempty.
  destruct (isWithin P resolvedCandidate
              (normalizePathForComparison P h (resolveRealPath P h vaultPath)))
    eqn:Hvault.
  { assert (class = Access.vault) as Hv.
    { unfold class, getPathAccessType.
      apply isEmpty_false in Hempty. rewrite Hempty.
      fold resolvedCandidate. now rewrite Hvault. }
    rewrite Hv. repeat split; wrong_class. }
  assert (isPathWithinVault P h candidatePath vaultPath = false) as Hnotvault
    by exact Hvault.
  destruct (getPathAccessType_selected P h candidatePath ctx exp vaultPath
              Hempty Hvault) as [[Hnone _]|[r [f [Hin [Hr [Hw Hclass]]]]]].
  { fold class in Hnone. rewrite Hnone. repeat split; wrong_class. }
  fold class in Hclass. fold resolvedCandidate in Hw.
  apply buildRoots_In in Hin. destruct Hin as [_ ->].
  unfold accessOfFlags in Hclass. cbn [context export] in Hclass.
  assert (forall entries,
            mentions P h entries r = true ->
            exists e, In e entries /\ isBlank e = false
                      /\ isWithin P resolvedCandidate
                           (resolveRoot P h (JS.trim e)) = true) as Hback.
  { intros entries Hm. apply mentions_elim in Hm.
    destruct Hm as [e [Hin [Hb Heq]]]. exists e. now rewrite Heq. }
  destruct (predicates_existsb P h candidatePath
              (cleanEntries (orEmpty ctx)) vaultPath) as [_ Hpc].
  destruct (predicates_existsb P h candidatePath
              (cleanEntries (orEmpty exp)) vaultPath) as [Hpe _].
  fold resolvedCandidate in Hpc, Hpe. rewrite Hpc, Hpe.
  destruct (mentions P h (orEmpty ctx) r) eqn:Hmc;
    destruct (mentions P h (orEmpty exp) r) eqn:Hme;
    cbn [andb] in Hclass; rewrite Hclass;
    repeat split; try (wrong_class; fail);
    try (now apply Hback);
    try (destruct (Hback _ Hmc) as [e [Hin [Hb Hwe]]];
         now apply (Hclean _ e));
    try (destruct (Hback _ Hme) as [e [Hin [Hb Hwe]]];
         now apply (Hclean _ e)).
Qed.

(** X6.  A non-empty candidate that lies within the (non-empty) root of
    some non-blank entry of either list is never classified [none]. *)
Theorem matching_entry_is_classified :
  forall (P : PathModule) (h : Host) (candidatePath : string)
         (ctx exp : option (list string)) (vaultPath e : string),
    candidatePath <> EmptyString ->
    In e (orEmpty ctx ++ orEmpty exp) ->
    isBlank e = false ->
    resolveRoot P h (JS.trim e) <> EmptyString ->
    isWithin P (resolveCandidate P h candidatePath vaultPath)
      (resolveRoot P h (JS.trim e)) = true ->
    getPathAccessType P h candidatePath ctx exp vaultPath <> Access.none.
Proof.
  intros P h candidatePath ctx exp vaultPath e Hne Hin Hb Hroot Hw.
  destruct (isWithin P (resolveCandidate P h candidatePath vaultPath)
              (normalizePathForComparison P h (resolveRealPath P h vaultPath)))
    eqn:Hvault.
  - unfold getPathAccessType. apply isEmpty_false in Hne.
    rewrite Hne, Hvault. discriminate.
  - assert (exists f, In (resolveRoot P h (JS.trim e), f)
                        (buildRoots P h ctx exp)) as [f Hf].
    { eexists. apply buildRoots_In. split; [|reflexivity].
      apply in_app_iff in Hin. apply orb_true_iff.
      destruct Hin; [left | right]; now apply mentions_intro. }
    destruct (getPathAccessType_selected P h candidatePath ctx exp vaultPath
                Hne Hvault) as [[_ Hall]|[r [f' [Hin' [_ [_ ->]]]]]].
    + exfalso. apply Hroot. now apply (Hall _ f).
    + now apply (merged_flags_not_none P h ctx exp r).
Qed.

Lemma class_is_backed_by_an_entry_witness :
  (exists e, In e ["/a"; " /a/b "] /\ isBlank e = false
             /\ isWithin Posix.module
                  (resolveCandidate Posix.module Examples.plainHost
                     "/a/b/c" "/vault")
                  (resolveRoot Posix.module Examples.plainHost (JS.trim e))
                = true)
  /\ isPathInAllowedContextPaths Posix.module Examples.plainHost "/a/b/c"
       (cleanEntries ["/a"; " /a/b "]) "/vault" = true.
Proof.
  apply (proj1 (class_is_backed_by_an_entry Posix.module Examples.plainHost
                  "/a/b/c" (Some ["/a"; " /a/b "]) (Some ["/a"]) "/vault")).
  left. reflexivity.
Defined.

Lemma matching_entry_is_classified_witness :
  getPathAccessType Posix.module Examples.plainHost "/docs/new/readme.md"
    (Some [" /docs "]) (Some ["/out"]) "/vault" <> Access.none.
Proof.
  apply (matching_entry_is_classified Posix.module Examples.plainHost
           "/docs/new/readme.md" (Some [" /docs "]) (Some ["/out"])
           "/vault" " /docs ").
  - discriminate.
  - left. reflexivity.
  - reflexivity.
  - discriminate.
  - reflexivity.
Defined.

(** X1.  [isPathWithinVault] and the classifier agree on the vault: the
    class [vault] is only given to a candidate the predicate accepts,
    and a non-empty candidate the predicate accepts is classified
    [vault], whatever the context and export lists. *)
Theorem isPathWithinVault_agrees_with_classifier :
  forall (P : PathModule) (h : Host) (candidatePath : string)
         (ctx exp : option (list string)) (vaultPath : string),
    (getPathAccessType P h candidatePath ctx exp vaultPath = Access.vault ->
     isPathWithinVault P h candidatePath vaultPath = true)
    /\ (candidatePath <> EmptyString ->
        isPathWithinVault P h candidatePath vaultPath = true ->
        getPathAccessType P h candidatePath ctx exp vaultPath = Access.vault).
Proof.
  intros P h candidatePath ctx exp vaultPath.
  unfold isPathWithinVault. split.
  - intros Hv.
    destruct (JS.isEmpty candidatePath) eqn:Hempty.
    + unfold getPathAccessType in Hv. rewrite Hempty in Hv. discriminate.
    + apply isEmpty_false in Hempty.
      destruct (isWithin P (resolveCandidate P h candidatePath vaultPath) _)
        eqn:Hw; [reflexivity|].
      rewrite getPathAccessType_outside_vault in Hv by assumption.
      destruct (selectBest _ _ _) as [[b f]|]; [|discriminate].
      destruct (JS.isEmpty b); [discriminate|].
      now apply accessOfFlags_not_vault in Hv.
  - intros Hne Hw. unfold getPathAccessType.
    apply isEmpty_false in Hne. now rewrite Hne, Hw.
Qed.

Lemma isPathWithinVault_agrees_with_classifier_witness :
  getPathAccessType Posix.module Examples.plainHost "notes/../a.md"
    (Some ["/docs"]) None "/vault" = Access.vault.
Proof.
  apply (proj2 (isPathWithinVault_agrees_with_classifier Posix.module
                  Examples.plainHost "notes/../a.md" (Some ["/docs"]) None
                  "/vault")).
  - discriminate.
  - reflexivity.
Defined.

(** X8.  The export predicate and the context predicate are the same
    function of their list; on a concatenation of two lists the answer
    is the disjunction of the answers on each (so the empty list allows
    nothing and further entries never revoke), and the answer is [true]
    exactly when the resolved candidate lies within the resolved form
    of some entry. *)
Theorem list_predicates_are_unions :
  forall (P : PathModule) (h : Host) (candidatePath : string)
         (allowed more : list string) (vaultPath : string),
    isPathInAllowedExportPaths P h candidatePath allowed vaultPath
    = isPathInAllowedContextPaths P h candidatePath allowed vaultPath
    /\ isPathInAllowedExportPaths P h candidatePath (allowed ++ more) vaultPath
       = isPathInAllowedExportPaths P h candidatePath allowed vaultPath
         || isPathInAllowedExportPaths P h candidatePath more vaultPath
    /\ (isPathInAllowedExportPaths P h candidatePath allowed vaultPath = true
        <-> exists e, In e allowed
                      /\ isWithin P (resolveCandidate P h candidatePath vaultPath)
                           (normalizePathForComparison P h
                              (resolveRealPath P h
                                 (normalizePathBeforeResolution P h e)))
                         = true).
Proof.
  intros P h candidatePath allowed more vaultPath.
  destruct (predicates_existsb P h candidatePath allowed vaultPath)
    as [He Hc].
  destruct (predicates_existsb P h candidatePath more vaultPath)
    as [Hm _].
  destruct (predicates_existsb P h candidatePath (allowed ++ more) vaultPath)
    as [Ha _].
  rewrite He, Hc, Hm, Ha. split; [reflexivity|]. split.
  - apply existsb_app.
  - rewrite existsb_exists. reflexivity.
Qed.

(* ================================================================== *)
(** * Resolved paths are absolute on POSIX *)
(* ================================================================== *)

Lemma posix_isAbsolute_append (a b : string) :
  Posix.isAbsolute a = true -> Posix.isAbsolute (a ++ b) = true.
Proof. destruct a; [discriminate | exact (fun H => H)]. Qed.

Lemma posix_resolveLoop_absolute (cwd : string) (revArgs : list string) :
  Posix.isAbsolute cwd = true ->
  forall acc, snd (Posix.resolveLoop cwd revArgs acc) = true.
Proof.
  intros Hcwd. induction revArgs as [|p rest IH]; intros acc.
  - cbn [Posix.resolveLoop]. destruct cwd; [discriminate|]. exact Hcwd.
  - cbn [Posix.resolveLoop]. destruct (JS.isEmpty p); [apply IH|].
    destruct (Posix.isAbsolute p); [reflexivity | apply IH].
Qed.

Lemma posix_resolve_absolute (cwd : string) (args : list string) :
  Posix.isAbsolute cwd = true ->
  Posix.isAbsolute (Posix.resolve cwd args) = true.
Proof.
  intros Hcwd. unfold Posix.resolve.
  pose proof (posix_resolveLoop_absolute cwd (List.rev args) Hcwd
                EmptyString) as Hloop.
  destruct (Posix.resolveLoop cwd (List.rev args) EmptyString) as [r a].
  cbn [snd] in Hloop. subst a. reflexivity.
Qed.

Lemma posix_joinLoop_absolute (args : list string) (joined : string) :
  Posix.isAbsolute joined = true ->
  exists j, Posix.joinLoop args (Some joined) = Some j
            /\ Posix.isAbsolute j = true.
Proof.
  revert joined. induction args as [|a args IH]; intros joined Habs.
  - now exists joined.
  - cbn [Posix.joinLoop]. destruct (0 <? String.length a)%nat.
    + apply IH. now apply posix_isAbsolute_append.
    + now apply IH.
Qed.

Lemma posix_join_absolute (first : string) (rest : list string) :
  Posix.isAbsolute first = true ->
  Posix.isAbsolute (Posix.join (first :: rest)) = true.
Proof.
  intros Habs. unfold Posix.join. cbn [Posix.joinLoop].
  destruct first as [|c first]; [discriminate|].
  cbn [String.length Nat.ltb Nat.leb].
  destruct (posix_joinLoop_absolute rest (String c first) Habs)
    as [j [-> Hj]].
  now apply posix_normalize_absolute.
Qed.

Section AbsoluteResults.

Variable h : Host.
Hypothesis cwd_absolute : Posix.isAbsolute (cwd h) = true.
Hypothesis realpath_absolute :
  forall p r, realpathFn h p = Some r -> Posix.isAbsolute r = true.

Lemma posix_walkUp_absolute (absolute : string) :
  Posix.isAbsolute absolute = true ->
  forall fuel current suffix r,
    walkUp Posix.module h fuel absolute current suffix = Some r ->
    Posix.isAbsolute r = true.
Proof.
  intros Habs. induction fuel as [|fuel IH]; intros current suffix r;
    [discriminate|].
  rewrite walkUp_unfold. unfold probe.
  destruct (existsSync h current).
  - destruct (realpathFn h current) as [re|] eqn:Hre.
    + intros [= <-]. apply realpath_absolute in Hre.
      destruct (0 <? List.length suffix)%nat; [|exact Hre].
      now apply posix_join_absolute.
    + destruct (String.eqb _ _); [now intros [= <-] | apply IH].
  - destruct (String.eqb _ _); [now intros [= <-] | apply IH].
Qed.

Lemma posix_resolveRealPath_absolute (p : string) :
  Posix.isAbsolute (resolveRealPath Posix.module h p) = true.
Proof.
  unfold resolveRealPath.
  destruct (realpathFn h p) as [r|] eqn:Hr; [now apply (realpath_absolute p)|].
  pose proof (posix_resolve_absolute (cwd h) [p] cwd_absolute) as Habs.
  cbn [resolve Posix.module].
  destruct (walkUp Posix.module h _ _ _ _) as [r|] eqn:Hwalk; [|exact Habs].
  now apply (posix_walkUp_absolute _ Habs _ _ _ _ Hwalk).
Qed.

Hypothesis posix_platform : win32 h = false.

Lemma posix_comparison_absolute (p : string) :
  Posix.isAbsolute p = true ->
  Posix.isAbsolute (normalizePathForComparison Posix.module h p) = true.
Proof.
  intros Habs. unfold normalizePathForComparison, normalizeWindowsPathPrefix.
  rewrite posix_platform. destruct p; [discriminate|].
  cbn [JS.isEmpty negb normalize Posix.module].
  now apply posix_normalize_absolute.
Qed.

Lemma posix_resolveRoot_absolute (entry : string) :
  Posix.isAbsolute (resolveRoot Posix.module h entry) = true.
Proof.
  unfold resolveRoot.
  apply posix_comparison_absolute, posix_resolveRealPath_absolute.
Qed.

End AbsoluteResults.

(** X9.  On a POSIX host whose working directory is absolute and whose
    [realpath] returns absolute paths, [resolveRealPath] always returns
    an absolute path, and so are the resolved candidate and every root
    of the merged map; in particular no root is the empty string. *)
Theorem posix_resolved_paths_are_absolute :
  forall h : Host,
    win32 h = false ->
    Posix.isAbsolute (cwd h) = true ->
    (forall p r, realpathFn h p = Some r -> Posix.isAbsolute r = true) ->
    (forall p, Posix.isAbsolute (resolveRealPath Posix.module h p) = true)
    /\ (forall candidatePath vaultPath,
          Posix.isAbsolute
            (resolveCandidate Posix.module h candidatePath vaultPath) = true)
    /\ (forall ctx exp r f,
          In (r, f) (buildRoots Posix.module h ctx exp) ->
          Posix.isAbsolute r = true /\ r <> EmptyString).
Proof.
  intros h Hwin Hcwd Hreal. split; [|split].
  - intros p. now apply posix_resolveRealPath_absolute.
  - intros candidatePath vaultPath. unfold resolveCandidate.
    apply posix_comparison_absolute; auto.
    now apply posix_resolveRealPath_absolute.
  - intros ctx exp r f Hin.
    apply buildRoots_origin in Hin. destruct Hin as [e [_ [_ ->]]].
    pose proof (posix_resolveRoot_absolute h Hcwd Hreal Hwin (JS.trim e))
      as Habs.
    split; [exact Habs|]. intros Heq. rewrite Heq in Habs. discriminate.
Qed.

Lemma symlinkHost_realpath_absolute (p r : string) :
  realpathFn Examples.symlinkHost p = Some r -> Posix.isAbsolute r = true.
Proof.
  intros H. apply get_In in H. simpl in H.
  repeat (destruct H as [H|H]; [injection H as <- <-; reflexivity|]).
  contradiction.
Qed.

Lemma plainHost_realpath_absolute (p r : string) :
  realpathFn Examples.plainHost p = Some r -> Posix.isAbsolute r = true.
Proof.
  intros H. apply get_In in H. simpl in H.
  repeat (destruct H as [H|H]; [injection H as <- <-; reflexivity|]).
  contradiction.
Qed.

Lemma posix_resolved_paths_are_absolute_witness :
  Posix.isAbsolute
    (resolveRealPath Posix.module Examples.symlinkHost "ctx/../x/new.txt")
  = true.
Proof.
  apply (proj1 (posix_resolved_paths_are_absolute Examples.symlinkHost
                  eq_refl eq_refl symlinkHost_realpath_absolute)).
Defined.

(** X10.  On such a host the class is [none] exactly when the candidate
    is empty, or is outside the vault and within no root of the merged
    map. *)
Theorem posix_denied_iff_nothing_matches :
  forall (h : Host) (candidatePath : string) (ctx exp : option (list string))
         (vaultPath : string),
    win32 h = false ->
    Posix.isAbsolute (cwd h) = true ->
    (forall p r, realpathFn h p = Some r -> Posix.isAbsolute r = true) ->
    getPathAccessType Posix.module h candidatePath ctx exp vaultPath
    = Access.none
    <-> candidatePath = EmptyString
        \/ (isPathWithinVault Posix.module h candidatePath vaultPath = false
            /\ anyRootMatches Posix.module
                 (resolveCandidate Posix.module h candidatePath vaultPath)
                 (buildRoots Posix.module h ctx exp) = false).
Proof.
  intros h candidatePath ctx exp vaultPath Hwin Hcwd Hreal.
  destruct (posix_resolved_paths_are_absolute h Hwin Hcwd Hreal)
    as [_ [_ Hroots]].
  destruct (JS.isEmpty candidatePath) eqn:Hempty.
  { apply isEmpty_true in Hempty. subst candidatePath.
    split; [now left | reflexivity]. }
  apply isEmpty_false in Hempty.
  destruct (isPathWithinVault Posix.module h candidatePath vaultPath)
    eqn:Hvault.
  { assert (getPathAccessType Posix.module h candidatePath ctx exp vaultPath
            = Access.vault) as ->.
    { unfold getPathAccessType. apply isEmpty_false in Hempty.
      rewrite Hempty. unfold isPathWithinVault in Hvault. now rewrite Hvault. }
    split; [discriminate|]. intros [?|[? _]]; congruence. }
  destruct (getPathAccessType_selected Posix.module h candidatePath ctx exp
              vaultPath Hempty Hvault)
    as [[Hnone Hall]|[r [f [Hin [Hr [Hw Hclass]]]]]].
  - split; [|intros _; exact Hnone]. intros _. right. split; [reflexivity|].
    apply not_true_is_false. unfold anyRootMatches.
    rewrite existsb_exists. intros [[r f] [Hin Hw]]. cbn [fst] in Hw.
    destruct (Hroots ctx exp r f Hin) as [_ Hne]. apply Hne.
    now apply (Hall r f).
  - split.
    + intros Hnone. rewrite Hclass in Hnone.
      now apply (merged_flags_not_none Posix.module h ctx exp r) in Hnone.
    + intros [Hc|[_ Hany]]; [contradiction|]. exfalso.
      assert (anyRootMatches Posix.module
                (resolveCandidate Posix.module h candidatePath vaultPath)
                (buildRoots Posix.module h ctx exp) = true) as Hyes.
      { unfold anyRootMatches. apply existsb_exists. now exists (r, f). }
      congruence.
Qed.

Lemma posix_denied_iff_nothing_matches_witness :
  getPathAccessType Posix.module Examples.plainHost "/etc/passwd"
    (Some ["/docs"]) (Some ["/out"]) "/vault" = Access.none.
Proof.
  apply (posix_denied_iff_nothing_matches Examples.plainHost "/etc/passwd"
           (Some ["/docs"]) (Some ["/out"]) "/vault" eq_refl eq_refl
           plainHost_realpath_absolute).
  right. split; reflexivity.
Defined.

(* ================================================================== *)
(** * Containment *)
(* ================================================================== *)

Lemma prefix_trans (a b c : string) :
  String.prefix a b = true -> String.prefix b c = true ->
  String.prefix a c = true.
Proof.
  revert b c. induction a as [|x a IH]; intros b c Hab Hbc.
  - destruct c; reflexivity.
  - destruct b as [|y b]; [discriminate|].
    destruct c as [|z c]; [discriminate|].
    apply prefix_cons in Hab. apply prefix_cons in Hbc.
    destruct Hab as [-> Hab]. destruct Hbc as [-> Hbc].
    apply prefix_cons. split; [reflexivity | now apply (IH b c)].
Qed.

Lemma prefix_append_both (a b t : string) :
  String.prefix a b = true -> String.prefix a (b ++ t) = true.
Proof.
  intros H. apply (prefix_trans a b); [exact H | apply prefix_append].
Qed.

Section Containment.

Variable P : PathModule.

(** Containment is transitive. *)
Lemma isWithin_trans (a b c : string) :
  isWithin P a b = true -> isWithin P b c = true -> isWithin P a c = true.
Proof.
  rewrite !isWithin_spec. intros [->|Hab] [->|Hbc]; auto.
  right. unfold JS.startsWith in *.
  apply (prefix_trans _ (b ++ sep P)); [|exact Hab].
  now apply prefix_append_both.
Qed.

End Containment.

(** X2.  Containment is transitive, so a non-empty candidate that lies
    within any path that itself lies within the resolved vault root is
    in the vault for the predicate and for the classifier: a context or
    export root inside the vault never lowers the class of what it
    holds. *)
Theorem roots_inside_vault_are_vault :
  forall (P : PathModule) (h : Host) (candidatePath : string)
         (ctx exp : option (list string)) (vaultPath root : string),
    candidatePath <> EmptyString ->
    isWithin P root
      (normalizePathForComparison P h (resolveRealPath P h vaultPath)) = true ->
    isWithin P (resolveCandidate P h candidatePath vaultPath) root = true ->
    getPathAccessType P h candidatePath ctx exp vaultPath = Access.vault
    /\ isPathWithinVault P h candidatePath vaultPath = true.
Proof.
  intros P h candidatePath ctx exp vaultPath root Hne Hroot Hcand.
  pose proof (isWithin_trans P _ _ _ Hcand Hroot) as Hvault.
  split; [|exact Hvault].
  unfold getPathAccessType. apply isEmpty_false in Hne.
  now rewrite Hne, Hvault.
Qed.

Lemma roots_inside_vault_are_vault_witness :
  getPathAccessType Posix.module Examples.plainHost "/vault/out/report.pdf"
    None (Some ["/vault/out"]) "/vault" = Access.vault
  /\ isPathWithinVault Posix.module Examples.plainHost
       "/vault/out/report.pdf" "/vault" = true.
Proof.
  apply (roots_inside_vault_are_vault Posix.module Examples.plainHost
           "/vault/out/report.pdf" None (Some ["/vault/out"]) "/vault"
           (resolveRoot Posix.module Examples.plainHost "/vault/out")).
  - discriminate.
  - reflexivity.
  - reflexivity.
Defined.

Lemma prefix_longer (a b c : string) :
  String.prefix a c = true -> String.prefix b c = true ->
  String.length a <= String.length b -> String.prefix a b = true.
Proof.
  revert b c. induction a as [|x a IH]; intros b c Ha Hb Hlen.
  - destruct b; reflexivity.
  - destruct b as [|y b]; [simpl in Hlen; lia|].
    destruct c as [|z c]; [discriminate|].
    apply prefix_cons in Ha. apply prefix_cons in Hb.
    destruct Ha as [-> Ha]. destruct Hb as [-> Hb].
    apply prefix_cons. split; [reflexivity|].
    apply (IH b c); auto. simpl in Hlen. lia.
Qed.

(** X7.  With a separator of one character, two roots that both contain
    a candidate are nested: the longer one lies within the shorter one.
    The longest matching root is therefore the innermost one. *)
Theorem matching_roots_are_nested :
  forall (P : PathModule) (candidate r1 r2 : string),
    String.length (sep P) = 1 ->
    isWithin P candidate r1 = true ->
    isWithin P candidate r2 = true ->
    String.length r1 <= String.length r2 ->
    isWithin P r2 r1 = true.
Proof.
  intros P candidate r1 r2 Hsep H1 H2 Hlen.
  pose proof (isWithin_prefix P _ _ H2) as Hp2.
  apply isWithin_spec in H1. apply isWithin_spec.
  destruct H1 as [->|H1].
  - left. apply (prefix_same_length r2 r1 r1); auto using prefix_refl.
    apply prefix_length in Hp2. lia.
  - destruct (Nat.eq_dec (String.length r1) (String.length r2)) as [Heq|Hneq].
    + left. symmetry.
      apply (prefix_same_length r1 r2 candidate); auto.
      unfold JS.startsWith in H1. now apply prefix_append_l in H1.
    + right. unfold JS.startsWith in *.
      apply (prefix_longer _ _ candidate); auto.
      rewrite length_append. lia.
Qed.

Lemma matching_roots_are_nested_witness :
  isWithin Posix.module "/a/b" "/a" = true.
Proof.
  apply (matching_roots_are_nested Posix.module "/a/b/c" "/a" "/a/b");
    reflexivity || (simpl; lia).
Defined.

(* ================================================================== *)
(** * Lookup of environment variables *)
(* ================================================================== *)

Lemma lowerChar_idempotent (c : ascii) :
  JS.lowerChar (JS.lowerChar c) = JS.lowerChar c.
Proof. destruct c as [[] [] [] [] [] [] [] []]; reflexivity. Qed.

Lemma lowerChar_upperChar (c : ascii) :
  JS.lowerChar (JS.upperChar c) = JS.lowerChar c.
Proof. destruct c as [[] [] [] [] [] [] [] []]; reflexivity. Qed.

Lemma toLowerCase_idempotent (s : string) :
  JS.toLowerCase (JS.toLowerCase s) = JS.toLowerCase s.
Proof.
  unfold JS.toLowerCase.
  induction s as [|c s IH]; [reflexivity|].
  cbn [JS.mapChars]. now rewrite lowerChar_idempotent, IH.
Qed.

Lemma toLowerCase_toUpperCase (s : string) :
  JS.toLowerCase (JS.toUpperCase s) = JS.toLowerCase s.
Proof.
  unfold JS.toLowerCase, JS.toUpperCase.
  induction s as [|c s IH]; [reflexivity|].
  cbn [JS.mapChars]. now rewrite lowerChar_upperChar, IH.
Qed.

Lemma get_None_iff {V : Type} (m : list (string * V)) (k : string) :
  StrMap.get m k = None <-> ~ In k (List.map fst m).
Proof.
  induction m as [|[k' v'] m IH]; simpl.
  - tauto.
  - destruct (String.eqb_spec k' k) as [->|Hne].
    + split; [discriminate | intros H; exfalso; apply H; now left].
    + rewrite IH. tauto.
Qed.

Lemma get_Some_key {V : Type} (m : list (string * V)) (k : string) (v : V) :
  StrMap.get m k = Some v -> In k (List.map fst m).
Proof.
  intros H. destruct (StrMap.get m k) eqn:E; [|discriminate].
  destruct (in_dec string_dec k (List.map fst m)) as [Hin|Hnot];
    [exact Hin|].
  apply get_None_iff in Hnot. congruence.
Qed.

Section EnvLookup.

Variable h : Host.

Lemma envNameMatches_refl key : envNameMatches h key key.
Proof. unfold envNameMatches. now destruct (win32 h). Qed.

Lemma getEnvValue_exact key v :
  envLookup h key = Some v -> getEnvValue h key = Some v.
Proof. unfold getEnvValue. now intros ->. Qed.

Lemma getEnvValue_found key v :
  getEnvValue h key = Some v ->
  exists name, In (name, v) (env h) /\ envNameMatches h name key.
Proof.
  unfold getEnvValue, envNameMatches, envLookup.
  destruct (StrMap.get (env h) key) as [v0|] eqn:Hexact.
  { intros [= <-]. exists key. split; [now apply get_In|].
    now destruct (win32 h). }
  destruct (win32 h); cbn [negb]; [|discriminate].
  destruct (StrMap.get (env h) (JS.toUpperCase key)) as [v1|] eqn:Hupper.
  { intros [= <-]. exists (JS.toUpperCase key).
    split; [now apply get_In | apply toLowerCase_toUpperCase]. }
  destruct (StrMap.get (env h) (JS.toLowerCase key)) as [v2|] eqn:Hlower.
  { intros [= <-]. exists (JS.toLowerCase key).
    split; [now apply get_In | apply toLowerCase_idempotent]. }
  destruct (List.find _ _) as [matchKey|] eqn:Hfind; [|discriminate].
  apply find_some in Hfind. destruct Hfind as [_ Hmatch].
  apply String.eqb_eq in Hmatch.
  destruct (JS.isEmpty matchKey); [discriminate|].
  intros Hv. exists matchKey. split; [now apply get_In | exact Hmatch].
Qed.

Lemma getEnvValue_missing key :
  key <> EmptyString ->
  getEnvValue h key = None ->
  forall name, In name (List.map fst (env h)) -> ~ envNameMatches h name key.
Proof.
  intros Hkey. unfold getEnvValue, envNameMatches, envLookup.
  destruct (StrMap.get (env h) key) as [v0|] eqn:Hexact; [discriminate|].
  destruct (win32 h); cbn [negb].
  - destruct (StrMap.get (env h) (JS.toUpperCase key)); [discriminate|].
    destruct (StrMap.get (env h) (JS.toLowerCase key)); [discriminate|].
    destruct (List.find _ _) as [matchKey|] eqn:Hfind.
    + apply find_some in Hfind. destruct Hfind as [Hin Hmatch].
      apply String.eqb_eq in Hmatch.
      destruct (JS.isEmpty matchKey) eqn:Hempty.
      * apply isEmpty_true in Hempty. subst matchKey.
        destruct key; [contradiction | discriminate].
      * intros Hnone. apply get_None_iff in Hnone. contradiction.
    + intros _ name Hin Hname.
      apply (find_none _ _ Hfind) in Hin.
      rewrite Hname, String.eqb_refl in Hin. discriminate.
  - intros _ name Hin ->. apply get_None_iff in Hexact. contradiction.
Qed.

End EnvLookup.

(** X12.  For a name the patterns can capture: [getEnvValue] returns the
    value stored under that very name when there is one; any value it
    returns is stored under a name that matches (the same name, or on
    Windows the same name up to case); and it returns nothing exactly
    when no name of the environment matches. *)
Theorem getEnvValue_lookup :
  forall (h : Host) (key : string),
    isPercentName key = true ->
    (forall v, envLookup h key = Some v -> getEnvValue h key = Some v)
    /\ (forall v, getEnvValue h key = Some v ->
          exists name, In (name, v) (env h) /\ envNameMatches h name key)
    /\ (getEnvValue h key = None <->
        forall name, In name (List.map fst (env h)) ->
                     ~ envNameMatches h name key).
Proof.
  intros h key Hkey.
  assert (key <> EmptyString) as Hne by (destruct key; discriminate).
  split; [apply getEnvValue_exact|]. split; [apply getEnvValue_found|].
  split; [now apply getEnvValue_missing|].
  intros Hnone. destruct (getEnvValue h key) as [v|] eqn:Hv; [|reflexivity].
  apply getEnvValue_found in Hv. destruct Hv as [name [Hin Hname]].
  exfalso. apply (Hnone name); [|exact Hname].
  change name with (fst (name, v)). now apply in_map.
Qed.

Lemma getEnvValue_lookup_witness :
  (exists name, In (name, "C:\bin") (env MoreExamples.windowsCaseHost)
                /\ envNameMatches MoreExamples.windowsCaseHost name "pAtH")
  /\ getEnvValue Examples.posixEnvHost "name" = None.
Proof.
  split.
  - apply (proj1 (proj2 (getEnvValue_lookup MoreExamples.windowsCaseHost
                           "pAtH" eq_refl))).
    reflexivity.
  - apply (proj2 (proj2 (getEnvValue_lookup Examples.posixEnvHost
                           "name" eq_refl))).
    intros name [<-|[]]. discriminate.
Defined.

(* ================================================================== *)
(** * MSYS paths and Windows prefixes *)
(* ================================================================== *)

Lemma mapChars_length (f : ascii -> ascii) (s : string) :
  String.length (JS.mapChars f s) = String.length s.
Proof. induction s as [|c s IH]; simpl; [reflexivity | now rewrite IH]. Qed.

Lemma msysPath_needs_slash (c : ascii) (t : string) :
  c <> "/"%char -> Regex.msysPath (String c t) = None.
Proof.
  intros H. destruct c as [[] [] [] [] [] [] [] []]; try reflexivity.
  now contradiction H.
Qed.

Lemma upperChar_letter (d : ascii) :
  Regex.isLetter d = true ->
  JS.upperChar d <> "/"%char /\ JS.upperChar d <> "\"%char.
Proof.
  destruct d as [[] [] [] [] [] [] [] []]; intros H;
    first [discriminate H | split; discriminate].
Qed.

(** What the pattern of [translateMsysPath] matches. *)
Lemma msysPath_spec (s : string) (m : Regex.Match) :
  Regex.msysPath s = Some m ->
  exists d rest,
    s = String "/" (String d rest) /\ Regex.isLetter d = true
    /\ Regex.groups m
       = [Some (String d EmptyString);
          match rest with EmptyString => None | _ => Some rest end]
    /\ (rest = EmptyString
        \/ exists tail, rest = String "/" tail
                        /\ Regex.noLineTerminator tail = true).
Proof.
  destruct s as [|c [|d rest]]; try discriminate.
  - destruct c as [[] [] [] [] [] [] [] []]; discriminate.
  - destruct (Ascii.eqb_spec c "/") as [->|Hne];
      [|now rewrite msysPath_needs_slash].
    cbn [Regex.msysPath].
    destruct (Regex.isLetter d) eqn:Hd; [|discriminate].
    destruct rest as [|q tail].
    + intros [= <-]. exists d, EmptyString. auto.
    + destruct (Ascii.eqb_spec q "/") as [->|Hq].
      * destruct (Regex.noLineTerminator tail) eqn:Htail; [|discriminate].
        intros [= <-]. exists d, (String "/" tail).
        repeat split; auto. right. now exists tail.
      * destruct q as [[] [] [] [] [] [] [] []]; try discriminate.
        now contradiction Hq.
Qed.

Section Msys.

Variable h : Host.

Lemma translateMsysPath_matched (d : ascii) (rest : string) (m : Regex.Match) :
  win32 h = true ->
  Regex.msysPath (String "/" (String d rest)) = Some m ->
  translateMsysPath h (String "/" (String d rest))
  = String (JS.upperChar d) (String ":" (JS.slashesToBackslashes rest)).
Proof.
  intros Hwin Hm. unfold translateMsysPath. rewrite Hwin. cbn [negb].
  rewrite Hm. destruct (msysPath_spec _ _ Hm) as [d' [rest' [Heq [_ [Hg _]]]]].
  injection Heq as <- <-. destruct m as [len groups]. cbn [Regex.groups] in Hg.
  subst groups. now destruct rest.
Qed.

Lemma translateMsysPath_unmatched (v : string) :
  Regex.msysPath v = None -> translateMsysPath h v = v.
Proof.
  intros Hm. unfold translateMsysPath. rewrite Hm. now destruct (win32 h).
Qed.

Lemma translateMsysPath_cases (v : string) :
  translateMsysPath h v = v
  \/ exists d rest,
       Regex.isLetter d = true
       /\ v = String "/" (String d rest)
       /\ translateMsysPath h v
          = String (JS.upperChar d) (String ":" (JS.slashesToBackslashes rest)).
Proof.
  destruct (win32 h) eqn:Hwin.
  - destruct (Regex.msysPath v) as [m|] eqn:Hm.
    + destruct (msysPath_spec _ _ Hm) as [d [rest [-> [Hd _]]]].
      right. exists d, rest. repeat split; auto.
      now apply (translateMsysPath_matched d rest m).
    + left. now apply translateMsysPath_unmatched.
  - left. unfold translateMsysPath. now rewrite Hwin.
Qed.

End Msys.

(** X14.  [translateMsysPath] is idempotent and keeps the length of its
    argument; off Windows it is the identity; on Windows a slash, a
    letter and a rest that starts with a slash become the upper-case
    letter, a colon and the rest with backslashes for slashes. *)
Theorem translateMsysPath_properties :
  forall (h : Host) (v : string),
    translateMsysPath h (translateMsysPath h v) = translateMsysPath h v
    /\ String.length (translateMsysPath h v) = String.length v
    /\ (win32 h = false -> translateMsysPath h v = v)
    /\ (win32 h = true ->
        forall d tail,
          Regex.isLetter d = true ->
          (Regex.noLineTerminator tail = true ->
           translateMsysPath h (String "/" (String d (String "/" tail)))
           = String (JS.upperChar d)
               (String ":" (String "\" (JS.slashesToBackslashes tail))))
          /\ translateMsysPath h (String "/" (String d EmptyString))
             = String (JS.upperChar d) ":").
Proof.
  intros h v. split; [|split; [|split]].
  - destruct (translateMsysPath_cases h v) as [Hid|[d [rest [Hd [-> ->]]]]];
      [now rewrite !Hid|].
    apply translateMsysPath_unmatched, msysPath_needs_slash.
    now apply upperChar_letter.
  - destruct (translateMsysPath_cases h v) as [Hid|[d [rest [Hd [-> ->]]]]];
      [now rewrite Hid|].
    unfold JS.slashesToBackslashes. cbn [String.length].
    now rewrite mapChars_length.
  - intros Hwin. unfold translateMsysPath. now rewrite Hwin.
  - intros Hwin d tail Hd. split.
    + intros Htail.
      assert (Regex.msysPath (String "/" (String d (String "/" tail)))
              = Some (Regex.mkMatch
                        (String.length
                           (String "/" (String d (String "/" tail))))
                        [Some (String d EmptyString);
                         Some (String "/" tail)])) as Hm
        by (cbn [Regex.msysPath]; now rewrite Hd, Htail).
      now rewrite (translateMsysPath_matched h d (String "/" tail) _ Hwin Hm).
    + assert (Regex.msysPath (String "/" (String d EmptyString))
              = Some (Regex.mkMatch 2 [Some (String d EmptyString); None]))
        as Hm by (cbn [Regex.msysPath]; now rewrite Hd).
      now rewrite (translateMsysPath_matched h d EmptyString _ Hwin Hm).
Qed.

Lemma translateMsysPath_properties_witness :
  translateMsysPath MoreExamples.windowsCaseHost "/c/Users/x/notes.md"
  = "C:\Users\x\notes.md"
  /\ translateMsysPath Examples.plainHost "/c/Users/x" = "/c/Users/x".
Proof.
  split.
  - apply (proj1 (proj2 (proj2 (proj2 (translateMsysPath_properties
                                         MoreExamples.windowsCaseHost
                                         EmptyString)))
                    eq_refl "c"%char "Users/x/notes.md" eq_refl) eq_refl).
  - apply (proj1 (proj2 (proj2 (translateMsysPath_properties
                                  Examples.plainHost "/c/Users/x")))
             eq_refl).
Defined.

Lemma sliceFrom_append (a b : string) :
  JS.sliceFrom (a ++ b) (String.length a) = b.
Proof.
  unfold JS.sliceFrom. rewrite length_append.
  replace (String.length a + String.length b - String.length a)
    with (String.length b) by lia.
  induction a as [|c a IH]; simpl; [apply substring_whole | exact IH].
Qed.

Lemma startsWith_append (a b : string) : JS.startsWith (a ++ b) a = true.
Proof. apply prefix_append. Qed.

(** X15.  On Windows [normalizeWindowsPathPrefix] rewrites the
    extended-length UNC prefix to two backslashes and drops the plain
    extended-length prefix, for every rest of the path; without such a
    prefix only the MSYS translation applies; off Windows it is the
    identity. *)
Theorem normalizeWindowsPathPrefix_strips_prefix :
  forall (h : Host),
    (win32 h = true ->
     forall rest,
       normalizeWindowsPathPrefix h ("\\?\UNC\" ++ rest) = "\\" ++ rest
       /\ (JS.startsWith rest "UNC\" = false ->
           normalizeWindowsPathPrefix h ("\\?\" ++ rest) = rest))
    /\ (win32 h = true ->
        forall v, JS.startsWith v "\\?\" = false ->
                  normalizeWindowsPathPrefix h v = translateMsysPath h v)
    /\ (win32 h = false -> forall v, normalizeWindowsPathPrefix h v = v).
Proof.
  intros h. split; [|split].
  - intros Hwin rest. unfold normalizeWindowsPathPrefix. rewrite Hwin.
    cbn [negb]. split.
    + rewrite translateMsysPath_unmatched by reflexivity.
      rewrite startsWith_append. now rewrite sliceFrom_append.
    + intros Hunc.
      rewrite translateMsysPath_unmatched by reflexivity.
      assert (JS.startsWith ("\\?\" ++ rest) "\\?\UNC\" = false) as ->.
      { unfold JS.startsWith in *. cbn [append].
        change "\\?\UNC\" with ("\\?\" ++ "UNC\"). cbn [append].
        apply not_true_is_false. intros H.
        repeat (apply prefix_cons in H; destruct H as [_ H]).
        change (String "U" (String "N" (String "C" (String "\" ""))))
          with "UNC\" in H.
        congruence. }
      rewrite startsWith_append. now rewrite sliceFrom_append.
  - intros Hwin v Hv. unfold normalizeWindowsPathPrefix. rewrite Hwin.
    cbn [negb].
    assert (JS.startsWith (translateMsysPath h v) "\\?\" = false) as Hpre.
    { destruct (translateMsysPath_cases h v) as [Hid|[d [rest [Hd [_ ->]]]]];
        [now rewrite Hid|].
      unfold JS.startsWith. apply not_true_is_false. intros H.
      apply prefix_cons in H. destruct H as [H _].
      now apply (upperChar_letter d Hd). }
    assert (JS.startsWith (translateMsysPath h v) "\\?\UNC\" = false) as ->.
    { apply not_true_is_false. intros H.
      change "\\?\UNC\" with ("\\?\" ++ "UNC\") in H.
      unfold JS.startsWith in *. apply prefix_append_l in H. congruence. }
    now rewrite Hpre.
  - intros Hwin v. unfold normalizeWindowsPathPrefix. now rewrite Hwin.
Qed.

Lemma normalizeWindowsPathPrefix_strips_prefix_witness :
  normalizeWindowsPathPrefix MoreExamples.windowsCaseHost
    "\\?\UNC\server\share\a.md" = "\\server\share\a.md"
  /\ normalizeWindowsPathPrefix MoreExamples.windowsCaseHost
       "\\?\C:\Users\x" = "C:\Users\x"
  /\ normalizeWindowsPathPrefix Examples.plainHost "\\?\C:\x" = "\\?\C:\x".
Proof.
  split; [|split].
  - apply (proj1 (proj1 (normalizeWindowsPathPrefix_strips_prefix
                           MoreExamples.windowsCaseHost) eq_refl
                    "server\share\a.md")).
  - apply (proj2 (proj1 (normalizeWindowsPathPrefix_strips_prefix
                           MoreExamples.windowsCaseHost) eq_refl
                    "C:\Users\x") eq_refl).
  - apply (proj2 (proj2 (normalizeWindowsPathPrefix_strips_prefix
                           Examples.plainHost)) eq_refl).
Defined.

(* ================================================================== *)
(** * Text around references *)
(* ================================================================== *)

Section PrefixKept.

Variable re : Regex.Pattern.
Variable replacer : string -> list (option string) -> string.

Lemma replace_prefix (x : ascii) (pre rest : string) :
  (forall c t, c <> x -> re (String c t) = None) ->
  JS.includes pre x = false ->
  Regex.replace re replacer (pre ++ rest)
  = pre ++ Regex.replace re replacer rest.
Proof.
  intros Htrigger. induction pre as [|c pre IH]; intros Hinc;
    [reflexivity|].
  cbn [JS.includes] in Hinc. apply orb_false_iff in Hinc.
  destruct Hinc as [Hc Hpre].
  cbn [append]. rewrite replace_nomatch.
  - now rewrite IH.
  - apply Htrigger. intros ->. now rewrite Ascii.eqb_refl in Hc.
Qed.

End PrefixKept.

Section Passes.

Variable h : Host.

(** The passes of [expandEnvironmentVariables] without its shortcut. *)
Lemma expand_passes (s : string) :
  expandEnvironmentVariables h s
  = Regex.replace Regex.posixVar (substitutePosixVar h)
      (if win32 h then
         Regex.replace Regex.powershellVar (substituteVar h)
           (Regex.replace Regex.bangVar (substituteVar h)
              (Regex.replace Regex.percentVar (substituteVar h) s))
       else Regex.replace Regex.percentVar (substituteVar h) s).
Proof.
  destruct (noMeta s) eqn:Hmeta; [|now apply expand_unfold].
  rewrite expand_noMeta by assumption.
  apply noMeta_spec in Hmeta. destruct Hmeta as [Hp [Hd Hb]].
  rewrite percent_pass_untriggered by assumption.
  destruct (win32 h).
  - now rewrite bang_pass_untriggered, powershell_pass_untriggered,
      posix_pass_untriggered.
  - now rewrite posix_pass_untriggered.
Qed.

End Passes.

(** X13.  [expandEnvironmentVariables] keeps a prefix that holds no
    percent sign, dollar sign or exclamation mark, and expands what
    follows as if the prefix were not there. *)
Theorem expansion_keeps_plain_prefix :
  forall (h : Host) (pre rest : string),
    noMeta pre = true ->
    expandEnvironmentVariables h (pre ++ rest)
    = pre ++ expandEnvironmentVariables h rest.
Proof.
  intros h pre rest Hpre. apply noMeta_spec in Hpre.
  destruct Hpre as [Hp [Hd Hb]].
  rewrite !expand_passes.
  rewrite (replace_prefix _ _ "%" pre rest percentVar_trigger Hp).
  destruct (win32 h).
  - rewrite (replace_prefix _ _ "!" pre _ bangVar_trigger Hb).
    rewrite (replace_prefix _ _ "$" pre _ powershellVar_trigger Hd).
    now rewrite (replace_prefix _ _ "$" pre _ posixVar_trigger Hd).
  - now rewrite (replace_prefix _ _ "$" pre _ posixVar_trigger Hd).
Qed.

Lemma expansion_keeps_plain_prefix_witness :
  expandEnvironmentVariables Examples.plainHost "/vault/notes/$HOME/a.md"
  = "/vault/notes/" ++ expandEnvironmentVariables Examples.plainHost
                         "$HOME/a.md".
Proof.
  apply (expansion_keeps_plain_prefix Examples.plainHost "/vault/notes/"
           "$HOME/a.md").
  reflexivity.
Defined.

(* ================================================================== *)
(** * What a candidate is resolved against *)
(* ================================================================== *)

(** X11.  On POSIX, for a candidate without reference characters and an
    absolute home directory without them: the home notation is resolved
    under the home directory and an absolute candidate as it is,
    whatever the vault; only a relative candidate is resolved against
    the vault path. *)
Theorem posix_candidate_resolution :
  forall (h : Host) (candidatePath vaultPath : string),
    win32 h = false ->
    Posix.isAbsolute (homedir h) = true -> noMeta (homedir h) = true ->
    noMeta candidatePath = true ->
    resolveCandidate Posix.module h candidatePath vaultPath
    = normalizePathForComparison Posix.module h
        (resolveRealPath Posix.module h
           (if String.eqb candidatePath "~" then homedir h
            else if JS.startsWith candidatePath "~/"
                    || JS.startsWith candidatePath "~\"
            then Posix.join [homedir h; JS.sliceFrom candidatePath 2]
            else if Posix.isAbsolute candidatePath then candidatePath
            else Posix.resolve (cwd h) [vaultPath; candidatePath])).
Proof.
  intros h candidatePath vaultPath Hwin Habs Hhome Hcand.
  assert (normalizePathBeforeResolution Posix.module h candidatePath
          = if String.eqb candidatePath "~" then homedir h
            else if JS.startsWith candidatePath "~/"
                    || JS.startsWith candidatePath "~\"
                 then Posix.join [homedir h; JS.sliceFrom candidatePath 2]
                 else candidatePath) as Hnorm.
  { unfold normalizePathBeforeResolution, expandHomePath, translateMsysPath.
    rewrite Hwin, expand_noMeta by assumption. cbn [negb join Posix.module].
    destruct (String.eqb candidatePath "~"); [reflexivity|].
    now destruct (JS.startsWith candidatePath "~/"),
      (JS.startsWith candidatePath "~\"). }
  unfold resolveCandidate. rewrite Hnorm. cbn [isAbsolute Posix.module resolve].
  destruct (String.eqb candidatePath "~"); [now rewrite Habs|].
  destruct (JS.startsWith candidatePath "~/"
            || JS.startsWith candidatePath "~\"); [|reflexivity].
  destruct (posix_join_home (homedir h) (JS.sliceFrom candidatePath 2))
    as [-> _]; auto using noMeta_sliceFrom.
Qed.

Lemma posix_candidate_resolution_witness :
  resolveCandidate Posix.module Examples.plainHost "~/../user/notes"
    "/vault"
  = normalizePathForComparison Posix.module Examples.plainHost
      (resolveRealPath Posix.module Examples.plainHost
         (Posix.join ["/home/user"; "../user/notes"])).
Proof.
  apply (posix_candidate_resolution Examples.plainHost "~/../user/notes"
           "/vault"); reflexivity.
Defined.

(* ================================================================== *)
(** * Detection of the command-line tool *)
(* ================================================================== *)

Lemma firstExisting_spec (h : Host) (paths : list string) :
  match firstExisting h paths with
  | Some p =>
      exists before after,
        paths = (before ++ p :: after)%list
        /\ existsSync h p = true
        /\ forall q, In q before -> existsSync h q = false
  | None => forall q, In q paths -> existsSync h q = false
  end.
Proof.
  induction paths as [|p paths IH]; cbn [firstExisting].
  - intros q [].
  - destruct (existsSync h p) eqn:Hp.
    + exists [], paths. repeat split; auto. intros q [].
    + destruct (firstExisting h paths) as [r|].
      * destruct IH as [before [after [-> [Hr Hbefore]]]].
        exists (p :: before), after. repeat split; auto.
        intros q [<-|Hq]; auto.
      * intros q [<-|Hq]; auto.
Qed.

(** X17.  [findClaudeCLIPath] returns the first path of the platform's
    list that exists (every path before it is missing), and [null]
    exactly when none of the six Windows or five other paths exists. *)
Theorem findClaudeCLIPath_first_existing :
  forall (P : PathModule) (h : Host),
    (forall p, findClaudeCLIPath P h = Some p ->
       existsSync h p = true
       /\ exists before after,
            commonPaths P h = (before ++ p :: after)%list
            /\ forall q, In q before -> existsSync h q = false)
    /\ (findClaudeCLIPath P h = None <->
        forall q, In q (commonPaths P h) -> existsSync h q = false)
    /\ List.length (commonPaths P h) = (if win32 h then 6 else 5).
Proof.
  intros P h. unfold findClaudeCLIPath.
  pose proof (firstExisting_spec h (commonPaths P h)) as Hspec.
  split; [|split].
  - intros p Hp. rewrite Hp in Hspec.
    destruct Hspec as [before [after [Heq [Hex Hbefore]]]].
    split; [exact Hex|]. now exists before, after.
  - split.
    + intros Hnone. now rewrite Hnone in Hspec.
    + intros Hall. destruct (firstExisting h (commonPaths P h)) as [p|];
        [|reflexivity].
      destruct Hspec as [before [after [Heq [Hex _]]]].
      rewrite Hall in Hex; [discriminate|].
      rewrite Heq. apply in_or_app. right. now left.
  - unfold commonPaths. now destruct (win32 h).
Qed.

Lemma findClaudeCLIPath_first_existing_witness :
  existsSync MoreExamples.homebrewHost "/opt/homebrew/bin/claude" = true
  /\ exists before after,
       commonPaths Posix.module MoreExamples.homebrewHost
       = (before ++ "/opt/homebrew/bin/claude" :: after)%list
       /\ forall q, In q before ->
                    existsSync MoreExamples.homebrewHost q = false.
Proof.
  apply (proj1 (findClaudeCLIPath_first_existing Posix.module
                  MoreExamples.homebrewHost) "/opt/homebrew/bin/claude").
  reflexivity.
Defined.

(* ================================================================== *)
(** * Paths of the image cache *)
(* ================================================================== *)

Lemma backslashesToSlashes_excludes (s : string) :
  JS.includes (ImageCache.backslashesToSlashes s) "\" = false.
Proof.
  unfold ImageCache.backslashesToSlashes.
  induction s as [|c s IH]; [reflexivity|].
  cbn [JS.mapChars JS.includes]. rewrite IH.
  destruct (Ascii.eqb_spec c "\") as [->|Hne]; [reflexivity|].
  apply Ascii.eqb_neq in Hne. now rewrite Hne.
Qed.

Lemma backslashesToSlashes_fixed (s : string) :
  JS.includes s "\" = false -> ImageCache.backslashesToSlashes s = s.
Proof.
  unfold ImageCache.backslashesToSlashes.
  induction s as [|c s IH]; [reflexivity|].
  cbn [JS.mapChars JS.includes]. intros H.
  apply orb_false_iff in H. destruct H as [Hc Hs].
  now rewrite Hc, IH.
Qed.

Section CachePaths.

Variable P : PathModule.
Variable h : Host.

Lemma normalizeCacheRelPath_spec relPath normalized :
  ImageCache.normalizeCacheRelPath P relPath = Some normalized <->
  relPath <> EmptyString
  /\ normalized = ImageCache.backslashesToSlashes relPath
  /\ isAbsolute P normalized = false
  /\ JS.startsWith normalized ImageCache.IMAGE_CACHE_DIR = true.
Proof.
  unfold ImageCache.normalizeCacheRelPath.
  destruct (JS.isEmpty relPath) eqn:Hempty.
  - apply isEmpty_true in Hempty. split; [discriminate | tauto].
  - apply isEmpty_false in Hempty.
    destruct (isAbsolute P _) eqn:Habs.
    + split; [discriminate|]. intros [_ [-> [H _]]]. congruence.
    + destruct (JS.startsWith _ _) eqn:Hpre; cbn [negb].
      * split; [intros [= <-]; auto|]. now intros [_ [-> _]].
      * split; [discriminate|]. intros [_ [-> [_ H]]]. congruence.
Qed.

Lemma normalizeCacheRelPath_idempotent relPath normalized :
  ImageCache.normalizeCacheRelPath P relPath = Some normalized ->
  ImageCache.normalizeCacheRelPath P normalized = Some normalized.
Proof.
  intros H. apply normalizeCacheRelPath_spec in H.
  destruct H as [Hne [Hn [Habs Hpre]]].
  assert (ImageCache.backslashesToSlashes normalized = normalized) as Hfix
    by (subst normalized; apply backslashesToSlashes_fixed,
          backslashesToSlashes_excludes).
  apply normalizeCacheRelPath_spec. rewrite Hfix. repeat split; auto.
  intros ->. discriminate.
Qed.

End CachePaths.

(** X18.  A path accepted by [getCacheAbsolutePath] comes from a vault
    path and a relative path that are not empty; its relative part,
    backslashes turned to slashes, holds no backslash, is not absolute
    and starts with the cache directory; the result is that part
    resolved against the vault and starts with the resolved cache
    directory; and the normalized relative part is accepted with the
    same result (as [deleteCachedImages] relies on). *)
Theorem getCacheAbsolutePath_validates :
  forall (P : PathModule) (h : Host) (vaultPath : option string)
         (relPath absPath : string),
    ImageCache.getCacheAbsolutePath P h vaultPath relPath = Some absPath ->
    exists vault normalized,
      vaultPath = Some vault /\ vault <> EmptyString
      /\ relPath <> EmptyString
      /\ normalized = ImageCache.backslashesToSlashes relPath
      /\ JS.includes normalized "\" = false
      /\ isAbsolute P normalized = false
      /\ JS.startsWith normalized ImageCache.IMAGE_CACHE_DIR = true
      /\ absPath = resolve P (cwd h) [vault; normalized]
      /\ JS.startsWith absPath
           (resolve P (cwd h) [vault; ImageCache.IMAGE_CACHE_DIR]) = true
      /\ ImageCache.getCacheAbsolutePath P h vaultPath normalized
         = Some absPath.
Proof.
  intros P h vaultPath relPath absPath H.
  assert (Hcopy := H). unfold ImageCache.getCacheAbsolutePath in H.
  destruct vaultPath as [vault|]; [|discriminate].
  destruct (JS.isEmpty vault) eqn:Hvault; [discriminate|].
  destruct (ImageCache.normalizeCacheRelPath P relPath) as [n|] eqn:Hn;
    [|discriminate].
  destruct (JS.isEmpty n); [discriminate|].
  destruct (JS.startsWith _ _) eqn:Hpre; cbn [negb] in H; [|discriminate].
  injection H as <-.
  pose proof (normalizeCacheRelPath_idempotent P relPath n Hn) as Hidem.
  apply normalizeCacheRelPath_spec in Hn.
  destruct Hn as [Hne [Heq [Habs Hdir]]].
  exists vault, n. repeat split; auto.
  - now apply isEmpty_false.
  - subst n. apply backslashesToSlashes_excludes.
  - unfold ImageCache.getCacheAbsolutePath in *.
    rewrite Hvault, Hidem. rewrite Hvault in Hcopy.
    apply normalizeCacheRelPath_spec in Hidem.
    destruct (JS.isEmpty n) eqn:E; [|now rewrite Hpre].
    apply isEmpty_true in E. subst n. destruct Hidem as [Hc _].
    congruence.
Qed.

Lemma getCacheAbsolutePath_validates_witness :
  exists vault normalized,
    Some "/vault" = Some vault /\ vault <> EmptyString
    /\ ".claudian-cache\images\ab12.png" <> EmptyString
    /\ normalized
       = ImageCache.backslashesToSlashes ".claudian-cache\images\ab12.png"
    /\ JS.includes normalized "\" = false
    /\ isAbsolute Posix.module normalized = false
    /\ JS.startsWith normalized ImageCache.IMAGE_CACHE_DIR = true
    /\ "/vault/.claudian-cache/images/ab12.png"
       = resolve Posix.module (cwd Examples.plainHost) [vault; normalized]
    /\ JS.startsWith "/vault/.claudian-cache/images/ab12.png"
         (resolve Posix.module (cwd Examples.plainHost)
            [vault; ImageCache.IMAGE_CACHE_DIR]) = true
    /\ ImageCache.getCacheAbsolutePath Posix.module Examples.plainHost
         (Some "/vault") normalized
       = Some "/vault/.claudian-cache/images/ab12.png".
Proof.
  apply (getCacheAbsolutePath_validates Posix.module Examples.plainHost
           (Some "/vault") ".claudian-cache\images\ab12.png"
           "/vault/.claudian-cache/images/ab12.png").
  reflexivity.
Defined.

(* ================================================================== *)
(** * References in their context *)
(* ================================================================== *)

Ltac split_ok H :=
  repeat match type of H with
         | _ && _ = true =>
             let H1 := fresh H in
             apply andb_true_iff in H; destruct H as [H H1]
         end.

(** ** References followed by more text *)

Lemma takeWhile_boundary (f : ascii -> bool) (s rest : string) :
  JS.isEmpty (JS.dropWhile f s) = true ->
  match rest with EmptyString => true | String c _ => negb (f c) end = true ->
  JS.takeWhile f (s ++ rest) = s /\ JS.dropWhile f (s ++ rest) = rest.
Proof.
  intros Hs Hrest. destruct rest as [|x t].
  - rewrite append_empty_r. split; [now apply takeWhile_all|].
    now apply isEmpty_true.
  - apply takeWhile_run; [exact Hs | now apply negb_true_iff].
Qed.

Lemma percentVar_followed (name rest : string) :
  isPercentName name = true ->
  Regex.percentVar (written (Percent name) ++ rest)
  = Some (Regex.mkMatch (String.length (written (Percent name))) [Some name]).
Proof.
  destruct name as [|c0 body]; [discriminate|]. simpl isPercentName.
  intros H. apply andb_true_iff in H. destruct H as [Hstart Hbody].
  cbn [written append Regex.percentVar]. rewrite append_assoc, Hstart.
  change ("%" ++ rest) with (String "%" rest).
  destruct (takeWhile_run Regex.isPercentChar body rest "%" Hbody eq_refl)
    as [-> ->].
  do 2 f_equal. cbn [String.length]. rewrite length_append. simpl. lia.
Qed.

Lemma bangVar_followed (name rest : string) :
  isName name = true ->
  Regex.bangVar (written (Bang name) ++ rest)
  = Some (Regex.mkMatch (String.length (written (Bang name))) [Some name]).
Proof.
  destruct name as [|c0 body]; [discriminate|]. simpl isName.
  intros H. apply andb_true_iff in H. destruct H as [Hstart Hbody].
  cbn [written append Regex.bangVar]. rewrite append_assoc, Hstart.
  change ("!" ++ rest) with (String "!" rest).
  destruct (takeWhile_run Regex.isNameChar body rest "!" Hbody eq_refl)
    as [-> ->].
  do 2 f_equal. cbn [String.length]. rewrite length_append. simpl. lia.
Qed.

Lemma powershellVar_followed (name rest : string) :
  isName name = true -> nameEndsAt rest = true ->
  Regex.powershellVar (written (Powershell name) ++ rest)
  = Some (Regex.mkMatch (String.length (written (Powershell name)))
            [Some name]).
Proof.
  destruct name as [|c0 body]; [discriminate|]. simpl isName.
  intros H Hrest. apply andb_true_iff in H. destruct H as [Hstart Hbody].
  cbn [written append Regex.powershellVar]. rewrite Hstart.
  destruct (takeWhile_boundary Regex.isNameChar body rest Hbody Hrest)
    as [-> _].
  change (JS.lowerChar "e") with "e"%char.
  change (JS.lowerChar "n") with "n"%char.
  change (JS.lowerChar "v") with "v"%char.
  cbn. do 2 f_equal. lia.
Qed.

Lemma posixVar_bare_followed (name rest : string) :
  isName name = true -> nameEndsAt rest = true ->
  Regex.posixVar (written (Bare name) ++ rest)
  = Some (Regex.mkMatch (String.length (written (Bare name)))
            [Some name; None]).
Proof.
  destruct name as [|c0 body]; [discriminate|]. simpl isName.
  intros H Hrest. apply andb_true_iff in H. destruct H as [Hstart Hbody].
  cbn [written append Regex.posixVar]. rewrite Hstart.
  destruct (takeWhile_boundary Regex.isNameChar body rest Hbody Hrest)
    as [-> _].
  cbn. do 2 f_equal. lia.
Qed.

Lemma posixVar_braced_followed (name rest : string) :
  isName name = true ->
  Regex.posixVar (written (Braced name) ++ rest)
  = Some (Regex.mkMatch (String.length (written (Braced name)))
            [None; Some name]).
Proof.
  destruct name as [|c0 body]; [discriminate|]. simpl isName.
  intros H. apply andb_true_iff in H. destruct H as [Hstart Hbody].
  cbn [written append Regex.posixVar]. rewrite append_assoc.
  change ("}" ++ rest) with (String "}" rest).
  change (Regex.isNameStart "{") with false. cbn [Ascii.eqb Bool.eqb].
  cbv iota. rewrite Hstart.
  destruct (takeWhile_run Regex.isNameChar body rest "}" Hbody eq_refl)
    as [-> ->].
  do 2 f_equal. cbn [String.length]. rewrite length_append. simpl. lia.
Qed.

(** The PowerShell pattern on a bare POSIX reference: the first three
    characters after the dollar sign would have to spell [env] and the
    fourth to be a colon, so the name would be [env]. *)
Lemma powershellVar_inv (s : string) (m : Regex.Match) :
  Regex.powershellVar s = Some m ->
  exists e n v c0 rest,
    s = String "$" (String e (String n (String v (String ":" (String c0 rest)))))
    /\ JS.lowerChar e = "e"%char /\ JS.lowerChar n = "n"%char
    /\ JS.lowerChar v = "v"%char.
Proof.
  unfold Regex.powershellVar.
  destruct s as [|d [|e [|n [|v [|colon [|c0 rest]]]]]]; try discriminate;
    (destruct d as [[] [] [] [] [] [] [] []]; try discriminate).
  all: destruct colon as [[] [] [] [] [] [] [] []]; try discriminate.
  destruct (Ascii.eqb_spec (JS.lowerChar e) "e") as [He|]; [|simpl; discriminate].
  destruct (Ascii.eqb_spec (JS.lowerChar n) "n") as [Hn|]; [|simpl; discriminate].
  destruct (Ascii.eqb_spec (JS.lowerChar v) "v") as [Hv|]; [|simpl; discriminate].
  intros _. now exists e, n, v, c0, rest.
Qed.

Lemma lowered_env_letter (c x : ascii) :
  JS.lowerChar c = x -> x = "e"%char \/ x = "n"%char \/ x = "v"%char ->
  Regex.isNameChar c = true.
Proof.
  intros <- H. destruct c as [[] [] [] [] [] [] [] []];
    try reflexivity; vm_compute in H; exfalso;
    destruct H as [H|[H|H]]; discriminate.
Qed.

Lemma powershellVar_on_bare (name rest : string) :
  isName name = true -> nameEndsAt rest = true ->
  JS.toLowerCase name <> "env" ->
  Regex.powershellVar (written (Bare name) ++ rest) = None.
Proof.
  intros Hname Hrest Henv.
  destruct (Regex.powershellVar (written (Bare name) ++ rest)) as [m|] eqn:Hm;
    [exfalso | reflexivity].
  apply powershellVar_inv in Hm.
  destruct Hm as [e [n [v [c0 [tail [Heq [He [Hn Hv]]]]]]]].
  apply isName_run in Hname. destruct Hname as [_ Hrun].
  cbn [written append] in Heq. injection Heq as Heq.
  assert (forall c t, rest = String c t ->
            JS.lowerChar c = "e"%char \/ JS.lowerChar c = "n"%char
            \/ JS.lowerChar c = "v"%char -> False) as Hboundary.
  { intros c t -> Hc. simpl in Hrest.
    assert (Regex.isNameChar c = true) as Hcn
      by (destruct Hc as [Hc|[Hc|Hc]];
          apply (lowered_env_letter c _ Hc); auto).
    now rewrite Hcn in Hrest. }
  destruct name as [|c1 [|c2 [|c3 [|c4 name]]]]; cbn [append] in Heq.
  - apply (Hboundary e _ Heq). auto.
  - injection Heq as -> Heq. apply (Hboundary n _ Heq). auto.
  - injection Heq as -> -> Heq. apply (Hboundary v _ Heq). auto.
  - injection Heq as -> -> -> Heq. apply Henv.
    unfold JS.toLowerCase. cbn [JS.mapChars]. now rewrite He, Hn, Hv.
  - injection Heq as -> -> -> -> _.
    do 3 (apply run_cons in Hrun; destruct Hrun as [_ Hrun]).
    apply run_cons in Hrun. destruct Hrun as [Hcolon _].
    vm_compute in Hcolon. discriminate.
Qed.

Lemma bare_form_excludes name x :
  isName name = true -> Regex.isNameChar x = false ->
  Ascii.eqb "$" x = false ->
  JS.includes (written (Bare name)) x = false.
Proof.
  intros H Hx Hd. cbn [written append JS.includes].
  now rewrite (isName_excludes name x), Hd.
Qed.

Lemma braced_form_excludes name x :
  isName name = true -> Regex.isNameChar x = false ->
  (Ascii.eqb "$" x || Ascii.eqb "{" x || Ascii.eqb "}" x) = false ->
  JS.includes (written (Braced name)) x = false.
Proof.
  intros H Hx Hne. cbn [written append JS.includes]. rewrite includes_append.
  rewrite (isName_excludes name x) by assumption.
  cbn [JS.includes].
  destruct (Ascii.eqb "$" x), (Ascii.eqb "{" x), (Ascii.eqb "}" x);
    try discriminate; reflexivity.
Qed.

Lemma settledValue_excludes (h : Host) (name reference : string)
    (triggers : list ascii) (x : ascii) :
  settledValue h name triggers = true -> In x triggers ->
  JS.includes reference x = false ->
  JS.includes (valueOr h name reference) x = false.
Proof.
  unfold settledValue, valueOr. intros Hs Hin Href.
  destruct (getEnvValue h name) as [v|]; [|exact Href].
  rewrite forallb_forall in Hs. specialize (Hs x Hin).
  now apply negb_true_iff in Hs.
Qed.

Lemma nameEnds_text (stage : nat) (h : Host) (rest : list Piece) :
  nameEnds rest = true -> nameEndsAt (textAfter stage h rest) = true.
Proof.
  destruct rest as [|[[|c t]| | | | |] rest]; simpl; intros H;
    try discriminate; auto.
Qed.

Lemma substituteVar_valueOr (h : Host) (matched name : string) :
  substituteVar h matched [Some name] = valueOr h name matched.
Proof. reflexivity. Qed.

Lemma substitutePosixVar_valueOr (h : Host) (matched name : string) :
  isName name = true ->
  substitutePosixVar h matched [Some name; None] = valueOr h name matched
  /\ substitutePosixVar h matched [None; Some name] = valueOr h name matched.
Proof.
  intros H. apply isName_run in H. destruct H as [H _].
  unfold substitutePosixVar, valueOr. now rewrite H.
Qed.

Section Pieces.

Variable h : Host.

Lemma plainText_excludes (t : string) :
  plainText h t = true ->
  JS.includes t "%" = false /\ JS.includes t "$" = false
  /\ (win32 h = true -> JS.includes t "!" = false).
Proof.
  unfold plainText. rewrite !andb_true_iff, !negb_true_iff.
  intros [[Hp Hd] Hb]. repeat split; auto.
  intros Hwin. rewrite Hwin in Hb. now apply negb_true_iff in Hb.
Qed.

(** The percent pass substitutes the percent references and nothing
    else. *)
Lemma percentPass_pieces (pieces : list Piece) :
  wellFormed h pieces = true ->
  percentPass h (textAfter 0 h pieces) = textAfter 1 h pieces.
Proof.
  induction pieces as [|p rest IH]; [reflexivity|].
  cbn [wellFormed]. intros H. apply andb_true_iff in H.
  destruct H as [Hp Hrest]. specialize (IH Hrest).
  cbn [textAfter fold_right]. fold (textAfter 0 h rest) (textAfter 1 h rest).
  rewrite <- IH. unfold percentPass.
  destruct p as [t|n|n|n|n|n]; cbn [pieceOk] in Hp; split_ok Hp;
    cbn [pieceAfter Nat.leb andb].
  - apply (replace_prefix _ _ "%" _ _ percentVar_trigger).
    now apply plainText_excludes.
  - rewrite (replace_match _ _ _ _ _ (percentVar_followed n _ Hp) eq_refl)
      by (simpl; lia).
    reflexivity.
  - apply (replace_prefix _ _ "%" _ _ percentVar_trigger).
    now apply bang_form_excludes.
  - apply (replace_prefix _ _ "%" _ _ percentVar_trigger).
    now apply powershell_form_excludes.
  - apply (replace_prefix _ _ "%" _ _ percentVar_trigger).
    now apply bare_form_excludes.
  - apply (replace_prefix _ _ "%" _ _ percentVar_trigger).
    now apply braced_form_excludes.
Qed.

Hypothesis windows : win32 h = true.

Lemma bangPass_pieces (pieces : list Piece) :
  wellFormed h pieces = true ->
  bangPass h (textAfter 1 h pieces) = textAfter 2 h pieces.
Proof.
  induction pieces as [|p rest IH]; [reflexivity|].
  cbn [wellFormed]. intros H. apply andb_true_iff in H.
  destruct H as [Hp Hrest]. specialize (IH Hrest).
  cbn [textAfter fold_right]. fold (textAfter 1 h rest) (textAfter 2 h rest).
  rewrite <- IH. unfold bangPass.
  destruct p as [t|n|n|n|n|n]; cbn [pieceOk] in Hp; rewrite ?windows in Hp;
    cbn [negb orb] in Hp; split_ok Hp;
    cbn [pieceAfter Nat.leb andb]; rewrite ?windows.
  - apply (replace_prefix _ _ "!" _ _ bangVar_trigger).
    now apply plainText_excludes.
  - apply (replace_prefix _ _ "!" _ _ bangVar_trigger).
    apply (settledValue_excludes h n _ _ "!" Hp0); [now left|].
    now apply percent_form_excludes.
  - rewrite (replace_match _ _ _ _ _ (bangVar_followed n _ Hp) eq_refl)
      by (simpl; lia).
    reflexivity.
  - apply (replace_prefix _ _ "!" _ _ bangVar_trigger).
    now apply powershell_form_excludes.
  - apply (replace_prefix _ _ "!" _ _ bangVar_trigger).
    now apply bare_form_excludes.
  - apply (replace_prefix _ _ "!" _ _ bangVar_trigger).
    now apply braced_form_excludes.
Qed.

Lemma powershellPass_pieces (pieces : list Piece) :
  wellFormed h pieces = true ->
  powershellPass h (textAfter 2 h pieces) = textAfter 3 h pieces.
Proof.
  induction pieces as [|p rest IH]; [reflexivity|].
  cbn [wellFormed]. intros H. apply andb_true_iff in H.
  destruct H as [Hp Hrest]. specialize (IH Hrest).
  cbn [textAfter fold_right]. fold (textAfter 2 h rest) (textAfter 3 h rest).
  rewrite <- IH. unfold powershellPass.
  destruct p as [t|n|n|n|n|n]; cbn [pieceOk] in Hp; rewrite ?windows in Hp;
    cbn [negb orb] in Hp; split_ok Hp;
    cbn [pieceAfter Nat.leb andb]; rewrite ?windows.
  - apply (replace_prefix _ _ "$" _ _ powershellVar_trigger).
    now apply plainText_excludes.
  - apply (replace_prefix _ _ "$" _ _ powershellVar_trigger).
    apply (settledValue_excludes h n _ _ "$" Hp0); [right; now left|].
    now apply percent_form_excludes.
  - apply (replace_prefix _ _ "$" _ _ powershellVar_trigger).
    apply (settledValue_excludes h n _ _ "$" Hp0); [now left|].
    now apply bang_form_excludes.
  - rewrite (replace_match _ _ _ _ _
               (powershellVar_followed n _ Hp (nameEnds_text 2 h rest Hp1))
               eq_refl) by (simpl; lia).
    cbn [Regex.groups]. rewrite substituteVar_valueOr. unfold valueOr.
    now destruct (getEnvValue h n).
  - apply negb_true_iff, String.eqb_neq in Hp0.
    change (written (Bare n) ++ textAfter 2 h rest)
      with (String "$" (n ++ textAfter 2 h rest)).
    rewrite replace_nomatch
      by (apply (powershellVar_on_bare n _ Hp (nameEnds_text 2 h rest Hp1) Hp0)).
    rewrite (replace_prefix _ _ "$" n _ powershellVar_trigger)
      by (now apply isName_excludes).
    reflexivity.
  - change (written (Braced n) ++ textAfter 2 h rest)
      with (String "$" (String "{" ((n ++ "}") ++ textAfter 2 h rest))).
    rewrite replace_nomatch by apply powershellVar_on_brace.
    change (String "{" ((n ++ "}") ++ textAfter 2 h rest))
      with (String "{" (n ++ "}") ++ textAfter 2 h rest).
    rewrite (replace_prefix _ _ "$" _ _ powershellVar_trigger).
    + reflexivity.
    + cbn [JS.includes]. rewrite includes_append.
      now rewrite (isName_excludes n "$").
Qed.

End Pieces.

Section PosixPass.

Variable h : Host.

Lemma percent_value_settled (n : string) :
  settledValue h n (if win32 h then ["!"; "$"]%char else ["$"]%char) = true ->
  JS.includes (valueOr h n (written (Percent n))) "$" = false
  \/ isPercentName n = false.
Proof.
  intros Hs. destruct (isPercentName n) eqn:Hn; [left | now right].
  apply (settledValue_excludes h n _ _ "$" Hs).
  - destruct (win32 h); simpl; auto.
  - now apply percent_form_excludes.
Qed.

Lemma posixPass_pieces (pieces : list Piece) :
  wellFormed h pieces = true ->
  posixPass h (textAfter 3 h pieces) = textAfter 4 h pieces.
Proof.
  induction pieces as [|p rest IH]; [reflexivity|].
  cbn [wellFormed]. intros H. apply andb_true_iff in H.
  destruct H as [Hp Hrest]. specialize (IH Hrest).
  cbn [textAfter fold_right]. fold (textAfter 3 h rest) (textAfter 4 h rest).
  rewrite <- IH. unfold posixPass.
  destruct p as [t|n|n|n|n|n]; cbn [pieceOk] in Hp; split_ok Hp;
    cbn [pieceAfter Nat.leb andb].
  - apply (replace_prefix _ _ "$" _ _ posixVar_trigger).
    apply (plainText_excludes h t Hp).
  - apply (replace_prefix _ _ "$" _ _ posixVar_trigger).
    destruct (percent_value_settled n Hp0); congruence.
  - apply (replace_prefix _ _ "$" _ _ posixVar_trigger).
    destruct (win32 h); cbn [negb orb] in Hp0.
    + apply (settledValue_excludes h n _ _ "$" Hp0); [now left|].
      now apply bang_form_excludes.
    + now apply bang_form_excludes.
  - assert (forall R,
              Regex.replace Regex.posixVar (substitutePosixVar h)
                (written (Powershell n) ++ R)
              = (valueOr h "env" "$env" ++ ":" ++ n)
                ++ Regex.replace Regex.posixVar (substitutePosixVar h) R)
      as Hunread.
    { intros R.
      change (written (Powershell n) ++ R) with ("$env" ++ (":" ++ n) ++ R).
      rewrite (replace_match _ _ "$env" ((":" ++ n) ++ R)
                 (Regex.mkMatch 4 [Some "env"; None]))
        by (reflexivity || (simpl; lia)).
      cbn [Regex.groups].
      rewrite (proj1 (substitutePosixVar_valueOr h "$env" "env" eq_refl)).
      rewrite (replace_prefix _ _ "$" (":" ++ n) R posixVar_trigger).
      - now rewrite !append_assoc.
      - cbn [append JS.includes]. now rewrite (isName_excludes n "$"). }
    destruct (win32 h); cbn [negb orb] in Hp0; [|apply Hunread].
    unfold settledValue in Hp0.
    destruct (getEnvValue h n) as [v|]; [|apply Hunread].
    apply (replace_prefix _ _ "$" _ _ posixVar_trigger).
    cbn [forallb] in Hp0. rewrite andb_true_r in Hp0.
    now apply negb_true_iff.
  - rewrite (replace_match _ _ _ _ _
               (posixVar_bare_followed n _ Hp (nameEnds_text 3 h rest Hp1))
               eq_refl) by (simpl; lia).
    cbn [Regex.groups].
    now rewrite (proj1 (substitutePosixVar_valueOr h _ n Hp)).
  - rewrite (replace_match _ _ _ _ _ (posixVar_braced_followed n _ Hp) eq_refl)
      by (simpl; lia).
    cbn [Regex.groups].
    now rewrite (proj2 (substitutePosixVar_valueOr h _ n Hp)).
Qed.

(** Off Windows the two passes in the middle are not run. *)
Lemma textAfter_posix (pieces : list Piece) :
  win32 h = false -> textAfter 3 h pieces = textAfter 1 h pieces.
Proof.
  intros Hwin. induction pieces as [|p rest IH]; [reflexivity|].
  cbn [textAfter fold_right]. fold (textAfter 3 h rest) (textAfter 1 h rest).
  rewrite IH. f_equal.
  destruct p; cbn [pieceAfter Nat.leb andb]; now rewrite ?Hwin.
Qed.

Lemma textAfter_written (pieces : list Piece) :
  textAfter 0 h pieces = writtenAll pieces.
Proof.
  induction pieces as [|p rest IH]; [reflexivity|].
  cbn [textAfter writtenAll fold_right].
  fold (textAfter 0 h rest) (writtenAll rest). rewrite IH. f_equal.
  now destruct p.
Qed.

Lemma textAfter_substituted (pieces : list Piece) :
  textAfter 4 h pieces = substitutedAll h pieces.
Proof.
  induction pieces as [|p rest IH]; [reflexivity|].
  cbn [textAfter substitutedAll fold_right].
  fold (textAfter 4 h rest) (substitutedAll h rest). now rewrite IH.
Qed.

(** Reference by reference: on a well-formed text the passes of the
    source give what the specification expects. *)
Lemma expand_pieces (pieces : list Piece) :
  wellFormed h pieces = true ->
  expandEnvironmentVariables h (writtenAll pieces) = substitutedAll h pieces.
Proof.
  intros Hwf. rewrite expand_passes, <- textAfter_written.
  fold (percentPass h (textAfter 0 h pieces)).
  rewrite percentPass_pieces by assumption.
  rewrite <- textAfter_substituted, <- posixPass_pieces by assumption.
  destruct (win32 h) eqn:Hwin.
  - fold (bangPass h (textAfter 1 h pieces)).
    rewrite bangPass_pieces by assumption.
    fold (powershellPass h (textAfter 2 h pieces)).
    now rewrite powershellPass_pieces.
  - now rewrite textAfter_posix.
Qed.

End PosixPass.

(** ** Texts in which nothing resolves *)

Lemma sliceFrom_cons (c : ascii) (s : string) (i : nat) :
  JS.sliceFrom (String c s) (S i) = JS.sliceFrom s i.
Proof. reflexivity. Qed.

Section LocalVerbatim.

Variable re : Regex.Pattern.
Variable replacer : string -> list (option string) -> string.
Hypothesis re_positive :
  forall s m, re s = Some m -> 1 <= Regex.matchLength m.

(** A replacer that gives back every match found in [s] leaves [s] as
    it is. *)
Lemma replaceFrom_unchanged (s : string) (k : nat) :
  (forall i m, re (JS.sliceFrom s i) = Some m ->
     forall matched, replacer matched (Regex.groups m) = matched) ->
  Regex.replaceFrom re replacer s k = JS.sliceFrom s k.
Proof.
  revert k. induction s as [|c s IH]; intros k Hback.
  - now destruct k.
  - assert (forall k', Regex.replaceFrom re replacer s k' = JS.sliceFrom s k')
      as IH'.
    { intros k'. apply IH. intros i m Hm. apply (Hback (S i)).
      now rewrite sliceFrom_cons. }
    cbn [Regex.replaceFrom]. destruct k as [|k]; [|now rewrite IH'].
    rewrite sliceFrom_0.
    destruct (re (String c s)) as [m|] eqn:Hm.
    + rewrite (Hback 0 m) by (now rewrite sliceFrom_0).
      rewrite IH'. pose proof (re_positive _ _ Hm) as Hpos.
      destruct (Regex.matchLength m) as [|l]; [lia|].
      replace (S l - 1) with l by lia.
      change (substring 0 (S l) (String c s))
        with (String c (substring 0 l s)).
      cbn [append]. f_equal. apply substring_split.
    + now rewrite IH', sliceFrom_0.
Qed.

Lemma replace_unchanged (s : string) :
  (forall i m, re (JS.sliceFrom s i) = Some m ->
     forall matched, replacer matched (Regex.groups m) = matched) ->
  Regex.replace re replacer s = s.
Proof.
  intros H. unfold Regex.replace.
  now rewrite replaceFrom_unchanged, sliceFrom_0.
Qed.

End LocalVerbatim.

Section NothingToExpand.

Variable h : Host.

Lemma substituteVar_back (matched : string) (groups : list (option string)) :
  (forall name, In (Some name) groups -> getEnvValue h name = None) ->
  substituteVar h matched groups = matched.
Proof.
  intros H. destruct groups as [|[name|] groups]; try reflexivity.
  unfold substituteVar. now rewrite (H name) by now left.
Qed.

Lemma substitutePosixVar_back (matched : string)
    (groups : list (option string)) :
  (forall name, In (Some name) groups -> getEnvValue h name = None) ->
  substitutePosixVar h matched groups = matched.
Proof.
  intros H. unfold substitutePosixVar.
  destruct groups as [|[n1|] [|[n2|] groups]]; try reflexivity.
  - rewrite (H n1) by now left. now destruct (JS.isEmpty n1).
  - rewrite (H n1) by now left. now destruct (JS.isEmpty n1).
  - rewrite (H n1) by now left. now destruct (JS.isEmpty n1).
  - rewrite (H n2) by (right; now left). now destruct (JS.isEmpty n2).
Qed.

(** A text in which no reference resolves is left as it is. *)
Lemma expand_unchanged (s : string) :
  nothingToExpand h s -> expandEnvironmentVariables h s = s.
Proof.
  intros [Hpercent [Hposix Hwindows]]. rewrite expand_passes.
  assert (Regex.replace Regex.percentVar (substituteVar h) s = s) as ->.
  { apply (replace_unchanged _ _ percentVar_positive).
    intros i m Hm matched. apply substituteVar_back.
    intros name. now apply (Hpercent i m name). }
  assert ((if win32 h then
             Regex.replace Regex.powershellVar (substituteVar h)
               (Regex.replace Regex.bangVar (substituteVar h) s)
           else s) = s) as ->.
  { destruct (win32 h); [|reflexivity].
    destruct (Hwindows eq_refl) as [Hbang Hpowershell].
    assert (Regex.replace Regex.bangVar (substituteVar h) s = s) as ->.
    { apply (replace_unchanged _ _ bangVar_positive).
      intros i m Hm matched. apply substituteVar_back.
      intros name. now apply (Hbang i m name). }
    apply (replace_unchanged _ _ powershellVar_positive).
    intros i m Hm matched. apply substituteVar_back.
    intros name. now apply (Hpowershell i m name). }
  apply (replace_unchanged _ _ posixVar_positive).
  intros i m Hm matched. apply substitutePosixVar_back.
  intros name. now apply (Hposix i m name).
Qed.

End NothingToExpand.

(** C7, as amended.  [expandEnvironmentVariables] is four replacements
    one after the other, each over the whole output of the one before:
    the percent notation, then on Windows only the exclamation-mark and
    the PowerShell notation, then the two POSIX notations; so the value
    put in for a reference is itself read by the replacements that
    follow (the POSIX one is the last and its values are final).  On a
    text of plain pieces and references that is well formed for the
    platform, each reference gives the value of its variable, or stays
    as written when the variable has none; off Windows the
    exclamation-mark notation stays as written, and a PowerShell
    reference that is not substituted, there or for want of a value on
    Windows, is read as the POSIX reference to [env] followed by a
    colon and the name.  Whatever the text, it is left as written when
    every reference that can be read in it names a variable without
    value, and so is every text when no variable resolves at all. *)
Theorem environment_references :
  (forall (h : Host) (s : string),
      expandEnvironmentVariables h s
      = posixPass h
          (if win32 h then powershellPass h (bangPass h (percentPass h s))
           else percentPass h s))
  /\ (forall (h : Host) (pieces : list Piece),
        wellFormed h pieces = true ->
        expandEnvironmentVariables h (writtenAll pieces)
        = substitutedAll h pieces)
  /\ (forall (h : Host) (name v : string),
        getEnvValue h name = Some v ->
        (isPercentName name = true ->
         expandEnvironmentVariables h (written (Percent name))
         = posixPass h
             (if win32 h then powershellPass h (bangPass h v) else v))
        /\ (isName name = true ->
            expandEnvironmentVariables h (written (Bare name)) = v
            /\ expandEnvironmentVariables h (written (Braced name)) = v
            /\ (win32 h = true ->
                expandEnvironmentVariables h (written (Bang name))
                = posixPass h (powershellPass h v)
                /\ expandEnvironmentVariables h (written (Powershell name))
                   = posixPass h v)))
  /\ (forall (h : Host) (s : string),
        nothingToExpand h s -> expandEnvironmentVariables h s = s)
  /\ (forall (h : Host),
        (forall key, getEnvValue h key = None) ->
        forall s, expandEnvironmentVariables h s = s).
Proof.
  split; [|split; [|split; [|split]]].
  - exact expand_passes.
  - exact expand_pieces.
  - intros h name v Hv. split.
    + intros Hname. cbn [written]. now rewrite expand_percent, Hv.
    + intros Hname. cbn [written]. split; [|split].
      * now rewrite expand_bare, Hv.
      * now rewrite expand_braced, Hv.
      * intros Hwin.
        now rewrite expand_bang, expand_powershell, Hwin, Hv.
  - exact expand_unchanged.
  - exact expand_nothing_resolves.
Qed.

Lemma environment_references_witness :
  expandEnvironmentVariables Examples.plainHost "$HOME/notes/$UNSET/${HOME}.md"
  = "/home/user/notes/$UNSET//home/user.md"
  /\ expandEnvironmentVariables Examples.windowsEnvHost
       "%ProgramFiles(x86)%\!NAME!\$env:NAME\%UNSET%\!UNSET!"
     = "C:\PF\value\value\%UNSET%\!UNSET!"
  /\ expandEnvironmentVariables Examples.posixEnvHost "%NAME%/!NAME!/$env:NAME"
     = "value/!NAME!/$env:NAME"
  /\ expandEnvironmentVariables Examples.chainedHost "%A%" = "c"
  /\ expandEnvironmentVariables Examples.emptyHost "%A%/$B/${C}/!D!/$env:E"
     = "%A%/$B/${C}/!D!/$env:E".
Proof.
  destruct environment_references as [_ [Hpieces [Hvalue [_ Hnone]]]].
  split; [|split; [|split; [|split]]].
  - apply (Hpieces Examples.plainHost
             [Bare "HOME"; Plain "/notes/"; Bare "UNSET"; Plain "/";
              Braced "HOME"; Plain ".md"]).
    reflexivity.
  - apply (Hpieces Examples.windowsEnvHost
             [Percent "ProgramFiles(x86)"; Plain "\"; Bang "NAME"; Plain "\";
              Powershell "NAME"; Plain "\"; Percent "UNSET"; Plain "\";
              Bang "UNSET"]).
    reflexivity.
  - apply (Hpieces Examples.posixEnvHost
             [Percent "NAME"; Plain "/"; Bang "NAME"; Plain "/";
              Powershell "NAME"]).
    reflexivity.
  - apply (proj1 (Hvalue Examples.chainedHost "A" "$B" eq_refl) eq_refl).
  - apply (Hnone Examples.emptyHost). intros key. reflexivity.
Defined.

(** C7 as stated fails off Windows: with [NAME] set, the
    exclamation-mark form and the PowerShell form are not substituted. *)
Lemma windows_forms_not_expanded_on_posix :
  win32 Examples.posixEnvHost = false
  /\ getEnvValue Examples.posixEnvHost "NAME" = Some "value"
  /\ expandEnvironmentVariables Examples.posixEnvHost "!NAME!" = "!NAME!"
  /\ expandEnvironmentVariables Examples.posixEnvHost "$env:NAME"
     = "$env:NAME"
  /\ normalizePathBeforeResolution Posix.module Examples.posixEnvHost "!NAME!"
     <> "value"
  /\ normalizePathBeforeResolution Posix.module Examples.posixEnvHost
       "$env:NAME" <> "value".
Proof. repeat split; try reflexivity; vm_compute; discriminate. Qed.

(** Left as written by its own pass, a PowerShell reference is still
    read by the POSIX pass: with [env] set and [NAME] not, the output is
    not the reference. *)
Example unresolved_powershell_reference :
  getEnvValue Examples.envNamedHost "NAME" = None
  /\ expandEnvironmentVariables Examples.envNamedHost "$env:NAME" = "E:NAME".
Proof. split; reflexivity. Qed.

(* ================================================================== *)
(** * Normalizing twice *)
(* ================================================================== *)

(** ** Stability of the home and MSYS steps *)

Section Stability.

Variable P : PathModule.
Variable h : Host.

Lemma translateMsysPath_idempotent (v : string) :
  translateMsysPath h (translateMsysPath h v) = translateMsysPath h v.
Proof.
  destruct (translateMsysPath_cases h v) as [Hid|[d [rest [Hd [-> ->]]]]];
    [now rewrite !Hid|].
  apply translateMsysPath_unmatched, msysPath_needs_slash.
  now apply upperChar_letter.
Qed.

Lemma translateMsysPath_not_home (v : string) :
  startsWithHomePath v = false ->
  startsWithHomePath (translateMsysPath h v) = false.
Proof.
  intros Hv.
  destruct (translateMsysPath_cases h v) as [Hid|[d [rest [Hd [_ ->]]]]];
    [now rewrite Hid|].
  unfold startsWithHomePath, JS.startsWith.
  destruct (JS.upperChar d) as [[] [] [] [] [] [] [] []]; reflexivity.
Qed.

Lemma expandHomePath_cases (p : string) :
  let expanded := expandEnvironmentVariables h p in
  (startsWithHomePath expanded = false /\ expandHomePath P h p = expanded)
  \/ (startsWithHomePath expanded = true
      /\ (expandHomePath P h p = homedir h
          \/ exists rest, expandHomePath P h p = join P [homedir h; rest])).
Proof.
  intros expanded. unfold expandHomePath, startsWithHomePath.
  fold expanded.
  destruct (String.eqb expanded "~"), (JS.startsWith expanded "~/"),
    (JS.startsWith expanded "~\"); cbn [orb];
    solve [ now left
          | right; split; [reflexivity|]; now left
          | right; split; [reflexivity|]; right; now eexists ].
Qed.

Hypothesis stable : homeStable P h.

(** A normalized path is never in home notation. *)
Lemma normalized_not_home (x : string) :
  startsWithHomePath (normalizePathBeforeResolution P h x) = false.
Proof.
  unfold normalizePathBeforeResolution. apply translateMsysPath_not_home.
  destruct stable as [Hhome Hjoin].
  destruct (expandHomePath_cases x) as [[Hx ->]|[_ [->|[rest ->]]]]; auto.
Qed.

(** Once the expansion leaves a normalized path alone, so do the two
    other steps. *)
Lemma normalize_settled (x : string) :
  expandEnvironmentVariables h (normalizePathBeforeResolution P h x)
  = normalizePathBeforeResolution P h x ->
  normalizePathBeforeResolution P h (normalizePathBeforeResolution P h x)
  = normalizePathBeforeResolution P h x.
Proof.
  intros Hexp. pose proof (normalized_not_home x) as Hhome.
  set (y := normalizePathBeforeResolution P h x) in *.
  unfold normalizePathBeforeResolution at 1.
  destruct (expandHomePath_cases y) as [[_ ->]|[Hy _]];
    [|cbv zeta in Hy; rewrite Hexp in Hy; congruence].
  rewrite Hexp. unfold y, normalizePathBeforeResolution.
  apply translateMsysPath_idempotent.
Qed.

End Stability.

Lemma expand_after_plain (h : Host) (pre rest : string) :
  noMeta pre = true ->
  expandEnvironmentVariables h (pre ++ rest)
  = pre ++ expandEnvironmentVariables h rest.
Proof.
  intros Hpre. apply noMeta_spec in Hpre. destruct Hpre as [Hp [Hd Hb]].
  rewrite !expand_passes.
  rewrite (replace_prefix _ _ "%" pre rest percentVar_trigger Hp).
  destruct (win32 h).
  - rewrite (replace_prefix _ _ "!" pre _ bangVar_trigger Hb).
    rewrite (replace_prefix _ _ "$" pre _ powershellVar_trigger Hd).
    now rewrite (replace_prefix _ _ "$" pre _ posixVar_trigger Hd).
  - now rewrite (replace_prefix _ _ "$" pre _ posixVar_trigger Hd).
Qed.

Lemma posix_homeStable (h : Host) :
  Posix.isAbsolute (homedir h) = true -> homeStable Posix.module h.
Proof.
  intros Habs. split.
  - now apply absolute_not_home.
  - intros rest. apply absolute_not_home.
    now apply (posix_join_absolute (homedir h) [rest]).
Qed.

(** The expansion keeps a leading slash, so what it makes of an
    absolute path is not in home notation. *)
Lemma expand_absolute_not_home (h : Host) (y : string) :
  Posix.isAbsolute y = true ->
  startsWithHomePath (expandEnvironmentVariables h y) = false.
Proof.
  intros Habs. destruct y as [|c t]; [discriminate|].
  simpl in Habs. apply Ascii.eqb_eq in Habs. subst c.
  change (String "/" t) with ("/" ++ t).
  now rewrite expand_after_plain.
Qed.

Section PosixIdempotence.

Variable h : Host.
Hypothesis posix : win32 h = false.
Hypothesis home_absolute : Posix.isAbsolute (homedir h) = true.

Lemma posix_translate (v : string) : translateMsysPath h v = v.
Proof. unfold translateMsysPath. now rewrite posix. Qed.

(** On POSIX a normalized path that normalization leaves alone is one
    that the expansion leaves alone. *)
Lemma posix_fixed_is_settled (y : string) :
  startsWithHomePath y = false ->
  normalizePathBeforeResolution Posix.module h y = y ->
  expandEnvironmentVariables h y = y.
Proof.
  intros Hhome Hfixed.
  unfold normalizePathBeforeResolution in Hfixed.
  rewrite posix_translate in Hfixed.
  destruct (expandHomePath_cases Posix.module h y)
    as [[_ Heq]|[Hy Hform]]; [congruence|].
  exfalso.
  assert (Posix.isAbsolute y = true) as Habs.
  { rewrite <- Hfixed. destruct Hform as [->|[rest ->]]; [assumption|].
    now apply (posix_join_absolute (homedir h) [rest]). }
  cbv zeta in Hy. rewrite expand_absolute_not_home in Hy by assumption.
  discriminate.
Qed.

Lemma posix_idempotent_iff (x : string) :
  normalizePathBeforeResolution Posix.module h
    (normalizePathBeforeResolution Posix.module h x)
  = normalizePathBeforeResolution Posix.module h x
  <-> expandEnvironmentVariables h
        (normalizePathBeforeResolution Posix.module h x)
      = normalizePathBeforeResolution Posix.module h x.
Proof.
  pose proof (posix_homeStable h home_absolute) as Hstable.
  split.
  - apply posix_fixed_is_settled. now apply normalized_not_home.
  - now apply normalize_settled.
Qed.

End PosixIdempotence.

(** ** Texts made of plain pieces and references *)

Section SettledPieces.

Variable h : Host.

Lemma plainText_append (a b : string) :
  plainText h a = true -> plainText h b = true -> plainText h (a ++ b) = true.
Proof.
  unfold plainText. rewrite !includes_append.
  destruct (JS.includes a "%"), (JS.includes a "$"), (JS.includes b "%"),
    (JS.includes b "$"), (win32 h), (JS.includes a "!"), (JS.includes b "!");
    simpl; congruence.
Qed.

Lemma plainText_name (name : string) :
  isName name = true -> plainText h (":" ++ name) = true.
Proof.
  intros H. unfold plainText. cbn [append JS.includes].
  rewrite (isName_excludes name "%"), (isName_excludes name "$"),
    (isName_excludes name "!") by (assumption || reflexivity).
  now destruct (win32 h).
Qed.

Lemma settle_written (pieces : list Piece) :
  writtenAll (List.map (settle h) pieces) = substitutedAll h pieces.
Proof.
  induction pieces as [|p rest IH]; [reflexivity|].
  cbn [List.map writtenAll substitutedAll fold_right].
  fold (writtenAll (List.map (settle h) rest)) (substitutedAll h rest).
  rewrite IH. f_equal.
  destruct p as [t|n|n|n|n|n]; cbn [settle substituted]; unfold valueOr;
    try reflexivity;
    try (destruct (getEnvValue h n); reflexivity).
  - destruct (win32 h); [|reflexivity]. now destruct (getEnvValue h n).
  - destruct (if win32 h then getEnvValue h n else None); [reflexivity|].
    now destruct (getEnvValue h "env").
Qed.

Lemma settle_substituted (pieces : list Piece) :
  substitutedAll h (List.map (settle h) pieces)
  = writtenAll (List.map (settle h) pieces).
Proof.
  induction pieces as [|p rest IH]; [reflexivity|].
  cbn [List.map writtenAll substitutedAll fold_right].
  fold (writtenAll (List.map (settle h) rest))
       (substitutedAll h (List.map (settle h) rest)).
  rewrite IH. f_equal.
  destruct p as [t|n|n|n|n|n]; cbn [settle]; try reflexivity.
  - destruct (getEnvValue h n) eqn:E; [reflexivity|].
    cbn [substituted]. unfold valueOr. now rewrite E.
  - destruct (win32 h) eqn:Hwin.
    + destruct (getEnvValue h n) eqn:E; [reflexivity|].
      cbn [substituted]. unfold valueOr. now rewrite Hwin, E.
    + cbn [substituted]. now rewrite Hwin.
  - destruct (if win32 h then getEnvValue h n else None) eqn:E;
      [reflexivity|].
    destruct (getEnvValue h "env") eqn:Eenv; [reflexivity|].
    cbn [substituted]. unfold valueOr. now rewrite E, Eenv.
  - destruct (getEnvValue h n) eqn:E; [reflexivity|].
    cbn [substituted]. unfold valueOr. now rewrite E.
  - destruct (getEnvValue h n) eqn:E; [reflexivity|].
    cbn [substituted]. unfold valueOr. now rewrite E.
Qed.

Lemma nameEnds_settle (rest : list Piece) :
  nameEnds rest = true -> nameEnds (List.map (settle h) rest) = true.
Proof.
  destruct rest as [|[[|c t]| | | | |] rest]; simpl; intros H;
    try discriminate; auto.
Qed.

Lemma pieceOk_settle (p : Piece) (rest : list Piece) :
  pieceOk h p rest = true -> valuesPlain h p = true ->
  pieceOk h (settle h p) (List.map (settle h) rest) = true.
Proof.
  intros Hok Hplain.
  destruct p as [t|n|n|n|n|n]; cbn [pieceOk valuesPlain settle] in *;
    unfold plainValue in *; split_ok Hok; split_ok Hplain.
  - exact Hok.
  - destruct (getEnvValue h n) eqn:E; [exact Hplain|].
    cbn [pieceOk]. now rewrite Hok, Hok0.
  - destruct (win32 h) eqn:Hwin; cbn [negb orb] in *.
    + destruct (getEnvValue h n) eqn:E; [exact Hplain|].
      cbn [pieceOk]. rewrite Hok, Hwin. unfold settledValue. now rewrite E.
    + cbn [pieceOk]. now rewrite Hok, Hwin.
  - assert (pieceOk h
              match getEnvValue h "env" with
              | Some e => Plain (e ++ ":" ++ n)
              | None => Powershell n
              end (List.map (settle h) rest) = true) as Hunread.
    { destruct (getEnvValue h "env") as [e|] eqn:Eenv.
      - cbn [pieceOk]. apply plainText_append; [exact Hplain0|].
        now apply plainText_name.
      - cbn [pieceOk]. rewrite Hok, Hok0, (nameEnds_settle rest Hok1).
        reflexivity. }
    destruct (win32 h) eqn:Hwin; cbn [negb orb] in *; [|exact Hunread].
    destruct (getEnvValue h n) eqn:E; [exact Hplain | exact Hunread].
  - destruct (getEnvValue h n) eqn:E; [exact Hplain|].
    cbn [pieceOk]. now rewrite Hok, Hok0, (nameEnds_settle rest Hok1).
  - destruct (getEnvValue h n) eqn:E; [exact Hplain|].
    cbn [pieceOk]. exact Hok.
Qed.

Lemma wellFormed_settle (pieces : list Piece) :
  wellFormed h pieces = true ->
  List.forallb (valuesPlain h) pieces = true ->
  wellFormed h (List.map (settle h) pieces) = true.
Proof.
  induction pieces as [|p rest IH]; [reflexivity|].
  cbn [wellFormed List.forallb List.map]. intros Hwf Hplain.
  apply andb_true_iff in Hwf. destruct Hwf as [Hp Hrest].
  apply andb_true_iff in Hplain. destruct Hplain as [Hv Hvs].
  now rewrite pieceOk_settle, IH.
Qed.

(** With plain values, what the expansion gives is left alone by a
    second expansion. *)
Lemma expand_pieces_twice (pieces : list Piece) :
  wellFormed h pieces = true ->
  List.forallb (valuesPlain h) pieces = true ->
  expandEnvironmentVariables h (substitutedAll h pieces)
  = substitutedAll h pieces.
Proof.
  intros Hwf Hplain. rewrite <- settle_written at 1.
  rewrite expand_pieces by (now apply wellFormed_settle).
  now rewrite settle_substituted, settle_written.
Qed.

End SettledPieces.

Lemma normalize_not_home (P : PathModule) (h : Host) (x : string) :
  startsWithHomePath (expandEnvironmentVariables h x) = false ->
  win32 h = false \/ Regex.msysPath (expandEnvironmentVariables h x) = None ->
  normalizePathBeforeResolution P h x = expandEnvironmentVariables h x.
Proof.
  intros Hhome Hmsys. unfold normalizePathBeforeResolution.
  destruct (expandHomePath_cases P h x) as [[_ ->]|[Hx _]];
    [|cbv zeta in Hx; congruence].
  unfold translateMsysPath.
  destruct Hmsys as [->| ->]; [reflexivity | now destruct (win32 h)].
Qed.

Lemma normalize_pieces_twice (P : PathModule) (h : Host)
    (pieces : list Piece) :
  wellFormed h pieces = true ->
  List.forallb (valuesPlain h) pieces = true ->
  startsWithHomePath (substitutedAll h pieces) = false ->
  win32 h = false \/ Regex.msysPath (substitutedAll h pieces) = None ->
  normalizePathBeforeResolution P h
    (normalizePathBeforeResolution P h (writtenAll pieces))
  = normalizePathBeforeResolution P h (writtenAll pieces).
Proof.
  intros Hwf Hplain Hhome Hmsys.
  assert (normalizePathBeforeResolution P h (writtenAll pieces)
          = substitutedAll h pieces) as ->.
  { rewrite normalize_not_home; rewrite expand_pieces by assumption; auto. }
  pose proof (expand_pieces_twice h pieces Hwf Hplain) as Htwice.
  rewrite normalize_not_home; rewrite Htwice; auto.
Qed.

(** C8, as amended.  Every replacement is done in one pass, so
    normalizing twice is normalizing once whenever the expansion leaves
    the first result as it is, the home directory being stable; on
    POSIX with an absolute home directory it is so only then.  The
    expansion leaves a text as it is when every reference it can read
    in it names a variable without value.  Hence normalization is
    idempotent on every input when no variable resolves; on POSIX, on
    every input without percent sign, dollar sign and exclamation mark
    when the home directory is absolute and holds none of them; and on
    every well-formed text of plain pieces and references whose values
    are plain text, when the expansion is neither in home notation nor,
    on Windows, in the MSYS drive form. *)
Theorem normalize_idempotent_on_expanded :
  (forall (P : PathModule) (h : Host) (x : string),
      homeStable P h ->
      expandEnvironmentVariables h (normalizePathBeforeResolution P h x)
      = normalizePathBeforeResolution P h x ->
      normalizePathBeforeResolution P h (normalizePathBeforeResolution P h x)
      = normalizePathBeforeResolution P h x)
  /\ (forall (h : Host) (x : string),
        win32 h = false -> Posix.isAbsolute (homedir h) = true ->
        (normalizePathBeforeResolution Posix.module h
           (normalizePathBeforeResolution Posix.module h x)
         = normalizePathBeforeResolution Posix.module h x
         <-> expandEnvironmentVariables h
               (normalizePathBeforeResolution Posix.module h x)
             = normalizePathBeforeResolution Posix.module h x))
  /\ (forall (h : Host) (y : string),
        nothingToExpand h y -> expandEnvironmentVariables h y = y)
  /\ (forall (P : PathModule) (h : Host),
        homeStable P h -> (forall key, getEnvValue h key = None) ->
        forall x,
          normalizePathBeforeResolution P h
            (normalizePathBeforeResolution P h x)
          = normalizePathBeforeResolution P h x)
  /\ (forall (h : Host) (x : string),
        win32 h = false -> noMeta x = true ->
        Posix.isAbsolute (homedir h) = true -> noMeta (homedir h) = true ->
        normalizePathBeforeResolution Posix.module h
          (normalizePathBeforeResolution Posix.module h x)
        = normalizePathBeforeResolution Posix.module h x)
  /\ (forall (P : PathModule) (h : Host) (pieces : list Piece),
        wellFormed h pieces = true ->
        List.forallb (valuesPlain h) pieces = true ->
        startsWithHomePath (substitutedAll h pieces) = false ->
        win32 h = false \/ Regex.msysPath (substitutedAll h pieces) = None ->
        normalizePathBeforeResolution P h
          (normalizePathBeforeResolution P h (writtenAll pieces))
        = normalizePathBeforeResolution P h (writtenAll pieces)).
Proof.
  repeat apply conj.
  - intros P h x Hstable. now apply normalize_settled.
  - intros h x Hposix Habs. now apply posix_idempotent_iff.
  - exact expand_unchanged.
  - intros P h Hstable Hnone x. apply normalize_settled; [exact Hstable|].
    now apply expand_nothing_resolves.
  - exact posix_normalize_without_references.
  - exact normalize_pieces_twice.
Qed.

(** A reference to a variable without value is all that can be read
    in this text. *)
Lemma unset_reference_has_nothing_to_expand :
  nothingToExpand Examples.plainHost "$UNSET/notes".
Proof.
  assert (forall re : Regex.Pattern,
            (forall i m, re (JS.sliceFrom "$UNSET/notes" i) = Some m ->
                         i = 0) ->
            (forall m name, re "$UNSET/notes" = Some m ->
                            In (Some name) (Regex.groups m) ->
                            name = "UNSET") ->
            unresolvedIn Examples.plainHost re "$UNSET/notes") as Hone.
  { intros re Hfirst Hname i m name Hm Hin.
    pose proof (Hfirst i m Hm) as ->.
    now rewrite (Hname m name Hm Hin). }
  assert (forall re : Regex.Pattern,
            (forall i, re (JS.sliceFrom "$UNSET/notes" i) = None) ->
            unresolvedIn Examples.plainHost re "$UNSET/notes") as Hnone.
  { intros re Hnever i m name Hm. now rewrite Hnever in Hm. }
  split; [|split].
  - apply Hnone. intros i.
    do 13 (destruct i as [|i]; [reflexivity|]). reflexivity.
  - apply Hone.
    + intros i m.
      destruct i as [|i]; [reflexivity|].
      do 12 (destruct i as [|i]; [discriminate|]). discriminate.
    + intros m name [= <-]. simpl. intros [[= <-]|[H|[]]];
        [reflexivity | discriminate].
  - discriminate.
Qed.

Lemma normalize_idempotent_on_expanded_witness :
  normalizePathBeforeResolution Posix.module Examples.plainHost
    (normalizePathBeforeResolution Posix.module Examples.plainHost
       "~/$UNSET/notes")
  = normalizePathBeforeResolution Posix.module Examples.plainHost
      "~/$UNSET/notes"
  /\ expandEnvironmentVariables Examples.plainHost "$UNSET/notes"
     = "$UNSET/notes"
  /\ normalizePathBeforeResolution Posix.module Examples.emptyHost
       (normalizePathBeforeResolution Posix.module Examples.emptyHost
          "~/%A%/$B")
     = normalizePathBeforeResolution Posix.module Examples.emptyHost
         "~/%A%/$B"
  /\ normalizePathBeforeResolution Posix.module Examples.plainHost
       (normalizePathBeforeResolution Posix.module Examples.plainHost
          "~/../shared/./a.md")
     = normalizePathBeforeResolution Posix.module Examples.plainHost
         "~/../shared/./a.md"
  /\ normalizePathBeforeResolution Posix.module Examples.plainHost
       (normalizePathBeforeResolution Posix.module Examples.plainHost
          "$HOME/done!.md")
     = normalizePathBeforeResolution Posix.module Examples.plainHost
         "$HOME/done!.md".
Proof.
  destruct normalize_idempotent_on_expanded
    as [_ [Hiff [Hnothing [Hnone [Hplain Hpieces]]]]].
  split; [|split; [|split; [|split]]].
  - apply (Hiff Examples.plainHost "~/$UNSET/notes"); reflexivity.
  - apply (Hnothing Examples.plainHost "$UNSET/notes").
    exact unset_reference_has_nothing_to_expand.
  - apply (Hnone Posix.module Examples.emptyHost).
    + now apply posix_homeStable.
    + intros key. reflexivity.
  - apply (Hplain Examples.plainHost "~/../shared/./a.md"); reflexivity.
  - apply (Hpieces Posix.module Examples.plainHost
             [Bare "HOME"; Plain "/done!.md"]).
    + reflexivity.
    + reflexivity.
    + reflexivity.
    + left. reflexivity.
Defined.

(** C8 as stated fails: with [A] set to a reference to [B], the first
    normalization of a reference to [A] yields the reference to [B] and
    the second one expands it. *)
Lemma normalize_not_idempotent :
  normalizePathBeforeResolution Posix.module Examples.chainedHost "$A" = "$B"
  /\ normalizePathBeforeResolution Posix.module Examples.chainedHost "$B" = "c"
  /\ normalizePathBeforeResolution Posix.module Examples.chainedHost
       (normalizePathBeforeResolution Posix.module Examples.chainedHost "$A")
     <> normalizePathBeforeResolution Posix.module Examples.chainedHost "$A".
Proof. repeat split; try reflexivity. vm_compute. discriminate. Qed.
